(** * Single-value aggregate states: min, max, any, anyLast, anyHeavy,
      singleValueOrNull; the selector of a scattered block

    A shallow embedding of [src/AggregateFunctions/AggregateFunctionMinMaxAny.h]
    and of the selector part of [src/Interpreters/HashJoin/ScatteredBlock.h].

    - a [WriteBuffer] / [ReadBuffer] is a list of bytes; [writeBinary] of a
      POD writes its little-endian object representation;
    - a C++ exception is [None] (for [read]) or the left injection of a sum
      (for the constructor);
    - the row overloads [f(column, row_num, arena)] take the value stored at
      [column[row_num]]; the overloads [f(const Self & to, arena)] carry the
      suffix [_from];
    - every [bool f(...)] that mutates [*this] returns the pair of its result
      and the new state;
    - [Int32], [UInt64] and [size_t] values are integers, with the wrap-around
      of every conversion and of the [UInt64] arithmetic written out;
    - a [char] buffer is the list of the bytes that start at its address;
      members without an initialiser are parameters of [create]. *)

From Stdlib Require Import String.
From Stdlib Require Import ZArith List Bool Lia.
From Stdlib.Strings Require Import Byte.
Import ListNotations.
Local Open Scope Z_scope.

(* ------------------------------------------------------------------ *)
(** ** IO/WriteHelpers.h, IO/ReadHelpers.h: binary POD encoding        *)
(* ------------------------------------------------------------------ *)

Module IO.

Definition Buffer := list byte.

Definition byte_of_Z (z : Z) : byte :=
  match Byte.of_N (Z.to_N z) with
  | Some b => b
  | None => x00
  end.

Definition Z_of_byte (b : byte) : Z := Z.of_N (Byte.to_N b).

(** Little-endian object representation of an [n]-byte integer. *)
Fixpoint le_bytes (n : nat) (z : Z) : Buffer :=
  match n with
  | O => []
  | S k => byte_of_Z (z mod 256) :: le_bytes k (z / 256)
  end.

Fixpoint le_value (bs : Buffer) : Z :=
  match bs with
  | [] => 0
  | b :: rest => Z_of_byte b + 256 * le_value rest
  end.

(** Two's complement reading of an unsigned [w]-bit pattern. *)
Definition to_signed (w : Z) (u : Z) : Z :=
  let m := u mod 2 ^ w in
  if m <? 2 ^ (w - 1) then m else m - 2 ^ w.

Definition to_Int32 (z : Z) : Z := to_signed 32 z.
Definition to_UInt32 (z : Z) : Z := z mod 2 ^ 32.
Definition to_UInt64 (z : Z) : Z := z mod 2 ^ 64.

(** [ReadBuffer::readStrict(to, n)]: throws when fewer than [n] bytes are
    left. *)
Definition readStrict (n : nat) (buf : Buffer) : option (Buffer * Buffer) :=
  if (length buf <? n)%nat then None else Some (firstn n buf, skipn n buf).

Definition writeBinary_Int32 (x : Z) : Buffer := le_bytes 4 x.

Definition readBinary_Int32 (buf : Buffer) : option (Z * Buffer) :=
  match readStrict 4 buf with
  | Some (bs, rest) => Some (to_Int32 (le_value bs), rest)
  | None => None
  end.

Definition writeBinary_UInt64 (x : Z) : Buffer := le_bytes 8 x.

Definition readBinary_UInt64 (buf : Buffer) : option (Z * Buffer) :=
  match readStrict 8 buf with
  | Some (bs, rest) => Some (le_value bs, rest)
  | None => None
  end.

Definition writeBinary_bool (b : bool) : Buffer :=
  [if b then x01 else x00].

Definition readBinary_bool (buf : Buffer) : option (bool * Buffer) :=
  match buf with
  | [] => None
  | b :: rest => Some (negb (Byte.eqb b x00), rest)
  end.

(** [memcpy(dst, src, n)] on the bytes that start at [dst]: the first [n]
    bytes of [dst] are replaced.  This is the C function where [dst] has at
    least [n] bytes, which the layout of a string state ([string_layout]
    below) ensures for every copy into it. *)
Definition memcpy (dst src : Buffer) (n : nat) : Buffer :=
  firstn n src ++ skipn n dst.

End IO.

Import IO.

(* ------------------------------------------------------------------ *)
(** ** The three value slots behind one interface                      *)
(* ------------------------------------------------------------------ *)

(** What the wrappers [AggregateFunctionMinData<Data>], ... require of their
    template argument [Data].  [V] is the type of one column cell. *)
Module Slot.
Class SingleValueData (D V : Type) := {
  has : D -> bool;
  insertResultInto : D -> V;
  write : D -> Buffer;
  read : D -> Buffer -> option (D * Buffer);
  change : D -> V -> D;
  change_from : D -> D -> D;
  changeFirstTime : D -> V -> bool * D;
  changeFirstTime_from : D -> D -> bool * D;
  changeEveryTime : D -> V -> bool * D;
  changeEveryTime_from : D -> D -> bool * D;
  changeIfLess : D -> V -> bool * D;
  changeIfLess_from : D -> D -> bool * D;
  changeIfGreater : D -> V -> bool * D;
  changeIfGreater_from : D -> D -> bool * D;
  isEqualTo : D -> V -> bool;
  isEqualTo_from : D -> D -> bool;
  allocatesMemoryInArena : bool
}.
End Slot.

(** *** SingleValueDataFixed<T> *)

(** The operations of the numeric type [T] the template is instantiated
    with. *)
Class FixedType (T : Type) := {
  T_less : T -> T -> bool;
  T_greater : T -> T -> bool;
  T_equal : T -> T -> bool;
  T_default : T;
  T_writeBinary : T -> Buffer;
  T_readBinary : Buffer -> option (T * Buffer)
}.

Module Fixed.
Section WithT.
Context {T : Type} `{FixedType T}.

Record SingleValueDataFixed := mk {
  has_value : bool;
  value : T
}.

(** [has_value = false]; [value] has no initialiser and holds whatever the
    memory of the state held. *)
Definition create (indeterminate : T) : SingleValueDataFixed :=
  mk false indeterminate.

Definition has (s : SingleValueDataFixed) : bool := has_value s.

Definition insertResultInto (s : SingleValueDataFixed) : T :=
  if has s then value s else T_default.

Definition write (s : SingleValueDataFixed) : Buffer :=
  writeBinary_bool (has s) ++ (if has s then T_writeBinary (value s) else []).

Definition read (s : SingleValueDataFixed) (buf : Buffer)
  : option (SingleValueDataFixed * Buffer) :=
  match readBinary_bool buf with
  | None => None
  | Some (h, buf1) =>
      if h then
        match T_readBinary buf1 with
        | None => None
        | Some (v, buf2) => Some (mk h v, buf2)
        end
      else Some (mk h (value s), buf1)
  end.

Definition change (s : SingleValueDataFixed) (x : T) : SingleValueDataFixed :=
  mk true x.

Definition change_from (s to : SingleValueDataFixed) : SingleValueDataFixed :=
  mk true (value to).

Definition changeFirstTime (s : SingleValueDataFixed) (x : T) :=
  if negb (has s) then (true, change s x) else (false, s).

Definition changeFirstTime_from (s to : SingleValueDataFixed) :=
  if negb (has s) && has to then (true, change_from s to) else (false, s).

Definition changeEveryTime (s : SingleValueDataFixed) (x : T) :=
  (true, change s x).

Definition changeEveryTime_from (s to : SingleValueDataFixed) :=
  if has to then (true, change_from s to) else (false, s).

Definition changeIfLess (s : SingleValueDataFixed) (x : T) :=
  if negb (has s) || T_less x (value s) then (true, change s x) else (false, s).

Definition changeIfLess_from (s to : SingleValueDataFixed) :=
  if has to && (negb (has s) || T_less (value to) (value s))
  then (true, change_from s to) else (false, s).

Definition changeIfGreater (s : SingleValueDataFixed) (x : T) :=
  if negb (has s) || T_greater x (value s) then (true, change s x) else (false, s).

Definition changeIfGreater_from (s to : SingleValueDataFixed) :=
  if has to && (negb (has s) || T_greater (value to) (value s))
  then (true, change_from s to) else (false, s).

Definition isEqualTo_from (s to : SingleValueDataFixed) : bool :=
  has s && T_equal (value to) (value s).

Definition isEqualTo (s : SingleValueDataFixed) (x : T) : bool :=
  has s && T_equal x (value s).

Definition allocatesMemoryInArena : bool := false.

End WithT.
Arguments SingleValueDataFixed T : clear implicits.
End Fixed.

#[export] Instance SingleValueDataFixed_ops {T} `{FixedType T}
  : Slot.SingleValueData (Fixed.SingleValueDataFixed T) T := {
  Slot.has := Fixed.has;
  Slot.insertResultInto := Fixed.insertResultInto;
  Slot.write := Fixed.write;
  Slot.read := Fixed.read;
  Slot.change := Fixed.change;
  Slot.change_from := Fixed.change_from;
  Slot.changeFirstTime := Fixed.changeFirstTime;
  Slot.changeFirstTime_from := Fixed.changeFirstTime_from;
  Slot.changeEveryTime := Fixed.changeEveryTime;
  Slot.changeEveryTime_from := Fixed.changeEveryTime_from;
  Slot.changeIfLess := Fixed.changeIfLess;
  Slot.changeIfLess_from := Fixed.changeIfLess_from;
  Slot.changeIfGreater := Fixed.changeIfGreater;
  Slot.changeIfGreater_from := Fixed.changeIfGreater_from;
  Slot.isEqualTo := Fixed.isEqualTo;
  Slot.isEqualTo_from := Fixed.isEqualTo_from;
  Slot.allocatesMemoryInArena := Fixed.allocatesMemoryInArena
}.

(** *** StringRef *)

Module StringRef.

(** A pointer and a [size_t] length; [data] is the memory that starts at the
    pointer. *)
Record StringRef := mk {
  data : Buffer;
  size : Z
}.

(** The bytes the reference denotes. *)
Definition bytes (r : StringRef) : Buffer := firstn (Z.to_nat (size r)) (data r).

(** [ColumnString::getDataAt(row_num)] for a cell that holds [v]. *)
Definition of_cell (v : Buffer) : StringRef := mk v (Z.of_nat (length v)).

Fixpoint bytes_compare (a b : Buffer) : comparison :=
  match a, b with
  | x :: a', y :: b' =>
      match N.compare (Byte.to_N x) (Byte.to_N y) with
      | Eq => bytes_compare a' b'
      | c => c
      end
  | _, _ => Eq
  end.

Fixpoint bytes_eqb (a b : Buffer) : bool :=
  match a, b with
  | [], [] => true
  | x :: a', y :: b' => Byte.eqb x y && bytes_eqb a' b'
  | _, _ => false
  end.

Definition memcmp (a b : Buffer) (n : Z) : comparison :=
  bytes_compare (firstn (Z.to_nat n) a) (firstn (Z.to_nat n) b).

(** Modelled from the spec: base/StringRef.h is not among the sources; the
    comparison operators are the natural total order of byte strings, that
    is [memcmp] over the common prefix and then the shorter one first. *)
Definition less (l r : StringRef) : bool :=
  match memcmp (data l) (data r) (Z.min (size l) (size r)) with
  | Lt => true
  | Eq => size l <? size r
  | Gt => false
  end.

(** Modelled from the spec: base/StringRef.h is not among the sources; see
    [less]. *)
Definition greater (l r : StringRef) : bool :=
  match memcmp (data l) (data r) (Z.min (size l) (size r)) with
  | Gt => true
  | Eq => size l >? size r
  | Lt => false
  end.

(** Modelled from the spec: base/StringRef.h is not among the sources;
    structural equality is equal length and equal bytes. *)
Definition equal (l r : StringRef) : bool :=
  (size l =? size r) && bytes_eqb (bytes l) (bytes r).

End StringRef.

(** *** Arena *)

(** [Arena::alloc(n)]: a new block of [n] bytes, [n] being the [Int32]
    capacity converted to [size_t].  The block's content is unspecified in
    C++; every byte of it that is read below has been written first.  Whether
    the arena can serve the request is not modelled: a capacity that has
    overflowed to -2^31 asks for 2^64 - 2^31 bytes, and the properties that
    depend on the block keep the sizes at 2^30 at most, where the capacity is
    a power of two up to 2^30. *)
Definition arena_alloc (n : Z) : Buffer := repeat x00 (Z.to_nat (to_UInt64 n)).

(** Modelled from the spec: the header that defines
    [roundUpToPowerOfTwoOrZero] is not among the sources; the overflow buffer
    grows to the next power of two greater than or equal to the new
    length. *)
Definition roundUpToPowerOfTwoOrZero (n : Z) : Z :=
  if n <=? 0 then 0 else 2 ^ Z.log2_up n.

(** *** SingleValueDataString *)

Module Str.

Record SingleValueDataString := mk {
  size : Z;           (* Int32, -1 indicates that there is no value *)
  capacity : Z;       (* Int32, power of two or zero *)
  large_data : Buffer;
  small_data : Buffer
}.

Definition AUTOMATIC_STORAGE_SIZE : Z := 64.

(** [sizeof(size)], [sizeof(capacity)] and [sizeof(large_data)], the last one
    fixed to 8 by the [static_assert] on the size of the struct. *)
Definition MAX_SMALL_STRING_SIZE : Z := AUTOMATIC_STORAGE_SIZE - 4 - 4 - 8.

(** [size = -1], [capacity = 0]; [large_data] and [small_data] have no
    initialiser. *)
Definition create (indeterminate_small : Buffer) : SingleValueDataString :=
  mk (-1) 0 [] indeterminate_small.

Definition has (s : SingleValueDataString) : bool := size s >=? 1.

Definition getData (s : SingleValueDataString) : Buffer :=
  if size s <=? MAX_SMALL_STRING_SIZE then small_data s else large_data s.

Definition getStringRef (s : SingleValueDataString) : StringRef.StringRef :=
  StringRef.mk (getData s) (to_UInt64 (size s)).

(** [data[i]] *)
Definition at_ (d : Buffer) (i : Z) : byte := nth (Z.to_nat i) d x00.

Definition insertResultInto (s : SingleValueDataString) : Buffer :=
  if has s then
    let data := getData s in
    let final_size :=
      to_UInt64 (if negb (Byte.eqb (at_ data (size s - 1)) x00)
                 then size s else size s - 1) in
    if negb (final_size =? 0) then firstn (Z.to_nat final_size) data
    else []
  else [].

Definition write (s : SingleValueDataString) : Buffer :=
  if negb (has s) then writeBinary_Int32 1 ++ [x00]
  else
    let data := getData s in
    if negb (Byte.eqb (at_ data (size s - 1)) x00)
    then writeBinary_Int32 (size s + 1)
           ++ firstn (Z.to_nat (size s)) data ++ [x00]
    else writeBinary_Int32 (size s) ++ firstn (Z.to_nat (size s)) data.

Definition read (s : SingleValueDataString) (buf : Buffer)
  : option (SingleValueDataString * Buffer) :=
  match readBinary_Int32 buf with
  | None => None
  | Some (rhs_size, buf1) =>
      if rhs_size >=? 0 then
        if rhs_size <=? MAX_SMALL_STRING_SIZE then
          if rhs_size >? 0 then
            match readStrict (Z.to_nat rhs_size) buf1 with
            | None => None
            | Some (bs, buf2) =>
                Some (mk rhs_size (capacity s) (large_data s)
                         (memcpy (small_data s) bs (Z.to_nat rhs_size)), buf2)
            end
          else Some (mk rhs_size (capacity s) (large_data s) (small_data s), buf1)
        else
          let grow := capacity s <? rhs_size in
          let capacity' :=
            if grow then to_Int32 (to_UInt32 (roundUpToPowerOfTwoOrZero rhs_size))
            else capacity s in
          let large' := if grow then arena_alloc capacity' else large_data s in
          match readStrict (Z.to_nat rhs_size) buf1 with
          | None => None
          | Some (bs, buf2) =>
              Some (mk rhs_size capacity'
                       (memcpy large' bs (Z.to_nat rhs_size)) (small_data s), buf2)
          end
      else Some (mk rhs_size (capacity s) (large_data s) (small_data s), buf1)
  end.

Definition changeImpl (s : SingleValueDataString) (value : StringRef.StringRef)
  : SingleValueDataString :=
  let value_size := to_Int32 (StringRef.size value) in
  if value_size <=? MAX_SMALL_STRING_SIZE then
    mk value_size (capacity s) (large_data s)
       (if value_size >? 0
        then memcpy (small_data s) (StringRef.data value) (Z.to_nat value_size)
        else small_data s)
  else
    let grow := capacity s <? value_size in
    let capacity' :=
      if grow then to_Int32 (roundUpToPowerOfTwoOrZero value_size)
      else capacity s in
    let large' := if grow then arena_alloc capacity' else large_data s in
    mk value_size capacity'
       (memcpy large' (StringRef.data value) (Z.to_nat value_size))
       (small_data s).

Definition change (s : SingleValueDataString) (x : Buffer) :=
  changeImpl s (StringRef.of_cell x).

Definition change_from (s to : SingleValueDataString) :=
  changeImpl s (getStringRef to).

Definition changeFirstTime (s : SingleValueDataString) (x : Buffer) :=
  if negb (has s) then (true, change s x) else (false, s).

Definition changeFirstTime_from (s to : SingleValueDataString) :=
  if negb (has s) && has to then (true, change_from s to) else (false, s).

Definition changeEveryTime (s : SingleValueDataString) (x : Buffer) :=
  (true, change s x).

Definition changeEveryTime_from (s to : SingleValueDataString) :=
  if has to then (true, change_from s to) else (false, s).

Definition changeIfLess (s : SingleValueDataString) (x : Buffer) :=
  if negb (has s) || StringRef.less (StringRef.of_cell x) (getStringRef s)
  then (true, change s x) else (false, s).

Definition changeIfLess_from (s to : SingleValueDataString) :=
  if has to && (negb (has s) || StringRef.less (getStringRef to) (getStringRef s))
  then (true, change_from s to) else (false, s).

Definition changeIfGreater (s : SingleValueDataString) (x : Buffer) :=
  if negb (has s) || StringRef.greater (StringRef.of_cell x) (getStringRef s)
  then (true, change s x) else (false, s).

Definition changeIfGreater_from (s to : SingleValueDataString) :=
  if has to && (negb (has s) || StringRef.greater (getStringRef to) (getStringRef s))
  then (true, change_from s to) else (false, s).

Definition isEqualTo_from (s to : SingleValueDataString) : bool :=
  has s && StringRef.equal (getStringRef to) (getStringRef s).

Definition isEqualTo (s : SingleValueDataString) (x : Buffer) : bool :=
  has s && StringRef.equal (StringRef.of_cell x) (getStringRef s).

Definition allocatesMemoryInArena : bool := true.

End Str.

#[export] Instance SingleValueDataString_ops
  : Slot.SingleValueData Str.SingleValueDataString Buffer := {
  Slot.has := Str.has;
  Slot.insertResultInto := Str.insertResultInto;
  Slot.write := Str.write;
  Slot.read := Str.read;
  Slot.change := Str.change;
  Slot.change_from := Str.change_from;
  Slot.changeFirstTime := Str.changeFirstTime;
  Slot.changeFirstTime_from := Str.changeFirstTime_from;
  Slot.changeEveryTime := Str.changeEveryTime;
  Slot.changeEveryTime_from := Str.changeEveryTime_from;
  Slot.changeIfLess := Str.changeIfLess;
  Slot.changeIfLess_from := Str.changeIfLess_from;
  Slot.changeIfGreater := Str.changeIfGreater;
  Slot.changeIfGreater_from := Str.changeIfGreater_from;
  Slot.isEqualTo := Str.isEqualTo;
  Slot.isEqualTo_from := Str.isEqualTo_from;
  Slot.allocatesMemoryInArena := Str.allocatesMemoryInArena
}.

(** *** SingleValueDataGeneric *)

(** What the slot uses of [Field] (Core/Field.h), of the column it reads from
    and writes to, and of the [ISerialization] of the argument type. *)
Class FieldType (F : Type) := {
  Field_Null : F;                       (* a default-constructed Field *)
  Field_isNull : F -> bool;
  Field_less : F -> F -> bool;
  Field_greater : F -> F -> bool;
  Field_equal : F -> F -> bool;
  column_default : F;                   (* what [IColumn::insertDefault] inserts *)
  serializeBinary : F -> Buffer;
  deserializeBinary : Buffer -> option (F * Buffer)
}.

Module Generic.
Section WithField.
Context {F : Type} `{FieldType F}.

Record SingleValueDataGeneric := mk {
  value : F
}.

Definition create : SingleValueDataGeneric := mk Field_Null.

Definition has (s : SingleValueDataGeneric) : bool := negb (Field_isNull (value s)).

Definition insertResultInto (s : SingleValueDataGeneric) : F :=
  if has s then value s else column_default.

Definition write (s : SingleValueDataGeneric) : Buffer :=
  if negb (Field_isNull (value s))
  then writeBinary_bool true ++ serializeBinary (value s)
  else writeBinary_bool false.

Definition read (s : SingleValueDataGeneric) (buf : Buffer)
  : option (SingleValueDataGeneric * Buffer) :=
  match readBinary_bool buf with
  | None => None
  | Some (is_not_null, buf1) =>
      if is_not_null then
        match deserializeBinary buf1 with
        | None => None
        | Some (v, buf2) => Some (mk v, buf2)
        end
      else Some (s, buf1)
  end.

Definition change (s : SingleValueDataGeneric) (x : F) : SingleValueDataGeneric :=
  mk x.

Definition change_from (s to : SingleValueDataGeneric) : SingleValueDataGeneric :=
  mk (value to).

Definition changeFirstTime (s : SingleValueDataGeneric) (x : F) :=
  if negb (has s) then (true, change s x) else (false, s).

Definition changeFirstTime_from (s to : SingleValueDataGeneric) :=
  if negb (has s) && has to then (true, change_from s to) else (false, s).

Definition changeEveryTime (s : SingleValueDataGeneric) (x : F) :=
  (true, change s x).

Definition changeEveryTime_from (s to : SingleValueDataGeneric) :=
  if has to then (true, change_from s to) else (false, s).

Definition changeIfLess (s : SingleValueDataGeneric) (x : F) :=
  if negb (has s) then (true, change s x)
  else
    let new_value := x in
    if Field_less new_value (value s) then (true, mk new_value) else (false, s).

Definition changeIfLess_from (s to : SingleValueDataGeneric) :=
  if has to && (negb (has s) || Field_less (value to) (value s))
  then (true, change_from s to) else (false, s).

Definition changeIfGreater (s : SingleValueDataGeneric) (x : F) :=
  if negb (has s) then (true, change s x)
  else
    let new_value := x in
    if Field_greater new_value (value s) then (true, mk new_value) else (false, s).

Definition changeIfGreater_from (s to : SingleValueDataGeneric) :=
  if has to && (negb (has s) || Field_greater (value to) (value s))
  then (true, change_from s to) else (false, s).

Definition isEqualTo (s : SingleValueDataGeneric) (x : F) : bool :=
  has s && Field_equal (value s) x.

Definition isEqualTo_from (s to : SingleValueDataGeneric) : bool :=
  has s && Field_equal (value to) (value s).

Definition allocatesMemoryInArena : bool := false.

End WithField.
Arguments SingleValueDataGeneric F : clear implicits.
End Generic.

#[export] Instance SingleValueDataGeneric_ops {F} `{FieldType F}
  : Slot.SingleValueData (Generic.SingleValueDataGeneric F) F := {
  Slot.has := Generic.has;
  Slot.insertResultInto := Generic.insertResultInto;
  Slot.write := Generic.write;
  Slot.read := Generic.read;
  Slot.change := Generic.change;
  Slot.change_from := Generic.change_from;
  Slot.changeFirstTime := Generic.changeFirstTime;
  Slot.changeFirstTime_from := Generic.changeFirstTime_from;
  Slot.changeEveryTime := Generic.changeEveryTime;
  Slot.changeEveryTime_from := Generic.changeEveryTime_from;
  Slot.changeIfLess := Generic.changeIfLess;
  Slot.changeIfLess_from := Generic.changeIfLess_from;
  Slot.changeIfGreater := Generic.changeIfGreater;
  Slot.changeIfGreater_from := Generic.changeIfGreater_from;
  Slot.isEqualTo := Generic.isEqualTo;
  Slot.isEqualTo_from := Generic.isEqualTo_from;
  Slot.allocatesMemoryInArena := Generic.allocatesMemoryInArena
}.

(* ------------------------------------------------------------------ *)
(** ** The six policies                                                *)
(* ------------------------------------------------------------------ *)

(** What [AggregateFunctionsSingleValue<Data>] uses of its template argument:
    a state type [S], fed with cells of type [V], emitting an [R]. *)
Module Data.
Record Data (S V R : Type) := mk {
  name : String.string;
  is_any : bool;
  is_nullable : bool;
  has : S -> bool;
  changeIfBetter : S -> V -> bool * S;
  changeIfBetter_from : S -> S -> bool * S;
  addManyDefaults : S -> V -> nat -> S;
  insertResultInto : S -> R;
  write : S -> Buffer;
  read : S -> Buffer -> option (S * Buffer)
}.
Arguments mk {S V R}.
Arguments name {S V R}.
Arguments is_any {S V R}.
Arguments is_nullable {S V R}.
Arguments has {S V R}.
Arguments changeIfBetter {S V R}.
Arguments changeIfBetter_from {S V R}.
Arguments addManyDefaults {S V R}.
Arguments insertResultInto {S V R}.
Arguments write {S V R}.
Arguments read {S V R}.
End Data.

Section Wrappers.
Context {D V : Type} `{Slot.SingleValueData D V}.

Definition AggregateFunctionMinData : Data.Data D V V :=
  Data.mk "min"%string false false Slot.has
    Slot.changeIfLess
    Slot.changeIfLess_from
    (fun s x _ => snd (Slot.changeIfLess s x))
    Slot.insertResultInto Slot.write Slot.read.

Definition AggregateFunctionMaxData : Data.Data D V V :=
  Data.mk "max"%string false false Slot.has
    Slot.changeIfGreater
    Slot.changeIfGreater_from
    (fun s x _ => snd (Slot.changeIfGreater s x))
    Slot.insertResultInto Slot.write Slot.read.

Definition AggregateFunctionAnyData : Data.Data D V V :=
  Data.mk "any"%string true false Slot.has
    Slot.changeFirstTime
    Slot.changeFirstTime_from
    (fun s x _ => snd (Slot.changeFirstTime s x))
    Slot.insertResultInto Slot.write Slot.read.

Definition AggregateFunctionAnyLastData : Data.Data D V V :=
  Data.mk "anyLast"%string false false Slot.has
    Slot.changeEveryTime
    Slot.changeEveryTime_from
    (fun s x _ => snd (Slot.changeEveryTime s x))
    Slot.insertResultInto Slot.write Slot.read.

End Wrappers.

(** *** AggregateFunctionSingleValueOrNullData<Data> *)

Module AggregateFunctionSingleValueOrNullData.
Section WithData.
Context {D V : Type} `{Slot.SingleValueData D V}.

Record State := mk {
  base : D;
  first_value : bool;
  is_null : bool
}.

Definition create (d : D) : State := mk d true false.

Definition changeIfBetter (s : State) (x : V) : bool * State :=
  if first_value s then
    (true, mk (Slot.change (base s) x) false (is_null s))
  else if negb (Slot.isEqualTo (base s) x) then
    (false, mk (base s) (first_value s) true)
  else (false, s).

Definition changeIfBetter_from (s to : State) : bool * State :=
  if first_value s then
    (true, mk (Slot.change_from (base s) (base to)) false (is_null s))
  else if negb (Slot.isEqualTo_from (base s) (base to)) then
    (false, mk (base s) (first_value s) true)
  else (false, s).

Definition addManyDefaults (s : State) (x : V) (length : nat) : State :=
  snd (changeIfBetter s x).

(** [None] is the NULL that [insertDefault] puts into the nullable column;
    [Some v] is a zero in the null map and [v] in the nested column. *)
Definition insertResultInto (s : State) : option V :=
  if is_null s || first_value s then None
  else Some (Slot.insertResultInto (base s)).

(** The wrapper as the template argument of the aggregate function. *)
Definition data : Data.Data State V (option V) :=
  Data.mk "singleValueOrNull"%string false true
    (fun s => Slot.has (base s))
    changeIfBetter changeIfBetter_from addManyDefaults insertResultInto
    (fun s => Slot.write (base s))
    (fun s buf =>
       match Slot.read (base s) buf with
       | Some (d, rest) => Some (mk d (first_value s) (is_null s), rest)
       | None => None
       end).

End WithData.
Arguments State D : clear implicits.
End AggregateFunctionSingleValueOrNullData.

Module OrNull := AggregateFunctionSingleValueOrNullData.

(** *** AggregateFunctionAnyHeavyData<Data> *)

Module AggregateFunctionAnyHeavyData.
Section WithData.
Context {D V : Type} `{Slot.SingleValueData D V}.

Record State := mk {
  base : D;
  counter : Z          (* UInt64 *)
}.

Definition create (d : D) : State := mk d 0.

Definition changeIfBetter (s : State) (x : V) : bool * State :=
  if Slot.isEqualTo (base s) x then
    (false, mk (base s) (to_UInt64 (counter s + 1)))
  else if counter s =? 0 then
    (true, mk (Slot.change (base s) x) (to_UInt64 (counter s + 1)))
  else (false, mk (base s) (to_UInt64 (counter s - 1))).

Definition changeIfBetter_from (s to : State) : bool * State :=
  if Slot.isEqualTo_from (base s) (base to) then
    (false, mk (base s) (to_UInt64 (counter s + counter to)))
  else if (negb (Slot.has (base s)) && Slot.has (base to))
          || (counter s <? counter to) then
    (true, mk (Slot.change_from (base s) (base to)) (counter s))
  else (false, mk (base s) (to_UInt64 (counter s - counter to))).

Fixpoint addManyDefaults (s : State) (x : V) (length : nat) : State :=
  match length with
  | O => s
  | S n => addManyDefaults (snd (changeIfBetter s x)) x n
  end.

Definition write (s : State) : Buffer :=
  Slot.write (base s) ++ writeBinary_UInt64 (counter s).

Definition read (s : State) (buf : Buffer) : option (State * Buffer) :=
  match Slot.read (base s) buf with
  | None => None
  | Some (d, buf1) =>
      match readBinary_UInt64 buf1 with
      | None => None
      | Some (c, buf2) => Some (mk d c, buf2)
      end
  end.

(** The wrapper as the template argument of the aggregate function. *)
Definition data : Data.Data State V V :=
  Data.mk "anyHeavy"%string false false
    (fun s => Slot.has (base s))
    changeIfBetter changeIfBetter_from addManyDefaults
    (fun s => Slot.insertResultInto (base s))
    write read.

End WithData.
Arguments State D : clear implicits.
End AggregateFunctionAnyHeavyData.

Module AnyHeavy := AggregateFunctionAnyHeavyData.

(* ------------------------------------------------------------------ *)
(** ** AggregateFunctionsSingleValue<Data>                             *)
(* ------------------------------------------------------------------ *)

Inductive ErrorCode := ILLEGAL_TYPE_OF_ARGUMENT | NOT_IMPLEMENTED.

Record Exception := mkException {
  message : String.string;
  code : ErrorCode
}.

(** What the constructor asks of the [IDataType] of the argument. *)
Module IDataType.
Record t := mk {
  getName : String.string;
  isComparable : bool
}.
End IDataType.

Module AggregateFunctionsSingleValue.
Section WithData.
Context {S V R : Type} (data : Data.Data S V R).

(** The object the constructor builds: the argument type it was given. *)
Record t := mk {
  argument_type : IDataType.t
}.

Definition getName : String.string := Data.name data.

(** The constructor: either the exception it throws or the aggregator. *)
Definition construct (type : IDataType.t) : Exception + t :=
  if String.eqb (Data.name data) "min" || String.eqb (Data.name data) "max"
  then
    if negb (IDataType.isComparable type)
    then inl (mkException
                (String.append "Illegal type "
                   (String.append (IDataType.getName type)
                      (String.append " of argument of aggregate function "
                         (String.append getName
                            " because the values of that data type are not comparable"))))
                ILLEGAL_TYPE_OF_ARGUMENT)
    else inr (mk type)
  else inr (mk type).

Definition add (place : S) (x : V) : S := snd (Data.changeIfBetter data place x).

Definition addManyDefaults (place : S) (x : V) (length : nat) : S :=
  Data.addManyDefaults data place x length.

Definition merge (place rhs : S) : S :=
  snd (Data.changeIfBetter_from data place rhs).

Definition serialize (place : S) : Buffer := Data.write data place.

Definition deserialize (place : S) (buf : Buffer) : option (S * Buffer) :=
  Data.read data place buf.

Definition insertResultInto (place : S) : R := Data.insertResultInto data place.

(** The loop of [addBatchSinglePlace] over the rows [row_begin, row_end),
    each paired with its flag ([true] when there is no [if] column). *)
Fixpoint addBatchLoop (place : S) (rows : list (V * bool)) : S :=
  match rows with
  | [] => place
  | (x, flag) :: rest =>
      if flag then
        let place' := add place x in
        if Data.is_any data then place' else addBatchLoop place' rest
      else addBatchLoop place rest
  end.

Definition addBatchSinglePlace (place : S) (rows : list V)
  (flags : option (list bool)) : S :=
  if Data.is_any data && Data.has data place then place
  else
    addBatchLoop place
      (match flags with
       | Some fl => combine rows fl
       | None => map (fun x => (x, true)) rows
       end).

(** The loop of [addBatchSinglePlaceNotNull]: each row with its entry of the
    null map and its flag ([true] when there is no [if] column). *)
Fixpoint addBatchLoopNotNull (place : S) (rows : list (V * bool * bool)) : S :=
  match rows with
  | [] => place
  | (x, is_null, flag) :: rest =>
      if negb is_null && flag then
        let place' := add place x in
        if Data.is_any data then place' else addBatchLoopNotNull place' rest
      else addBatchLoopNotNull place rest
  end.

Definition addBatchSinglePlaceNotNull (place : S) (rows : list V)
  (null_map : list bool) (flags : option (list bool)) : S :=
  if Data.is_any data && Data.has data place then place
  else
    addBatchLoopNotNull place
      (combine (combine rows null_map)
         (match flags with
          | Some fl => fl
          | None => repeat true (length rows)
          end)).

(** [add] for every row, first row first; [addBatchSinglePlace] without an
    [if] column does the same under every policy but any. *)
Definition addRows (place : S) (rows : list V) : S := fold_left add rows place.

End WithData.
End AggregateFunctionsSingleValue.

(* ------------------------------------------------------------------ *)
(** ** Concrete argument types used in the examples                    *)
(* ------------------------------------------------------------------ *)

(** [Int64], a value being the integer it denotes. *)
#[export] Instance Int64_FixedType : FixedType Z := {
  T_less := Z.ltb;
  T_greater := Z.gtb;
  T_equal := Z.eqb;
  T_default := 0;
  T_writeBinary := le_bytes 8;
  T_readBinary := fun buf =>
    match readStrict 8 buf with
    | Some (bs, rest) => Some (to_signed 64 (le_value bs), rest)
    | None => None
    end
}.

(** A numeric type with an unordered element, as the NaN of [Float64]:
    [<], [>] and [==] are all false when an operand is NaN (the ordered
    comparisons that [compileChangeComparison] emits for floating types). *)
Module WithNaN.

Inductive t := NaN | Num (z : Z).

Definition less (a b : t) : bool :=
  match a, b with Num x, Num y => x <? y | _, _ => false end.
Definition greater (a b : t) : bool :=
  match a, b with Num x, Num y => x >? y | _, _ => false end.
Definition equal (a b : t) : bool :=
  match a, b with Num x, Num y => x =? y | _, _ => false end.

Definition writeBinary (a : t) : Buffer :=
  match a with
  | NaN => [x01]
  | Num z => x00 :: le_bytes 8 z
  end.

Definition readBinary (buf : Buffer) : option (t * Buffer) :=
  match buf with
  | [] => None
  | tag :: buf1 =>
      if Byte.eqb tag x00 then
        match readStrict 8 buf1 with
        | Some (bs, rest) => Some (Num (to_signed 64 (le_value bs)), rest)
        | None => None
        end
      else Some (NaN, buf1)
  end.

End WithNaN.

#[export] Instance WithNaN_FixedType : FixedType WithNaN.t := {
  T_less := WithNaN.less;
  T_greater := WithNaN.greater;
  T_equal := WithNaN.equal;
  T_default := WithNaN.Num 0;
  T_writeBinary := WithNaN.writeBinary;
  T_readBinary := WithNaN.readBinary
}.

(** A [Field] that is either Null or an array of 64-bit integers; Null sorts
    before every array, arrays compare element by element. *)
Module ArrayField.

Inductive Field := Null | Array (elems : list Z).

Fixpoint list_compare (a b : list Z) : comparison :=
  match a, b with
  | [], [] => Eq
  | [], _ :: _ => Lt
  | _ :: _, [] => Gt
  | x :: a', y :: b' =>
      match Z.compare x y with
      | Eq => list_compare a' b'
      | c => c
      end
  end.

Definition compare (a b : Field) : comparison :=
  match a, b with
  | Null, Null => Eq
  | Null, Array _ => Lt
  | Array _, Null => Gt
  | Array x, Array y => list_compare x y
  end.

Definition less (a b : Field) : bool :=
  match compare a b with Lt => true | _ => false end.
Definition greater (a b : Field) : bool :=
  match compare a b with Gt => true | _ => false end.
Definition equal (a b : Field) : bool :=
  match compare a b with Eq => true | _ => false end.

Definition isNull (a : Field) : bool :=
  match a with Null => true | Array _ => false end.

(** An element count in eight bytes, then eight bytes per element. *)
Definition serialize (a : Field) : Buffer :=
  match a with
  | Null => []
  | Array l => le_bytes 8 (Z.of_nat (length l)) ++ flat_map (le_bytes 8) l
  end.

Fixpoint read_elems (n : nat) (buf : Buffer) : option (list Z * Buffer) :=
  match n with
  | O => Some ([], buf)
  | S k =>
      match readStrict 8 buf with
      | None => None
      | Some (bs, rest) =>
          match read_elems k rest with
          | None => None
          | Some (l, rest') => Some (to_signed 64 (le_value bs) :: l, rest')
          end
      end
  end.

Definition deserialize (buf : Buffer) : option (Field * Buffer) :=
  match readStrict 8 buf with
  | None => None
  | Some (bs, rest) =>
      match read_elems (Z.to_nat (le_value bs)) rest with
      | None => None
      | Some (l, rest') => Some (Array l, rest')
      end
  end.

End ArrayField.

#[export] Instance ArrayField_FieldType : FieldType ArrayField.Field := {
  Field_Null := ArrayField.Null;
  Field_isNull := ArrayField.isNull;
  Field_less := ArrayField.less;
  Field_greater := ArrayField.greater;
  Field_equal := ArrayField.equal;
  column_default := ArrayField.Array [];
  serializeBinary := ArrayField.serialize;
  deserializeBinary := ArrayField.deserialize
}.

(* ------------------------------------------------------------------ *)
(** ** Interpreters/HashJoin/ScatteredBlock.h                          *)
(* ------------------------------------------------------------------ *)

(** A shallow embedding of [detail::Selector] and of the part of
    [ScatteredBlock] that works on the selector.  A [size_t] and the [UInt64]
    elements of an [IColumn::Selector] are integers, with the wrap-around of
    the arithmetic written out; a function that throws returns the left
    injection of a sum; a loop over iterators takes fuel and returns [None]
    when it runs out of it. *)

Module detail.

(** [Exception(ErrorCodes::LOGICAL_ERROR, "Index {} out of range size {}",
    idx, size)] with the two arguments of its message. *)
Inductive Exception := LOGICAL_ERROR (idx size : Z).

Definition Range : Type := Z * Z.     (* std::pair<size_t, size_t> *)

(** [std::variant<Range, IColumn::Selector>] *)
Inductive Data :=
| Data_Range (range : Range)
| Data_Selector (selector : list Z).

Record Selector := mkSelector { data : Data }.

(** [size()] *)
Definition size (s : Selector) : Z :=
  match data s with
  | Data_Range (first, second) => to_UInt64 (second - first)
  | Data_Selector selector => Z.of_nat (length selector)
  end.

Definition initializeFromSelector (selector : list Z) : Data :=
  match selector with
  | [] => Data_Range (0, 0)
  | front :: _ =>
      let back := last selector 0 in
      let n := Z.of_nat (length selector) in
      if back =? to_UInt64 (front + n - 1)
      then Data_Range (front, to_UInt64 (front + n))
      else Data_Selector selector
  end.

(** [Selector(begin, end)], [Selector()] and [Selector(IColumn::Selector &&)] *)
Definition of_range (begin_ end_ : Z) : Selector := mkSelector (Data_Range (begin_, end_)).
Definition of_nothing : Selector := of_range 0 0.
Definition of_selector (selector_ : list Z) : Selector :=
  mkSelector (initializeFromSelector selector_).

(** [operator[]] *)
Definition get (s : Selector) (idx : Z) : Exception + Z :=
  if idx >=? size s then inl (LOGICAL_ERROR idx (size s))
  else
    match data s with
    | Data_Range (first, _) => inr (to_UInt64 (first + idx))
    | Data_Selector selector => inr (nth (Z.to_nat idx) selector 0)
    end.

Definition split (s : Selector) (num_rows : Z) : Exception + (Selector * Selector) :=
  if num_rows >? size s then inl (LOGICAL_ERROR num_rows (size s))
  else
    match data s with
    | Data_Range (first, second) =>
        if num_rows =? 0 then inr (of_nothing, of_range first second)
        else if num_rows =? size s then inr (of_range first second, of_nothing)
        else inr (of_range first (to_UInt64 (first + num_rows)),
                  of_range (to_UInt64 (first + num_rows)) second)
    | Data_Selector selector =>
        inr (of_selector (firstn (Z.to_nat num_rows) selector),
             of_selector (skipn (Z.to_nat num_rows) selector))
    end.

(** [Selector::Iterator] *)
Record Iterator := mkIterator {
  selector : Selector;
  idx : Z
}.

(** [operator*] *)
Definition deref (it : Iterator) : Exception + Z :=
  if idx it >=? size (selector it)
  then inl (LOGICAL_ERROR (idx it) (size (selector it)))
  else get (selector it) (idx it).

(** [operator++] *)
Definition incr (it : Iterator) : Exception + Iterator :=
  if idx it >=? size (selector it)
  then inl (LOGICAL_ERROR (idx it) (size (selector it)))
  else inr (mkIterator (selector it) (to_UInt64 (idx it + 1))).

(** [operator!=] *)
Definition neq (it other : Iterator) : bool := negb (idx it =? idx other).

Definition begin_ (s : Selector) : Iterator := mkIterator s 0.
Definition end_ (s : Selector) : Iterator := mkIterator s (size s).

(** The loop [for (; first != last; ++first) acc = body(acc, *first)], which
    is the range-based [for] over a selector and the loop of
    [std::copy_if]. *)
Fixpoint for_each {A : Type} (fuel : nat) (first last : Iterator)
  (body : A -> Z -> A) (acc : A) : option (Exception + A) :=
  if neq first last then
    match fuel with
    | O => None
    | S fuel' =>
        match deref first with
        | inl e => Some (inl e)
        | inr x =>
            match incr first with
            | inl e => Some (inl e)
            | inr next => for_each fuel' next last body (body acc x)
            end
        end
    end
  else Some (inr acc).

(** [std::find(first, last, value)] *)
Fixpoint find (fuel : nat) (first last : Iterator) (value : Z)
  : option (Exception + Iterator) :=
  if neq first last then
    match fuel with
    | O => None
    | S fuel' =>
        match deref first with
        | inl e => Some (inl e)
        | inr x =>
            if x =? value then Some (inr first)
            else
              match incr first with
              | inl e => Some (inl e)
              | inr next => find fuel' next last value
              end
        end
    end
  else Some (inr first).

End detail.

Module ScatteredBlock.
Section WithBlock.

(** What the selector part uses of [Block] (Core/Block.h): [rows()]. *)
Context {Block : Type} (Block_rows : Block -> Z).

Record ScatteredBlock := mk {
  block : Block;
  selector : detail.Selector
}.

Definition createTrivialSelector (size : Z) : detail.Selector :=
  detail.of_range 0 (to_UInt64 (size - 1)).

(** [ScatteredBlock(Block)], [ScatteredBlock(Block, IColumn::Selector &&)] and
    [ScatteredBlock(Block, Selector)] *)
Definition of_block (block_ : Block) : ScatteredBlock :=
  mk block_ (createTrivialSelector (Block_rows block_)).
Definition of_block_and_indexes (block_ : Block) (selector_ : list Z) : ScatteredBlock :=
  mk block_ (detail.of_selector selector_).
Definition of_block_and_selector (block_ : Block) (selector_ : detail.Selector)
  : ScatteredBlock :=
  mk block_ selector_.

Definition contains (fuel : nat) (sb : ScatteredBlock) (idx : Z)
  : option (detail.Exception + bool) :=
  match detail.find fuel (detail.begin_ (selector sb)) (detail.end_ (selector sb)) idx with
  | None => None
  | Some (inl e) => Some (inl e)
  | Some (inr it) => Some (inr (detail.neq it (detail.end_ (selector sb))))
  end.

Definition rows (sb : ScatteredBlock) : Z := detail.size (selector sb).

Definition wasScattered (sb : ScatteredBlock) : bool :=
  negb (detail.size (selector sb) =? Block_rows (block sb)).

(** [filter]: the mask is an [IColumn::Filter], an array of [UInt8]. *)
Definition filter (fuel : nat) (sb : ScatteredBlock) (filter : list Z)
  : option (detail.Exception + ScatteredBlock) :=
  match detail.for_each fuel (detail.begin_ (selector sb)) (detail.end_ (selector sb))
          (fun new_selector idx =>
             if negb (nth (Z.to_nat idx) filter 0 =? 0)
             then new_selector ++ [idx] else new_selector)
          [] with
  | None => None
  | Some (inl e) => Some (inl e)
  | Some (inr new_selector) =>
      Some (inr (mk (block sb) (detail.of_selector new_selector)))
  end.

End WithBlock.
Arguments ScatteredBlock Block : clear implicits.
End ScatteredBlock.

(* ------------------------------------------------------------------ *)
(** ** Laws assumed of an argument type                                *)
(* ------------------------------------------------------------------ *)

(** [less], [greater] and [equal] are the three comparison operators of one
    strict total order. *)
Record TotalOrder {A : Type} (less greater equal : A -> A -> bool) : Prop := {
  equal_spec : forall a b, equal a b = true <-> a = b;
  greater_less : forall a b, greater a b = less b a;
  less_irrefl : forall a, less a a = false;
  less_trans : forall a b c, less a b = true -> less b c = true -> less a c = true;
  less_total : forall a b, less a b = false -> less b a = false -> a = b
}.

(** Reading back what was written, for the values that satisfy [ok]. *)
Definition WireRoundTrip {A : Type} (ok : A -> Prop)
  (wr : A -> Buffer) (rd : Buffer -> option (A * Buffer)) : Prop :=
  forall v rest, ok v -> rd (wr v ++ rest) = Some (v, rest).

Definition Int64_range (z : Z) : Prop := - 2 ^ 63 <= z < 2 ^ 63.

(* ------------------------------------------------------------------ *)
(** ** Vocabulary of the properties                                    *)
(* ------------------------------------------------------------------ *)

(** The better of two values, the first one winning a tie: the binary
    minimum when [better] is [<], the binary maximum when it is [>]. *)
Definition best2 {A : Type} (better : A -> A -> bool) (a b : A) : A :=
  if better b a then b else a.

(** Folding a sequence with [best2]; [default] for the empty sequence. *)
Definition fold_best {A : Type} (better : A -> A -> bool) (default : A)
  (rows : list A) : A :=
  match rows with
  | [] => default
  | x :: xs => fold_left (best2 better) xs x
  end.

(** [Split l l1 l2]: [l1] and [l2] are two sub-sequences of [l] that keep the
    order of [l] and share its rows out between them. *)
Inductive Split {A : Type} : list A -> list A -> list A -> Prop :=
| Split_nil : Split [] [] []
| Split_left x l l1 l2 : Split l l1 l2 -> Split (x :: l) (x :: l1) l2
| Split_right x l l1 l2 : Split l l1 l2 -> Split (x :: l) l1 (x :: l2).

(** The order of string cells: [operator<] and friends on the [StringRef]s
    that [getDataAt] returns. *)
Definition cell_less (a b : Buffer) : bool :=
  StringRef.less (StringRef.of_cell a) (StringRef.of_cell b).
Definition cell_greater (a b : Buffer) : bool :=
  StringRef.greater (StringRef.of_cell a) (StringRef.of_cell b).
Definition cell_equal (a b : Buffer) : bool :=
  StringRef.equal (StringRef.of_cell a) (StringRef.of_cell b).

(** The lexicographic comparison of two byte strings, bytes compared as
    unsigned numbers; [cell_less] and friends are shown below to decide
    it. *)
Fixpoint lex_compare (a b : Buffer) : comparison :=
  match a, b with
  | [], [] => Eq
  | [], _ :: _ => Lt
  | _ :: _, [] => Gt
  | x :: a', y :: b' =>
      match N.compare (Byte.to_N x) (Byte.to_N y) with
      | Eq => lex_compare a' b'
      | c => c
      end
  end.

(** A cell whose length survives the cast to [Int32] in [changeImpl]. *)
Definition cell_fits (x : Buffer) : Prop := Z.of_nat (length x) < 2 ^ 31.

(** A cell that is not empty and does not end in a zero byte. *)
Definition cell_plain (x : Buffer) : Prop := last x x00 <> x00.

Module StrInv.

(** The bytes a string state holds. *)
Definition content (s : Str.SingleValueDataString) : Buffer :=
  firstn (Z.to_nat (Str.size s)) (Str.getData s).

(** The invariant of a string state: [size] is an [Int32], and the buffer
    that [getData] selects holds [size] bytes.  [create], [change] with a
    cell that fits, [change] from a state that satisfies it, and [read] all
    establish it. *)
Definition wf (s : Str.SingleValueDataString) : Prop :=
  Str.size s < 2 ^ 31 /\ Str.size s <= Z.of_nat (length (Str.getData s)).

(** What [insertResultInto] makes of the stored bytes: one trailing zero
    byte is dropped. *)
Definition strip (c : Buffer) : Buffer :=
  if Byte.eqb (last c x00) x00 then removelast c else c.

(** A reference whose length is in range denotes its first [size] bytes. *)
Definition proper (r : StringRef.StringRef) : Prop :=
  0 <= StringRef.size r <= Z.of_nat (length (StringRef.data r)).

End StrInv.

(** How a slot type is read as "an optional value": which states satisfy the
    invariant of the type, which cells it accepts, the value a state stores,
    which cells count as a value once stored, and what is emitted. *)
Record SlotModel {D V : Type} `{Slot.SingleValueData D V}
  (less greater : V -> V -> bool)
  (inv : D -> Prop) (okcell : V -> Prop) (stored : D -> V)
  (counts : V -> bool) (emit_some : V -> V) (emit_none : V) : Prop := {
  m_emit : forall s, inv s ->
    Slot.insertResultInto s = if Slot.has s then emit_some (stored s) else emit_none;
  m_stored_counts : forall s, inv s -> Slot.has s = true -> counts (stored s) = true;
  m_change : forall s x, inv s -> okcell x ->
    inv (Slot.change s x) /\ stored (Slot.change s x) = x
    /\ Slot.has (Slot.change s x) = counts x;
  m_change_from : forall s t, inv s -> inv t -> Slot.has t = true ->
    inv (Slot.change_from s t) /\ stored (Slot.change_from s t) = stored t
    /\ Slot.has (Slot.change_from s t) = true;
  m_okcell_stored : forall s, inv s -> Slot.has s = true -> okcell (stored s);
  m_changeFirstTime : forall s x,
    Slot.changeFirstTime s x
    = if negb (Slot.has s) then (true, Slot.change s x) else (false, s);
  m_changeFirstTime_from : forall s t,
    Slot.changeFirstTime_from s t
    = if negb (Slot.has s) && Slot.has t
      then (true, Slot.change_from s t) else (false, s);
  m_changeEveryTime : forall s x,
    Slot.changeEveryTime s x = (true, Slot.change s x);
  m_changeEveryTime_from : forall s t,
    Slot.changeEveryTime_from s t
    = if Slot.has t then (true, Slot.change_from s t) else (false, s);
  m_changeIfLess : forall s x, inv s -> okcell x ->
    Slot.changeIfLess s x
    = if negb (Slot.has s) || less x (stored s)
      then (true, Slot.change s x) else (false, s);
  m_changeIfLess_from : forall s t, inv s -> inv t ->
    Slot.changeIfLess_from s t
    = if Slot.has t && (negb (Slot.has s) || less (stored t) (stored s))
      then (true, Slot.change_from s t) else (false, s);
  m_changeIfGreater : forall s x, inv s -> okcell x ->
    Slot.changeIfGreater s x
    = if negb (Slot.has s) || greater x (stored s)
      then (true, Slot.change s x) else (false, s);
  m_changeIfGreater_from : forall s t, inv s -> inv t ->
    Slot.changeIfGreater_from s t
    = if Slot.has t && (negb (Slot.has s) || greater (stored t) (stored s))
      then (true, Slot.change_from s t) else (false, s)
}.

(** The strict total order that [<] (or [>]) alone has to be. *)
Record StrictTotal {A : Type} (better : A -> A -> bool) : Prop := {
  st_irrefl : forall a, better a a = false;
  st_trans : forall a b c, better a b = true -> better b c = true -> better a c = true;
  st_total : forall a b, better a b = false -> better b a = false -> a = b
}.

(** A state read as an optional value. *)
Definition view {D V : Type} `{Slot.SingleValueData D V} (stored : D -> V)
  (s : D) : option V :=
  if Slot.has s then Some (stored s) else None.

(** [best2] on optional values, an absent value losing. *)
Definition obest {A : Type} (better : A -> A -> bool) (a b : option A) : option A :=
  match a, b with
  | None, _ => b
  | _, None => a
  | Some v, Some y => Some (best2 better v y)
  end.

Definition ofold_best {A : Type} (better : A -> A -> bool) (rows : list A)
  : option A :=
  match rows with
  | [] => None
  | x :: xs => Some (fold_left (best2 better) xs x)
  end.

(** [m] is a best row of [l]: it is one of the rows, and no row is better. *)
Definition is_best {A : Type} (better : A -> A -> bool) (l : list A) (m : A) : Prop :=
  In m l /\ forall x, In x l -> better x m = false.

(** A cell the slot accepts and counts as a value once stored. *)
Definition accepted {V : Type} (okcell : V -> Prop) (counts : V -> bool)
  (x : V) : Prop :=
  okcell x /\ counts x = true.

Module Agg := AggregateFunctionsSingleValue.

(** The law of claim C6 for one slot type: feeding the rows to a min (max)
    state that starts empty and emitting the result is folding the rows with
    the binary minimum (maximum). *)
Definition MinMaxFoldLaw {D V : Type} `{Slot.SingleValueData D V}
  (less greater : V -> V -> bool) (default : V)
  (empty : D -> Prop) (row_ok : V -> Prop) : Prop :=
  forall (s0 : D) (rows : list V),
    empty s0 -> Forall row_ok rows ->
    Agg.insertResultInto AggregateFunctionMinData
      (Agg.addRows AggregateFunctionMinData s0 rows)
    = fold_best less default rows
    /\ Agg.insertResultInto AggregateFunctionMaxData
         (Agg.addRows AggregateFunctionMaxData s0 rows)
       = fold_best greater default rows.

(** The law of claim C7 for one slot type.  [s1] is fed with the part [p1],
    [s2] with the part [p2], and the second is merged into the first;
    [Split] being symmetric, this covers both orders of merging. *)
Definition SplitMergeLaw {D V : Type} `{Slot.SingleValueData D V}
  (empty : D -> Prop) (row_ok : V -> Prop) : Prop :=
  forall (rows p1 p2 : list V) (s0 s1 s2 : D),
    Split rows p1 p2 -> Forall row_ok rows ->
    empty s0 -> empty s1 -> empty s2 ->
    (* min and max: the same result *)
    Agg.insertResultInto AggregateFunctionMinData
      (Agg.merge AggregateFunctionMinData
         (Agg.addRows AggregateFunctionMinData s1 p1)
         (Agg.addRows AggregateFunctionMinData s2 p2))
    = Agg.insertResultInto AggregateFunctionMinData
        (Agg.addRows AggregateFunctionMinData s0 rows)
    /\ Agg.insertResultInto AggregateFunctionMaxData
         (Agg.merge AggregateFunctionMaxData
            (Agg.addRows AggregateFunctionMaxData s1 p1)
            (Agg.addRows AggregateFunctionMaxData s2 p2))
       = Agg.insertResultInto AggregateFunctionMaxData
           (Agg.addRows AggregateFunctionMaxData s0 rows)
    (* any: a value exists in the one exactly when it exists in the other *)
    /\ Data.has AggregateFunctionAnyData
         (Agg.merge AggregateFunctionAnyData
            (Agg.addRows AggregateFunctionAnyData s1 p1)
            (Agg.addRows AggregateFunctionAnyData s2 p2))
       = Data.has AggregateFunctionAnyData
           (Agg.addRows AggregateFunctionAnyData s0 rows)
    (* anyLast: the same, and a source that holds a value wins *)
    /\ Data.has AggregateFunctionAnyLastData
         (Agg.merge AggregateFunctionAnyLastData
            (Agg.addRows AggregateFunctionAnyLastData s1 p1)
            (Agg.addRows AggregateFunctionAnyLastData s2 p2))
       = Data.has AggregateFunctionAnyLastData
           (Agg.addRows AggregateFunctionAnyLastData s0 rows)
    /\ Agg.insertResultInto AggregateFunctionAnyLastData
         (Agg.merge AggregateFunctionAnyLastData
            (Agg.addRows AggregateFunctionAnyLastData s1 p1)
            (Agg.addRows AggregateFunctionAnyLastData s2 p2))
       = Agg.insertResultInto AggregateFunctionAnyLastData
           (if Data.has AggregateFunctionAnyLastData
                 (Agg.addRows AggregateFunctionAnyLastData s2 p2)
            then Agg.addRows AggregateFunctionAnyLastData s2 p2
            else Agg.addRows AggregateFunctionAnyLastData s1 p1).

(** The arrays that the example serialization writes and reads back. *)
Definition ArrayField_ok (a : ArrayField.Field) : Prop :=
  match a with
  | ArrayField.Null => False
  | ArrayField.Array l => Z.of_nat (length l) < 2 ^ 64 /\ Forall Int64_range l
  end.

(** The law of claim C5 for one slot type and one of [changeIfLess]
    ([better] is [<]) and [changeIfGreater] ([better] is [>]): the row
    overload [op] and the state overload [op_from] replace the stored value
    exactly when the slot is empty or the candidate is strictly better, and on
    a tie nothing changes.  After a replacement the slot stores the
    candidate, and holds a value when the candidate counts as one ([counts]:
    every value of a fixed-width type, a non-null field, a non-empty
    string).  The candidate of the state overload is the value of a source
    that holds one; with a source that holds none nothing changes. *)
Definition GatedChangeLaw {D V : Type} `{Slot.SingleValueData D V}
  (inv : D -> Prop) (okcell : V -> Prop) (stored : D -> V) (counts : V -> bool)
  (better : V -> V -> bool)
  (op : D -> V -> bool * D) (op_from : D -> D -> bool * D) : Prop :=
  (forall s x, inv s -> okcell x ->
     (fst (op s x) = true <-> Slot.has s = false \/ better x (stored s) = true)
     /\ (fst (op s x) = true ->
         snd (op s x) = Slot.change s x /\ stored (snd (op s x)) = x
         /\ Slot.has (snd (op s x)) = counts x)
     /\ (fst (op s x) = false -> snd (op s x) = s)
     /\ (Slot.has s = true -> x = stored s -> op s x = (false, s)))
  /\ (forall s t, inv s -> inv t -> Slot.has t = true ->
     (fst (op_from s t) = true
      <-> Slot.has s = false \/ better (stored t) (stored s) = true)
     /\ (fst (op_from s t) = true ->
         snd (op_from s t) = Slot.change_from s t
         /\ stored (snd (op_from s t)) = stored t
         /\ Slot.has (snd (op_from s t)) = true)
     /\ (fst (op_from s t) = false -> snd (op_from s t) = s)
     /\ (Slot.has s = true -> stored t = stored s -> op_from s t = (false, s)))
  /\ (forall s t, inv s -> inv t -> Slot.has t = false -> op_from s t = (false, s)).

(** A string state that reports no value at its public interface. *)
Definition reports_no_value (s : Str.SingleValueDataString) : Prop :=
  Str.has s = false
  /\ (forall x, Str.isEqualTo s x = false)
  /\ (forall t, Str.isEqualTo_from s t = false)
  /\ Str.insertResultInto s = [].

(** Reading back, into the state [target], the bytes written for the state
    [s] (followed by whatever else the buffer holds) succeeds, consumes
    exactly these bytes, and yields a state that emits what [s] emits. *)
Definition RoundTrip {S V R : Type} (data : Data.Data S V R) (target s : S) : Prop :=
  forall rest, exists s',
    Agg.deserialize data target (Agg.serialize data s ++ rest) = Some (s', rest)
    /\ Agg.insertResultInto data s' = Agg.insertResultInto data s.

(** The round-trip law for one slot type: under min, max, any and anyLast,
    which serialize the slot alone, and under anyHeavy, which appends its
    counter. *)
Definition RoundTripLaw {D V : Type} `{Slot.SingleValueData D V}
  (oktarget okstate : D -> Prop) : Prop :=
  (forall data,
     In data [AggregateFunctionMinData; AggregateFunctionMaxData;
              AggregateFunctionAnyData; AggregateFunctionAnyLastData] ->
     forall target s, oktarget target -> okstate s -> RoundTrip data target s)
  /\ (forall target s,
        oktarget (AnyHeavy.base target) -> okstate (AnyHeavy.base s) ->
        0 <= AnyHeavy.counter s < 2 ^ 64 ->
        RoundTrip AnyHeavy.data target s).

(* ------------------------------------------------------------------ *)
(** ** Vocabulary of the further properties                            *)
(* ------------------------------------------------------------------ *)

(** [equal] decides the equality of the values, as [==] does on the integers
    and does not on the floating-point numbers. *)
Definition DecidesEq {A : Type} (equal : A -> A -> bool) : Prop :=
  forall a b, equal a b = true <-> a = b.

(** How [isEqualTo] of a slot type reads on stored values. *)
Record SlotEq {D V : Type} `{Slot.SingleValueData D V}
  (inv : D -> Prop) (stored : D -> V) : Prop := {
  e_row : forall s x, inv s ->
    (Slot.isEqualTo s x = true <-> Slot.has s = true /\ stored s = x);
  e_from : forall s t, inv s -> inv t -> Slot.has t = true ->
    (Slot.isEqualTo_from s t = true <-> Slot.has s = true /\ stored s = stored t)
}.

(** The rows equal to [m] counted [+1] and all the others counted [-1]:
    positive exactly when [m] makes up more than half of the rows. *)
Fixpoint excess {V : Type} (equal : V -> V -> bool) (m : V) (rows : list V) : Z :=
  match rows with
  | [] => 0
  | x :: rest => (if equal x m then 1 else -1) + excess equal m rest
  end.

(** [m] is in more than half of the rows. *)
Definition majority {V : Type} (equal : V -> V -> bool) (m : V) (rows : list V)
  : Prop :=
  0 < excess equal m rows.

(** The rows of a batch that [addBatchSinglePlace] passes to [add]. *)
Definition flagged {V : Type} (rows : list V) (flags : option (list bool))
  : list V :=
  match flags with
  | Some fl => map fst (filter snd (combine rows fl))
  | None => rows
  end.

(** The rows of a batch that [addBatchSinglePlaceNotNull] passes to [add]. *)
Definition flagged_not_null {V : Type} (rows : list V) (null_map : list bool)
  (flags : option (list bool)) : list V :=
  map (fun r => fst (fst r))
    (filter (fun r => negb (snd (fst r)) && snd r)
       (combine (combine rows null_map)
          (match flags with
           | Some fl => fl
           | None => repeat true (length rows)
           end))).

(** Partial states, each a state fed with its part of the rows, merged one
    after the other into the state [place]. *)
Definition mergeAll {S V R : Type} (data : Data.Data S V R) (place : S)
  (parts : list (S * list V)) : S :=
  fold_left (fun acc part => Agg.merge data acc (Agg.addRows data (fst part) (snd part)))
    parts place.

Definition all_rows {S V : Type} (parts : list (S * list V)) : list V :=
  concat (map snd parts).

(** The anyHeavy state holds [m]. *)
Definition holds {D V : Type} `{Slot.SingleValueData D V} (stored : D -> V)
  (m : V) (s : AnyHeavy.State D) : Prop :=
  Slot.has (AnyHeavy.base s) = true /\ stored (AnyHeavy.base s) = m.

(** The bound that the counter of anyHeavy keeps on the excess [e] of [m]
    among the rows seen so far. *)
Definition vote_bound {D V : Type} `{Slot.SingleValueData D V} (stored : D -> V)
  (m : V) (s : AnyHeavy.State D) (e : Z) : Prop :=
  (holds stored m s -> e <= AnyHeavy.counter s)
  /\ (~ holds stored m s -> e <= - AnyHeavy.counter s).

(** The majority vote of anyHeavy, for one slot type: a state that is created
    and then fed rows of which more than half are [m] emits [m]. *)
Definition MajorityLaw {D V : Type} `{Slot.SingleValueData D V}
  (equal : V -> V -> bool) (empty : D -> Prop) (row_ok : V -> Prop)
  (emit : V -> V) : Prop :=
  forall (d0 : D) (rows : list V) (m : V),
    empty d0 -> Forall row_ok rows -> Z.of_nat (length rows) < 2 ^ 64 ->
    majority equal m rows ->
    Agg.insertResultInto AnyHeavy.data
      (Agg.addRows AnyHeavy.data (AnyHeavy.create d0) rows)
    = emit m.

(** The same across partial states: when [m] is in more than half of the rows
    of every part, the created states fed with the parts and merged one after
    the other into a created state emit [m]. *)
Definition MajorityMergeLaw {D V : Type} `{Slot.SingleValueData D V}
  (equal : V -> V -> bool) (empty : D -> Prop) (row_ok : V -> Prop)
  (emit : V -> V) : Prop :=
  forall (d0 : D) (parts : list (D * list V)) (m : V),
    empty d0 -> parts <> [] ->
    Forall (fun part =>
              empty (fst part) /\ Forall row_ok (snd part)
              /\ Z.of_nat (length (snd part)) < 2 ^ 64
              /\ majority equal m (snd part)) parts ->
    Agg.insertResultInto AnyHeavy.data
      (mergeAll AnyHeavy.data (AnyHeavy.create d0)
         (map (fun part => (AnyHeavy.create (fst part), snd part)) parts))
    = emit m.

(** What any and anyLast emit, for one slot type: any emits the first row
    and never changes a state that holds a value; anyLast emits the last
    row, whatever the state held before. *)
Definition FirstLastLaw {D V : Type} `{Slot.SingleValueData D V}
  (ok : D -> Prop) (row_ok : V -> Prop) (emit : V -> V) (default : V) : Prop :=
  (forall (s0 : D) (rows : list V),
     ok s0 -> Slot.has s0 = false -> Forall row_ok rows ->
     Agg.insertResultInto AggregateFunctionAnyData
       (Agg.addRows AggregateFunctionAnyData s0 rows)
     = match rows with [] => default | x :: _ => emit x end)
  /\ (forall (s : D) (rows : list V),
        Slot.has s = true -> Agg.addRows AggregateFunctionAnyData s rows = s)
  /\ (forall (s : D) (rows : list V),
        ok s -> Forall row_ok rows -> rows <> [] ->
        Agg.insertResultInto AggregateFunctionAnyLastData
          (Agg.addRows AggregateFunctionAnyLastData s rows)
        = emit (last rows default)).

(** Merging partial states one after the other, for one slot type: the
    states fed with the parts and merged in order into an empty state emit
    what one empty state fed with all the rows, part after part, emits. *)
Definition ChainMergeLaw {D V : Type} `{Slot.SingleValueData D V}
  (empty : D -> Prop) (row_ok : V -> Prop) : Prop :=
  forall data,
    In data [AggregateFunctionMinData; AggregateFunctionMaxData;
             AggregateFunctionAnyData; AggregateFunctionAnyLastData] ->
    forall (place s0 : D) (parts : list (D * list V)),
      empty place -> empty s0 ->
      Forall (fun part => empty (fst part) /\ Forall row_ok (snd part)) parts ->
      Agg.insertResultInto data (mergeAll data place parts)
      = Agg.insertResultInto data (Agg.addRows data s0 (all_rows parts)).


(** What singleValueOrNull makes of the rows, for one slot type: a created
    state fed with rows emits the first row when all the rows are equal, and
    NULL when there is no row or when two rows differ. *)
Definition OrNullRowsLaw {D V : Type} `{Slot.SingleValueData D V}
  (equal : V -> V -> bool) (ok : D -> Prop) (row_ok : V -> Prop)
  (emit : V -> V) : Prop :=
  forall (d0 : D) (rows : list V),
    ok d0 -> Forall row_ok rows ->
    Agg.insertResultInto OrNull.data
      (Agg.addRows OrNull.data (OrNull.create d0) rows)
    = match rows with
      | [] => None
      | x :: rest =>
          if forallb (fun y => equal y x) rest then Some (emit x) else None
      end.


(** [addManyDefaults], for one slot type.  Min, max, any, anyLast and
    singleValueOrNull ignore [length] and apply the default row once.  The
    first four emit what the row added [length] times gives when [length] is
    at least one, and what the row added once gives when it is zero;
    singleValueOrNull reaches the very state of these additions when the row
    counts as a value once stored.  anyHeavy adds the row [length] times. *)
Definition ManyDefaultsLaw {D V : Type} `{Slot.SingleValueData D V}
  (ok : D -> Prop) (row_ok counted : V -> Prop) : Prop :=
  (forall data,
     In data [AggregateFunctionMinData; AggregateFunctionMaxData;
              AggregateFunctionAnyData; AggregateFunctionAnyLastData] ->
     forall (s : D) (x : V) (length : nat),
       ok s -> row_ok x ->
       Agg.insertResultInto data (Agg.addManyDefaults data s x length)
       = Agg.insertResultInto data
           (Agg.addRows data s (repeat x (Nat.max 1 length))))
  /\ (forall (s : OrNull.State D) (x : V) (length : nat),
        ok (OrNull.base s) -> row_ok x -> counted x ->
        Agg.addManyDefaults OrNull.data s x length
        = Agg.addRows OrNull.data s (repeat x (Nat.max 1 length)))
  /\ (forall (s : AnyHeavy.State D) (x : V) (length : nat),
        Agg.addManyDefaults AnyHeavy.data s x length
        = Agg.addRows AnyHeavy.data s (repeat x length)).

(** The batch loops under any, for one slot type: the state ends as if the
    rows that the flags select (and the null map does not exclude) had been
    added one by one. *)
Definition AnyBatchLaw {D V : Type} `{Slot.SingleValueData D V}
  (ok : D -> Prop) (row_ok : V -> Prop) : Prop :=
  forall (place : D) (rows : list V) (null_map : list bool)
         (flags : option (list bool)),
    ok place -> Forall row_ok rows ->
    length null_map = length rows ->
    (forall fl, flags = Some fl -> length fl = length rows) ->
    Agg.addBatchSinglePlace AggregateFunctionAnyData place rows flags
    = Agg.addRows AggregateFunctionAnyData place (flagged rows flags)
    /\ Agg.addBatchSinglePlaceNotNull AggregateFunctionAnyData place rows
         null_map flags
       = Agg.addRows AggregateFunctionAnyData place
           (flagged_not_null rows null_map flags).


(** The layout of a string state: the inline buffer has its
    [MAX_SMALL_STRING_SIZE] bytes, the overflow buffer is a block of
    [capacity] bytes, [capacity] is zero or a power of two, and a size that
    the inline buffer cannot take fits the overflow buffer. *)
Definition string_layout (s : Str.SingleValueDataString) : Prop :=
  Z.of_nat (length (Str.small_data s)) = Str.MAX_SMALL_STRING_SIZE
  /\ Z.of_nat (length (Str.large_data s)) = Str.capacity s
  /\ (Str.capacity s = 0 \/ exists k, 0 <= k <= 30 /\ Str.capacity s = 2 ^ k)
  /\ Str.size s < 2 ^ 31
  /\ (Str.MAX_SMALL_STRING_SIZE < Str.size s -> Str.size s <= Str.capacity s).


(** A cell of at most 2^30 bytes: the sizes for which the overflow block of
    a string state is allocated with a capacity that is a power of two. *)
Definition cell_small (x : Buffer) : Prop := Z.of_nat (length x) <= 2 ^ 30.

(** A string state as the code builds it: in its layout, and holding at most
    2^30 bytes. *)
Definition string_ok (s : Str.SingleValueDataString) : Prop :=
  string_layout s /\ Str.size s <= 2 ^ 30.

(** The bytes that a string state writes after the length: the stored bytes
    ending in a zero byte, which is appended unless it is there already; one
    zero byte for a state that holds no value. *)
Definition string_wire_body (s : Str.SingleValueDataString) : Buffer :=
  if Str.has s then
    if Byte.eqb (last (StrInv.content s) x00) x00 then StrInv.content s
    else StrInv.content s ++ [x00]
  else [x00].


(** The rows that a selector selects, in its order. *)
Definition elements (s : detail.Selector) : list Z :=
  match detail.data s with
  | detail.Data_Range (first, second) =>
      map (fun i => to_UInt64 (first + Z.of_nat i))
        (seq 0 (Z.to_nat (to_UInt64 (second - first))))
  | detail.Data_Selector selector => selector
  end.

(** Row numbers: a [size_t] below its largest value. *)
Definition row_number (x : Z) : Prop := 0 <= x < 2 ^ 64 - 1.

(** Row numbers in strictly increasing order, as [IColumn::scatter] and
    [copy_if] over such a sequence produce them. *)
Fixpoint increasing (l : list Z) : Prop :=
  match l with
  | [] => True
  | x :: rest => row_number x /\ Forall (fun y => x < y) rest /\ increasing rest
  end.

(** A selector in order: a range with [first <= second], or increasing row
    numbers. *)
Definition selector_ok (s : detail.Selector) : Prop :=
  match detail.data s with
  | detail.Data_Range (first, second) => 0 <= first <= second /\ second < 2 ^ 64
  | detail.Data_Selector selector => increasing selector
  end.


(** Min and max emit a best row, for one slot type: the result of an empty
    state fed with at least one row is one of the rows, and no row is less
    (greater) than it. *)
Definition MinMaxBestLaw {D V : Type} `{Slot.SingleValueData D V}
  (less greater : V -> V -> bool) (empty : D -> Prop) (row_ok : V -> Prop) : Prop :=
  forall (s0 : D) (rows : list V),
    empty s0 -> Forall row_ok rows -> rows <> [] ->
    is_best less rows
      (Agg.insertResultInto AggregateFunctionMinData
         (Agg.addRows AggregateFunctionMinData s0 rows))
    /\ is_best greater rows
         (Agg.insertResultInto AggregateFunctionMaxData
            (Agg.addRows AggregateFunctionMaxData s0 rows)).


(* ------------------------------------------------------------------ *)
(** ** Lemmas on the binary encoding                                   *)
(* ------------------------------------------------------------------ *)

Lemma Z_of_byte_of_Z (z : Z) : 0 <= z < 256 -> Z_of_byte (byte_of_Z z) = z.
Proof.
  intros Hz. unfold Z_of_byte, byte_of_Z.
  destruct (Byte.of_N (Z.to_N z)) as [b|] eqn:E.
  - apply Byte.to_of_N in E. rewrite E. lia.
  - apply Byte.of_N_None_iff in E. lia.
Qed.

Lemma Z_of_byte_range (b : byte) : 0 <= Z_of_byte b < 256.
Proof.
  unfold Z_of_byte. pose proof (Byte.to_N_bounded b). lia.
Qed.

Lemma length_le_bytes (n : nat) (z : Z) : length (le_bytes n z) = n.
Proof. revert z. induction n as [|n IH]; intros z; simpl; [reflexivity|]. now rewrite IH. Qed.

Lemma le_value_le_bytes (n : nat) (z : Z) :
  le_value (le_bytes n z) = z mod 256 ^ Z.of_nat n.
Proof.
  revert z. induction n as [|n IH]; intros z.
  - simpl. now rewrite Z.mod_1_r.
  - cbn [le_bytes le_value]. rewrite IH.
    rewrite Z_of_byte_of_Z by (apply Z.mod_pos_bound; lia).
    rewrite Nat2Z.inj_succ, Z.pow_succ_r by lia.
    rewrite Z.rem_mul_r by lia. reflexivity.
Qed.

Lemma to_signed_of_range (w z : Z) :
  0 < w -> - 2 ^ (w - 1) <= z < 2 ^ (w - 1) -> to_signed w (z mod 2 ^ w) = z.
Proof.
  intros Hw Hz. unfold to_signed.
  assert (Hp : 2 ^ w = 2 * 2 ^ (w - 1)).
  { replace w with (Z.succ (w - 1)) at 1 by lia. apply Z.pow_succ_r. lia. }
  rewrite Z.mod_mod by lia.
  destruct (Z.ltb_spec z 0) as [Hneg|Hpos].
  - replace (z mod 2 ^ w) with (z + 2 ^ w).
    + destruct (Z.ltb_spec (z + 2 ^ w) (2 ^ (w - 1))); lia.
    + apply Z.mod_unique with (q := -1); lia.
  - rewrite Z.mod_small by lia.
    destruct (Z.ltb_spec z (2 ^ (w - 1))); lia.
Qed.

Lemma readStrict_app (bs rest : Buffer) :
  readStrict (length bs) (bs ++ rest) = Some (bs, rest).
Proof.
  unfold readStrict.
  destruct (Nat.ltb_spec (length (bs ++ rest)) (length bs)) as [Hlt|_].
  - rewrite length_app in Hlt. lia.
  - rewrite firstn_app, Nat.sub_diag, firstn_all, firstn_O, app_nil_r.
    rewrite skipn_app, Nat.sub_diag, skipn_all. reflexivity.
Qed.

Lemma readStrict_le_bytes (n : nat) (z : Z) (rest : Buffer) :
  readStrict n (le_bytes n z ++ rest) = Some (le_bytes n z, rest).
Proof.
  rewrite <- (length_le_bytes n z) at 1. apply readStrict_app.
Qed.

Lemma readBinary_writeBinary_Int32 (x : Z) (rest : Buffer) :
  - 2 ^ 31 <= x < 2 ^ 31 ->
  readBinary_Int32 (writeBinary_Int32 x ++ rest) = Some (x, rest).
Proof.
  intros Hx. unfold readBinary_Int32, writeBinary_Int32.
  rewrite readStrict_le_bytes, le_value_le_bytes.
  unfold to_Int32. change (256 ^ Z.of_nat 4) with (2 ^ 32).
  rewrite to_signed_of_range; [reflexivity | lia | exact Hx].
Qed.

Lemma readBinary_writeBinary_UInt64 (x : Z) (rest : Buffer) :
  0 <= x < 2 ^ 64 ->
  readBinary_UInt64 (writeBinary_UInt64 x ++ rest) = Some (x, rest).
Proof.
  intros Hx. unfold readBinary_UInt64, writeBinary_UInt64.
  rewrite readStrict_le_bytes, le_value_le_bytes.
  change (256 ^ Z.of_nat 8) with (2 ^ 64). now rewrite Z.mod_small.
Qed.

Lemma readBinary_writeBinary_bool (b : bool) (rest : Buffer) :
  readBinary_bool (writeBinary_bool b ++ rest) = Some (b, rest).
Proof. destruct b; reflexivity. Qed.

Lemma Int64_wire : WireRoundTrip Int64_range T_writeBinary T_readBinary.
Proof.
  intros v rest Hv. cbn [T_writeBinary T_readBinary Int64_FixedType].
  rewrite readStrict_le_bytes, le_value_le_bytes.
  change (256 ^ Z.of_nat 8) with (2 ^ 64).
  rewrite to_signed_of_range; [reflexivity | lia | exact Hv].
Qed.

Lemma Int64_order : TotalOrder (A := Z) T_less T_greater T_equal.
Proof.
  split; cbn [T_less T_greater T_equal Int64_FixedType]; intros.
  - apply Z.eqb_eq.
  - rewrite Z.gtb_ltb. reflexivity.
  - apply Z.ltb_irrefl.
  - apply Z.ltb_lt. apply Z.ltb_lt in H, H0. lia.
  - apply Z.ltb_ge in H, H0. lia.
Qed.

(* ------------------------------------------------------------------ *)
(** ** Batches                                                         *)
(* ------------------------------------------------------------------ *)

Lemma addBatchSinglePlace_addRows {S V R : Type} (data : Data.Data S V R)
  (place : S) (rows : list V) :
  Data.is_any data = false ->
  Agg.addBatchSinglePlace data place rows None = Agg.addRows data place rows.
Proof.
  intros Hany. unfold Agg.addBatchSinglePlace, Agg.addRows. rewrite Hany.
  cbn [andb]. revert place.
  induction rows as [|x rows IH]; intros place; [reflexivity|].
  cbn [map Agg.addBatchLoop fold_left]. rewrite Hany. apply IH.
Qed.

(* ------------------------------------------------------------------ *)
(** ** The order of string cells                                       *)
(* ------------------------------------------------------------------ *)

Lemma byte_to_N_inj (x y : byte) : Byte.to_N x = Byte.to_N y -> x = y.
Proof.
  intros E. pose proof (Byte.of_to_N x) as Hx. pose proof (Byte.of_to_N y) as Hy.
  rewrite E in Hx. congruence.
Qed.

Lemma byte_eqb_spec (x y : byte) : Byte.eqb x y = true <-> x = y.
Proof.
  split; [apply Byte.byte_dec_bl | apply Byte.byte_dec_lb].
Qed.

Lemma bytes_eqb_spec (a b : Buffer) : StringRef.bytes_eqb a b = true <-> a = b.
Proof.
  revert b. induction a as [|x a IH]; intros [|y b]; simpl; try (split; congruence).
  rewrite andb_true_iff, byte_eqb_spec, IH. split.
  - intros [-> ->]. reflexivity.
  - intros E. inversion E. auto.
Qed.

Lemma lex_compare_eq (a b : Buffer) : lex_compare a b = Eq <-> a = b.
Proof.
  revert b. induction a as [|x a IH]; intros [|y b]; simpl; try (split; congruence).
  destruct (N.compare_spec (Byte.to_N x) (Byte.to_N y)) as [E|L|G].
  - apply byte_to_N_inj in E. subst y. rewrite IH. split; congruence.
  - split; [discriminate|]. intros E. inversion E. subst. lia.
  - split; [discriminate|]. intros E. inversion E. subst. lia.
Qed.

Lemma lex_compare_antisym (a b : Buffer) :
  lex_compare b a = CompOpp (lex_compare a b).
Proof.
  revert b. induction a as [|x a IH]; intros [|y b]; simpl; try reflexivity.
  rewrite (N.compare_antisym (Byte.to_N x) (Byte.to_N y)).
  destruct (N.compare (Byte.to_N x) (Byte.to_N y)); simpl; auto.
Qed.

Lemma lex_compare_trans (a b c : Buffer) :
  lex_compare a b = Lt -> lex_compare b c = Lt -> lex_compare a c = Lt.
Proof.
  revert b c. induction a as [|x a IH]; intros [|y b] [|z c]; simpl;
    try congruence.
  destruct (N.compare_spec (Byte.to_N x) (Byte.to_N y)) as [E1|L1|G1];
    destruct (N.compare_spec (Byte.to_N y) (Byte.to_N z)) as [E2|L2|G2];
    try discriminate; intros H1 H2.
  - rewrite E1, E2, N.compare_refl. eauto.
  - rewrite E1. now apply N.compare_lt_iff in L2 as ->.
  - rewrite <- E2. now apply N.compare_lt_iff in L1 as ->.
  - assert (L : (Byte.to_N x < Byte.to_N z)%N) by lia.
    now apply N.compare_lt_iff in L as ->.
Qed.

(** What [operator<], [operator>] and [operator==] compute on two cells. *)
Lemma memcmp_cells (a b : Buffer) :
  match StringRef.memcmp a b (Z.min (Z.of_nat (length a)) (Z.of_nat (length b))) with
  | Eq => Nat.compare (length a) (length b)
  | c => c
  end = lex_compare a b.
Proof.
  unfold StringRef.memcmp.
  replace (Z.to_nat (Z.min (Z.of_nat (length a)) (Z.of_nat (length b))))
    with (Nat.min (length a) (length b)) by lia.
  revert b. induction a as [|x a IH]; intros [|y b]; simpl; try reflexivity.
  destruct (N.compare (Byte.to_N x) (Byte.to_N y)); auto.
Qed.

Lemma cell_less_lex (a b : Buffer) :
  cell_less a b = match lex_compare a b with Lt => true | _ => false end.
Proof.
  rewrite <- memcmp_cells. unfold cell_less, StringRef.less, StringRef.of_cell.
  cbn [StringRef.data StringRef.size].
  destruct (StringRef.memcmp _ _ _); try reflexivity.
  destruct (Nat.compare_spec (length a) (length b));
    destruct (Z.ltb_spec (Z.of_nat (length a)) (Z.of_nat (length b))); auto; lia.
Qed.

Lemma cell_greater_lex (a b : Buffer) :
  cell_greater a b = match lex_compare a b with Gt => true | _ => false end.
Proof.
  rewrite <- memcmp_cells. unfold cell_greater, StringRef.greater, StringRef.of_cell.
  cbn [StringRef.data StringRef.size].
  destruct (StringRef.memcmp _ _ _); try reflexivity.
  rewrite Z.gtb_ltb.
  destruct (Nat.compare_spec (length a) (length b));
    destruct (Z.ltb_spec (Z.of_nat (length b)) (Z.of_nat (length a))); auto; lia.
Qed.

Lemma cell_equal_spec (a b : Buffer) : cell_equal a b = true <-> a = b.
Proof.
  unfold cell_equal, StringRef.equal, StringRef.bytes, StringRef.of_cell.
  cbn [StringRef.data StringRef.size].
  rewrite !Nat2Z.id, !firstn_all, andb_true_iff, bytes_eqb_spec, Z.eqb_eq.
  split; [tauto|]. intros ->. auto.
Qed.

Lemma cell_order : TotalOrder cell_less cell_greater cell_equal.
Proof.
  split.
  - apply cell_equal_spec.
  - intros a b. rewrite cell_greater_lex, cell_less_lex, (lex_compare_antisym a b).
    destruct (lex_compare a b); reflexivity.
  - intros a. rewrite cell_less_lex.
    now replace (lex_compare a a) with Eq by (symmetry; now apply lex_compare_eq).
  - intros a b c. rewrite !cell_less_lex.
    destruct (lex_compare a b) eqn:E1; try discriminate.
    destruct (lex_compare b c) eqn:E2; try discriminate.
    now rewrite (lex_compare_trans a b c E1 E2).
  - intros a b. rewrite !cell_less_lex, (lex_compare_antisym a b).
    destruct (lex_compare a b) eqn:E; simpl; try discriminate.
    intros _ _. now apply lex_compare_eq.
Qed.

(* ------------------------------------------------------------------ *)
(** ** SingleValueDataString: the invariant and what the state holds   *)
(* ------------------------------------------------------------------ *)

Lemma firstn_prefix {A} (n : nat) (a b : list A) :
  (n <= length a)%nat -> firstn n (firstn n a ++ b) = firstn n a.
Proof.
  intros Hn. rewrite firstn_app, length_firstn.
  replace (n - Nat.min n (length a))%nat with O by lia.
  rewrite firstn_O, app_nil_r, firstn_firstn. f_equal. lia.
Qed.

Lemma last_firstn {A} (n : nat) (l : list A) (d : A) :
  (1 <= n <= length l)%nat -> last (firstn n l) d = nth (n - 1) l d.
Proof.
  revert l. induction n as [|n IH]; intros l Hn; [lia|].
  destruct l as [|x l]; [simpl in Hn; lia|].
  destruct n as [|n].
  - destruct l; reflexivity.
  - simpl in Hn. specialize (IH l ltac:(lia)).
    replace (S (S n) - 1)%nat with (S n) by lia.
    replace (S n - 1)%nat with n in IH by lia.
    cbn [nth]. rewrite <- IH.
    destruct l as [|y l]; [simpl in Hn; lia|]. reflexivity.
Qed.

Lemma to_Int32_small (z : Z) : - 2 ^ 31 <= z < 2 ^ 31 -> to_Int32 z = z.
Proof.
  intros Hz. unfold to_Int32, to_signed.
  destruct (Z.ltb_spec z 0).
  - replace (z mod 2 ^ 32) with (z + 2 ^ 32)
      by (apply Z.mod_unique with (q := -1); lia).
    destruct (Z.ltb_spec (z + 2 ^ 32) (2 ^ (32 - 1))); lia.
  - rewrite Z.mod_small by lia.
    destruct (Z.ltb_spec z (2 ^ (32 - 1))); lia.
Qed.

Lemma to_UInt64_small (z : Z) : 0 <= z < 2 ^ 64 -> to_UInt64 z = z.
Proof. intros Hz. unfold to_UInt64. now apply Z.mod_small. Qed.

Module StrFacts.
Import Str StrInv.

Lemma proper_of_cell (x : Buffer) : proper (StringRef.of_cell x).
Proof. unfold proper, StringRef.of_cell. simpl. lia. Qed.

Lemma bytes_of_cell (x : Buffer) : StringRef.bytes (StringRef.of_cell x) = x.
Proof.
  unfold StringRef.bytes, StringRef.of_cell. simpl.
  now rewrite Nat2Z.id, firstn_all.
Qed.

Lemma length_bytes (r : StringRef.StringRef) :
  proper r -> Z.of_nat (length (StringRef.bytes r)) = StringRef.size r.
Proof.
  unfold proper, StringRef.bytes. intros Hr. rewrite length_firstn. lia.
Qed.

Lemma memcmp_bytes (l r : StringRef.StringRef) :
  proper l -> proper r ->
  StringRef.memcmp (StringRef.data l) (StringRef.data r)
    (Z.min (StringRef.size l) (StringRef.size r))
  = StringRef.memcmp (StringRef.bytes l) (StringRef.bytes r)
      (Z.min (Z.of_nat (length (StringRef.bytes l)))
             (Z.of_nat (length (StringRef.bytes r)))).
Proof.
  intros Hl Hr. rewrite !length_bytes by assumption.
  unfold StringRef.memcmp, StringRef.bytes. rewrite !firstn_firstn.
  unfold proper in *. f_equal; f_equal; lia.
Qed.

Lemma less_bytes (l r : StringRef.StringRef) :
  proper l -> proper r ->
  StringRef.less l r = cell_less (StringRef.bytes l) (StringRef.bytes r).
Proof.
  intros Hl Hr. unfold cell_less, StringRef.less.
  rewrite (memcmp_bytes l r Hl Hr). unfold StringRef.of_cell.
  cbn [StringRef.data StringRef.size].
  now rewrite !length_bytes.
Qed.

Lemma greater_bytes (l r : StringRef.StringRef) :
  proper l -> proper r ->
  StringRef.greater l r = cell_greater (StringRef.bytes l) (StringRef.bytes r).
Proof.
  intros Hl Hr. unfold cell_greater, StringRef.greater.
  rewrite (memcmp_bytes l r Hl Hr). unfold StringRef.of_cell.
  cbn [StringRef.data StringRef.size].
  now rewrite !length_bytes.
Qed.

Lemma equal_bytes (l r : StringRef.StringRef) :
  proper l -> proper r ->
  StringRef.equal l r = cell_equal (StringRef.bytes l) (StringRef.bytes r).
Proof.
  intros Hl Hr. unfold cell_equal, StringRef.equal.
  rewrite !bytes_of_cell. unfold StringRef.of_cell.
  cbn [StringRef.data StringRef.size].
  now rewrite !length_bytes.
Qed.

Lemma has_size (s : SingleValueDataString) : has s = true <-> 1 <= size s.
Proof. unfold has. rewrite Z.geb_le. reflexivity. Qed.

Lemma has_false_size (s : SingleValueDataString) : has s = false <-> size s < 1.
Proof.
  unfold has. destruct (Z.geb_spec (size s) 1); split; intros; try lia; congruence.
Qed.

Lemma proper_getStringRef (s : SingleValueDataString) :
  wf s -> has s = true -> proper (getStringRef s).
Proof.
  intros [Hr Hl] Hh%has_size. unfold proper, getStringRef.
  cbn [StringRef.data StringRef.size].
  rewrite to_UInt64_small by lia. lia.
Qed.

Lemma bytes_getStringRef (s : SingleValueDataString) :
  wf s -> has s = true -> StringRef.bytes (getStringRef s) = content s.
Proof.
  intros [Hr Hl] Hh%has_size. unfold StringRef.bytes, getStringRef, content.
  cbn [StringRef.data StringRef.size].
  now rewrite to_UInt64_small by lia.
Qed.

Lemma length_content (s : SingleValueDataString) :
  wf s -> 0 <= size s -> Z.of_nat (length (content s)) = size s.
Proof.
  intros [Hr Hl] H0. unfold content. rewrite length_firstn. lia.
Qed.

Lemma last_content (s : SingleValueDataString) :
  wf s -> has s = true -> at_ (getData s) (size s - 1) = last (content s) x00.
Proof.
  intros [Hr Hl] Hh%has_size. unfold at_, content.
  rewrite last_firstn by lia. f_equal. lia.
Qed.

(** [changeImpl] stores the bytes of a proper reference that fits an
    [Int32]. *)
Lemma changeImpl_stores (s : SingleValueDataString) (r : StringRef.StringRef) :
  proper r -> StringRef.size r < 2 ^ 31 ->
  let s' := changeImpl s r in
  wf s' /\ size s' = StringRef.size r /\ content s' = StringRef.bytes r.
Proof.
  intros Hp Hfit. unfold proper in Hp. unfold changeImpl.
  rewrite to_Int32_small by lia.
  set (n := StringRef.size r) in *.
  assert (Hn : (Z.to_nat n <= length (StringRef.data r))%nat) by lia.
  destruct (Z.leb_spec n MAX_SMALL_STRING_SIZE) as [Hsmall|Hlarge].
  - destruct (Z.gtb_spec n 0) as [Hpos|Hzero].
    + unfold wf, content, getData. cbn [size small_data large_data capacity].
      destruct (Z.leb_spec n MAX_SMALL_STRING_SIZE); [|lia].
      unfold memcpy, StringRef.bytes. fold n.
      repeat split; try lia.
      * rewrite length_app, length_firstn. lia.
      * now apply firstn_prefix.
    + assert (n = 0) by lia.
      unfold wf, content, getData. cbn [size small_data large_data capacity].
      destruct (Z.leb_spec n MAX_SMALL_STRING_SIZE); [|lia].
      unfold StringRef.bytes. fold n. replace (Z.to_nat n) with O by lia.
      repeat split; lia.
  - unfold wf, content, getData. cbn [size small_data large_data capacity].
    destruct (Z.leb_spec n MAX_SMALL_STRING_SIZE); [lia|].
    unfold memcpy, StringRef.bytes. fold n.
    repeat split; try lia.
    + rewrite length_app, length_firstn. lia.
    + now apply firstn_prefix.
Qed.

Lemma change_stores (s : SingleValueDataString) (x : Buffer) :
  cell_fits x ->
  wf (change s x) /\ size (change s x) = Z.of_nat (length x)
  /\ content (change s x) = x.
Proof.
  intros Hx. unfold change.
  destruct (changeImpl_stores s (StringRef.of_cell x)) as (Hw & Hs & Hc).
  - apply proper_of_cell.
  - exact Hx.
  - rewrite bytes_of_cell in Hc. auto.
Qed.

Lemma change_from_stores (s t : SingleValueDataString) :
  wf t -> has t = true ->
  wf (change_from s t) /\ size (change_from s t) = size t
  /\ content (change_from s t) = content t.
Proof.
  intros Hw Hh. unfold change_from.
  destruct (changeImpl_stores s (getStringRef t)) as (Hw' & Hs & Hc).
  - now apply proper_getStringRef.
  - destruct Hw as [Hr _]. apply has_size in Hh. unfold getStringRef.
    cbn [StringRef.size]. rewrite to_UInt64_small; lia.
  - rewrite bytes_getStringRef in Hc by assumption.
    split; [exact Hw'|]. split; [|exact Hc].
    rewrite Hs. destruct Hw as [Hr _]. apply has_size in Hh.
    unfold getStringRef. cbn [StringRef.size]. apply to_UInt64_small. lia.
Qed.

Lemma wf_create (junk : Buffer) : wf (create junk).
Proof. unfold wf, create. cbn [size]. lia. Qed.

(** [insertResultInto] in terms of the stored bytes. *)
Lemma insertResultInto_content (s : SingleValueDataString) :
  wf s -> insertResultInto s = if has s then strip (content s) else [].
Proof.
  intros Hw. unfold insertResultInto.
  destruct (has s) eqn:Hh; [|reflexivity].
  rewrite (last_content s Hw Hh). unfold strip.
  pose proof Hw as [Hr Hl]. pose proof (proj1 (has_size s) Hh) as H1.
  destruct (Byte.eqb (last (content s) x00) x00) eqn:E; cbn [negb].
  - rewrite to_UInt64_small by lia.
    destruct (Z.eqb_spec (size s - 1) 0) as [E1|E1]; cbn [negb].
    + unfold content. replace (Z.to_nat (size s)) with 1%nat by lia.
      destruct (getData s) as [|b [|b' l]]; reflexivity.
    + unfold content.
      replace (Z.to_nat (size s)) with (S (Z.to_nat (size s - 1))) by lia.
      rewrite removelast_firstn by lia. reflexivity.
  - rewrite to_UInt64_small by lia.
    destruct (Z.eqb_spec (size s) 0); [lia|]. reflexivity.
Qed.

Lemma strip_plain (c : Buffer) : cell_plain c -> strip c = c.
Proof.
  unfold cell_plain, strip. intros Hc.
  destruct (Byte.eqb (last c x00) x00) eqn:E; [|reflexivity].
  apply byte_eqb_spec in E. contradiction.
Qed.

Lemma strip_app_zero (c : Buffer) : strip (c ++ [x00]) = c.
Proof. unfold strip. now rewrite last_last, removelast_last. Qed.

End StrFacts.

(* ------------------------------------------------------------------ *)
(** ** The three slots as optional values                              *)
(* ------------------------------------------------------------------ *)

Lemma Fixed_model {T} `{FixedType T} :
  SlotModel (D := Fixed.SingleValueDataFixed T) T_less T_greater
    (fun _ => True) (fun _ => True) Fixed.value (fun _ => true)
    (fun v => v) T_default.
Proof.
  split; intros; try reflexivity; auto.
Qed.

Lemma Generic_model {F} `{FieldType F} :
  SlotModel (D := Generic.SingleValueDataGeneric F) Field_less Field_greater
    (fun _ => True) (fun _ => True) Generic.value
    (fun x => negb (Field_isNull x)) (fun v => v) column_default.
Proof.
  split; intros; try reflexivity; auto; cbn.
  - unfold Generic.changeIfLess, Generic.change.
    destruct (negb (Generic.has s)); cbn; reflexivity.
  - unfold Generic.changeIfGreater, Generic.change.
    destruct (negb (Generic.has s)); cbn; reflexivity.
Qed.

Lemma String_model :
  SlotModel (D := Str.SingleValueDataString) cell_less cell_greater
    StrInv.wf cell_fits StrInv.content
    (fun x => 1 <=? Z.of_nat (length x)) StrInv.strip [].
Proof.
  split; cbn [Slot.has Slot.insertResultInto Slot.change Slot.change_from
              Slot.changeFirstTime Slot.changeFirstTime_from
              Slot.changeEveryTime Slot.changeEveryTime_from
              Slot.changeIfLess Slot.changeIfLess_from
              Slot.changeIfGreater Slot.changeIfGreater_from
              SingleValueDataString_ops]; try reflexivity.
  - intros s Hw. now apply StrFacts.insertResultInto_content.
  - intros s Hw Hh. apply StrFacts.has_size in Hh.
    rewrite StrFacts.length_content by (auto; lia). now apply Z.leb_le.
  - intros s x _ Hx. destruct (StrFacts.change_stores s x Hx) as (Hw & Hs & Hc).
    repeat split; try apply Hw; auto.
    unfold Str.has. rewrite Hs.
    destruct (Z.geb_spec (Z.of_nat (length x)) 1);
      destruct (Z.leb_spec 1 (Z.of_nat (length x))); auto; lia.
  - intros s t _ Hw Hh.
    destruct (StrFacts.change_from_stores s t Hw Hh) as (Hw' & Hs & Hc).
    repeat split; try apply Hw'; auto.
    apply StrFacts.has_size. rewrite Hs. now apply StrFacts.has_size.
  - intros s Hw Hh. unfold cell_fits.
    apply StrFacts.has_size in Hh.
    rewrite StrFacts.length_content by (auto; lia). apply Hw.
  - intros s x Hw Hx. unfold Str.changeIfLess.
    destruct (Str.has s) eqn:Hh; cbn [negb orb]; [|reflexivity].
    rewrite StrFacts.less_bytes, StrFacts.bytes_of_cell, StrFacts.bytes_getStringRef;
      auto using StrFacts.proper_of_cell, StrFacts.proper_getStringRef.
  - intros s t Hs Ht. unfold Str.changeIfLess_from.
    destruct (Str.has t) eqn:Hht; cbn [andb]; [|reflexivity].
    destruct (Str.has s) eqn:Hhs; cbn [negb orb]; [|reflexivity].
    rewrite StrFacts.less_bytes, !StrFacts.bytes_getStringRef;
      auto using StrFacts.proper_getStringRef.
  - intros s x Hw Hx. unfold Str.changeIfGreater.
    destruct (Str.has s) eqn:Hh; cbn [negb orb]; [|reflexivity].
    rewrite StrFacts.greater_bytes, StrFacts.bytes_of_cell, StrFacts.bytes_getStringRef;
      auto using StrFacts.proper_of_cell, StrFacts.proper_getStringRef.
  - intros s t Hs Ht. unfold Str.changeIfGreater_from.
    destruct (Str.has t) eqn:Hht; cbn [andb]; [|reflexivity].
    destruct (Str.has s) eqn:Hhs; cbn [negb orb]; [|reflexivity].
    rewrite StrFacts.greater_bytes, !StrFacts.bytes_getStringRef;
      auto using StrFacts.proper_getStringRef.
Qed.

(* ------------------------------------------------------------------ *)
(** ** Strict total orders and best rows                               *)
(* ------------------------------------------------------------------ *)

Lemma TotalOrder_less {A} (less greater equal : A -> A -> bool) :
  TotalOrder less greater equal -> StrictTotal less.
Proof. intros [? ? ? ? ?]. split; assumption. Qed.

Lemma TotalOrder_greater {A} (less greater equal : A -> A -> bool) :
  TotalOrder less greater equal -> StrictTotal greater.
Proof.
  intros [He Hg Hi Ht Htot]. split.
  - intros a. now rewrite Hg.
  - intros a b c. rewrite !Hg. eauto.
  - intros a b. rewrite !Hg. intros H1 H2. symmetry. now apply Htot.
Qed.

Section Best.
Context {A : Type} (better : A -> A -> bool) (ST : StrictTotal better).

Lemma better_asym (a b : A) : better a b = true -> better b a = false.
Proof.
  intros Hab. destruct (better b a) eqn:Hba; [|reflexivity].
  pose proof (st_trans better ST a b a Hab Hba) as Haa.
  rewrite (st_irrefl better ST) in Haa. discriminate.
Qed.

(** "not better" is transitive. *)
Lemma not_better_trans (z b m : A) :
  better z b = false -> better b m = false -> better z m = false.
Proof.
  intros Hzb Hbm. destruct (better z m) eqn:Hzm; [|reflexivity].
  destruct (better b z) eqn:Hbz.
  - rewrite (st_trans better ST b z m Hbz Hzm) in Hbm. discriminate.
  - pose proof (st_total better ST z b Hzb Hbz). subst b. congruence.
Qed.

Lemma best2_cases (a b : A) : best2 better a b = a \/ best2 better a b = b.
Proof. unfold best2. destruct (better b a); auto. Qed.

Lemma best2_not_worse_l (a b : A) : better a (best2 better a b) = false.
Proof.
  unfold best2. destruct (better b a) eqn:E.
  - now apply better_asym.
  - apply (st_irrefl better ST).
Qed.

Lemma best2_not_worse_r (a b : A) : better b (best2 better a b) = false.
Proof.
  unfold best2. destruct (better b a) eqn:E.
  - apply (st_irrefl better ST).
  - exact E.
Qed.

Lemma is_best_unique (l : list A) (m m' : A) :
  is_best better l m -> is_best better l m' -> m = m'.
Proof.
  intros [Hin Hlow] [Hin' Hlow'].
  apply (st_total better ST); auto.
Qed.

Lemma fold_best2_is_best (xs : list A) (x : A) :
  is_best better (x :: xs) (fold_left (best2 better) xs x).
Proof.
  revert x. induction xs as [|y xs IH]; intros x.
  - split; [now left|]. intros z [<-|[]]. apply (st_irrefl better ST).
  - cbn [fold_left]. destruct (IH (best2 better x y)) as [Hin Hlow]. split.
    + destruct Hin as [Hm|Hm].
      * rewrite <- Hm. destruct (best2_cases x y) as [->| ->]; simpl; auto.
      * simpl. auto.
    + intros z Hz.
      assert (Hb : better (best2 better x y) (fold_left (best2 better) xs (best2 better x y)) = false)
        by (apply Hlow; now left).
      destruct Hz as [<-|[<-|Hz]].
      * eapply not_better_trans; [apply best2_not_worse_l | exact Hb].
      * eapply not_better_trans; [apply best2_not_worse_r | exact Hb].
      * apply Hlow. now right.
Qed.

Lemma ofold_best_is_best (l : list A) (m : A) :
  ofold_best better l = Some m -> is_best better l m.
Proof.
  destruct l as [|x xs]; [discriminate|]. cbn [ofold_best].
  intros [= <-]. apply fold_best2_is_best.
Qed.

Lemma ofold_best_none (l : list A) : ofold_best better l = None <-> l = [].
Proof. destruct l; simpl; split; congruence. Qed.

Lemma Split_In (l l1 l2 : list A) (x : A) :
  Split l l1 l2 -> (In x l <-> In x l1 \/ In x l2).
Proof.
  induction 1 as [|y l l1 l2 _ IH|y l l1 l2 _ IH]; simpl; tauto.
Qed.

Lemma Split_comm (l l1 l2 : list A) : Split l l1 l2 -> Split l l2 l1.
Proof. induction 1; constructor; assumption. Qed.

Lemma Split_nil_inv (l1 l2 : list A) : Split [] l1 l2 -> l1 = [] /\ l2 = [].
Proof. inversion 1. auto. Qed.

(** The best of the bests of the two parts is the best of the whole. *)
Lemma obest_split (l l1 l2 : list A) :
  Split l l1 l2 ->
  obest better (ofold_best better l1) (ofold_best better l2) = ofold_best better l.
Proof.
  intros HS.
  destruct (ofold_best better l) as [m|] eqn:El.
  - apply ofold_best_is_best in El.
    assert (Hgoal : forall m', obest better (ofold_best better l1) (ofold_best better l2) = Some m'
                               -> is_best better l m').
    { intros m' Hm'.
      destruct (ofold_best better l1) as [m1|] eqn:E1;
        destruct (ofold_best better l2) as [m2|] eqn:E2; cbn [obest] in Hm';
        try discriminate; injection Hm' as <-.
      - apply ofold_best_is_best in E1, E2.
        destruct E1 as [Hin1 Hlow1], E2 as [Hin2 Hlow2]. split.
        + apply (Split_In l l1 l2 _ HS).
          destruct (best2_cases m1 m2) as [->| ->]; auto.
        + intros x Hx. apply (Split_In l l1 l2 _ HS) in Hx as [Hx|Hx].
          * eapply not_better_trans; [apply Hlow1, Hx | apply best2_not_worse_l].
          * eapply not_better_trans; [apply Hlow2, Hx | apply best2_not_worse_r].
      - apply ofold_best_is_best in E1. apply ofold_best_none in E2. subst l2.
        destruct E1 as [Hin1 Hlow1]. split.
        + apply (Split_In l l1 [] _ HS). auto.
        + intros x Hx. apply (Split_In l l1 [] _ HS) in Hx as [Hx|[]]. auto.
      - apply ofold_best_is_best in E2. apply ofold_best_none in E1. subst l1.
        destruct E2 as [Hin2 Hlow2]. split.
        + apply (Split_In l [] l2 _ HS). auto.
        + intros x Hx. apply (Split_In l [] l2 _ HS) in Hx as [[]|Hx]. auto. }
    destruct (obest better (ofold_best better l1) (ofold_best better l2)) as [m'|] eqn:E.
    + f_equal. eapply is_best_unique; [apply Hgoal; reflexivity | exact El].
    + exfalso. destruct El as [Hin _].
      apply (Split_In l l1 l2 _ HS) in Hin.
      destruct (ofold_best better l1) eqn:E1; destruct (ofold_best better l2) eqn:E2;
        cbn [obest] in E; try discriminate.
      apply ofold_best_none in E1, E2. subst. destruct Hin as [[]|[]].
  - apply ofold_best_none in El. subst l.
    apply Split_nil_inv in HS as [-> ->]. reflexivity.
Qed.

End Best.

(* ------------------------------------------------------------------ *)
(** ** Min, max, any and anyLast over any modelled slot                *)
(* ------------------------------------------------------------------ *)

Section ModelFacts.
Context {D V : Type} `{Slot.SingleValueData D V}.
Variables (less greater : V -> V -> bool) (inv : D -> Prop) (okcell : V -> Prop)
  (stored : D -> V) (counts : V -> bool) (emit_some : V -> V) (emit_none : V).
Hypothesis M : SlotModel less greater inv okcell stored counts emit_some emit_none.

Lemma emit_view (s : D) :
  inv s ->
  Slot.insertResultInto s
  = match view stored s with Some v => emit_some v | None => emit_none end.
Proof.
  intros Hs. rewrite (m_emit _ _ _ _ _ _ _ _ M s Hs). unfold view.
  destruct (Slot.has s); reflexivity.
Qed.

Lemma view_change (s : D) (x : V) :
  inv s -> accepted okcell counts x -> inv (Slot.change s x) /\ view stored (Slot.change s x) = Some x.
Proof.
  intros Hs [Hx Hc].
  destruct (m_change _ _ _ _ _ _ _ _ M s x Hs Hx) as (Hi & Hst & Hh).
  split; [exact Hi|]. unfold view. now rewrite Hh, Hc, Hst.
Qed.

Lemma view_change_from (s t : D) (y : V) :
  inv s -> inv t -> view stored t = Some y ->
  inv (Slot.change_from s t) /\ view stored (Slot.change_from s t) = Some y.
Proof.
  intros Hs Ht Hv. unfold view in Hv.
  destruct (Slot.has t) eqn:Hh; [|discriminate]. injection Hv as <-.
  destruct (m_change_from _ _ _ _ _ _ _ _ M s t Hs Ht Hh) as (Hi & Hst & Hh').
  split; [exact Hi|]. unfold view. now rewrite Hh', Hst.
Qed.

(** A comparison-gated row rule and its merge rule, for [<] or for [>]. *)
Section Gated.
Variables (better : V -> V -> bool)
  (op : D -> V -> bool * D) (op_from : D -> D -> bool * D).
Hypothesis op_eq : forall s x, inv s -> okcell x ->
  op s x = if negb (Slot.has s) || better x (stored s)
           then (true, Slot.change s x) else (false, s).
Hypothesis op_from_eq : forall s t, inv s -> inv t ->
  op_from s t = if Slot.has t && (negb (Slot.has s) || better (stored t) (stored s))
                then (true, Slot.change_from s t) else (false, s).

Lemma gated_row (s : D) (x : V) :
  inv s -> accepted okcell counts x ->
  inv (snd (op s x))
  /\ view stored (snd (op s x)) = obest better (view stored s) (Some x).
Proof.
  intros Hs Hx. rewrite (op_eq s x Hs (proj1 Hx)).
  destruct (view_change s x Hs Hx) as [Hi Hv].
  unfold view at 2. destruct (Slot.has s) eqn:Hh; cbn [negb orb obest snd].
  - unfold best2. destruct (better x (stored s)); cbn [snd].
    + auto.
    + split; [exact Hs|]. unfold view. now rewrite Hh.
  - auto.
Qed.

Lemma gated_merge (s t : D) :
  inv s -> inv t ->
  inv (snd (op_from s t))
  /\ view stored (snd (op_from s t)) = obest better (view stored s) (view stored t).
Proof.
  intros Hs Ht. rewrite (op_from_eq s t Hs Ht).
  destruct (Slot.has t) eqn:Hht; cbn [andb].
  - assert (Hvt : view stored t = Some (stored t)) by (unfold view; now rewrite Hht).
    destruct (view_change_from s t _ Hs Ht Hvt) as [Hi Hv].
    rewrite Hvt. unfold view at 2.
    destruct (Slot.has s) eqn:Hhs; cbn [negb orb obest snd].
    + unfold best2. destruct (better (stored t) (stored s)); cbn [snd].
      * auto.
      * split; [exact Hs|]. unfold view. now rewrite Hhs.
    + auto.
  - cbn [snd]. split; [exact Hs|].
    assert (Hvt : view stored t = None) by (unfold view; now rewrite Hht).
    rewrite Hvt. destruct (view stored s); reflexivity.
Qed.

Lemma gated_rows_view (rows : list V) (s : D) :
  inv s -> Forall (accepted okcell counts) rows ->
  inv (fold_left (fun p x => snd (op p x)) rows s)
  /\ view stored (fold_left (fun p x => snd (op p x)) rows s)
     = fold_left (fun o x => obest better o (Some x)) rows (view stored s).
Proof.
  intros Hs Hrows. revert s Hs.
  induction Hrows as [|x rows Hx Hrows IH]; intros s Hs.
  - cbn. auto.
  - cbn [fold_left]. destruct (gated_row s x Hs Hx) as [Hi Hv].
    destruct (IH _ Hi) as [Hi' Hv']. split; [exact Hi'|].
    now rewrite Hv', Hv.
Qed.

Lemma fold_obest_some (xs : list V) (x : V) :
  fold_left (fun o y => obest better o (Some y)) xs (Some x)
  = Some (fold_left (best2 better) xs x).
Proof.
  revert x. induction xs as [|y xs IH]; intros x; [reflexivity|].
  cbn [fold_left obest]. apply IH.
Qed.

Lemma gated_rows (rows : list V) (s : D) :
  inv s -> Slot.has s = false -> Forall (accepted okcell counts) rows ->
  inv (fold_left (fun p x => snd (op p x)) rows s)
  /\ view stored (fold_left (fun p x => snd (op p x)) rows s)
     = ofold_best better rows.
Proof.
  intros Hs Hh Hrows.
  destruct (gated_rows_view rows s Hs Hrows) as [Hi Hv].
  split; [exact Hi|]. rewrite Hv. unfold view. rewrite Hh.
  destruct rows as [|x xs]; [reflexivity|]. cbn [fold_left obest ofold_best].
  apply fold_obest_some.
Qed.

(** One state fed with all the rows against two states fed with the two
    parts of a split and merged. *)
Lemma gated_split (ST : StrictTotal better) (rows p1 p2 : list V) (s0 s1 s2 : D) :
  Split rows p1 p2 -> Forall (accepted okcell counts) rows ->
  inv s0 -> Slot.has s0 = false ->
  inv s1 -> Slot.has s1 = false ->
  inv s2 -> Slot.has s2 = false ->
  let run := fold_left (fun p x => snd (op p x)) in
  Slot.insertResultInto (snd (op_from (run p1 s1) (run p2 s2)))
  = Slot.insertResultInto (run rows s0).
Proof.
  intros HS Hrows H0 E0 H1 E1 H2 E2 run.
  assert (Hp : Forall (accepted okcell counts) p1 /\ Forall (accepted okcell counts) p2).
  { rewrite !Forall_forall in *. split; intros x Hx; apply Hrows;
      apply (Split_In rows p1 p2 x HS); auto. }
  destruct Hp as [Hp1 Hp2].
  destruct (gated_rows rows s0 H0 E0 Hrows) as [Hi0 Hv0].
  destruct (gated_rows p1 s1 H1 E1 Hp1) as [Hi1 Hv1].
  destruct (gated_rows p2 s2 H2 E2 Hp2) as [Hi2 Hv2].
  destruct (gated_merge _ _ Hi1 Hi2) as [Him Hvm].
  unfold run. rewrite (emit_view _ Him), (emit_view _ Hi0), Hvm, Hv1, Hv2, Hv0.
  now rewrite (obest_split better ST rows p1 p2 HS).
Qed.

End Gated.

(** [changeFirstTime] and [changeEveryTime] on views. *)
Lemma first_row (s : D) (x : V) :
  inv s -> accepted okcell counts x ->
  inv (snd (Slot.changeFirstTime s x))
  /\ view stored (snd (Slot.changeFirstTime s x))
     = match view stored s with None => Some x | v => v end.
Proof.
  intros Hs Hx. rewrite (m_changeFirstTime _ _ _ _ _ _ _ _ M).
  destruct (view_change s x Hs Hx) as [Hi Hv].
  unfold view at 2. destruct (Slot.has s) eqn:Hh; cbn [negb snd].
  - split; [exact Hs|]. unfold view. now rewrite Hh.
  - auto.
Qed.

Lemma first_merge (s t : D) :
  inv s -> inv t ->
  inv (snd (Slot.changeFirstTime_from s t))
  /\ view stored (snd (Slot.changeFirstTime_from s t))
     = match view stored s with None => view stored t | v => v end.
Proof.
  intros Hs Ht. rewrite (m_changeFirstTime_from _ _ _ _ _ _ _ _ M).
  unfold view at 2. destruct (Slot.has s) eqn:Hhs; cbn [negb andb snd].
  - split; [exact Hs|]. unfold view. now rewrite Hhs.
  - destruct (Slot.has t) eqn:Hht; cbn [snd].
    + assert (Hvt : view stored t = Some (stored t)) by (unfold view; now rewrite Hht).
      rewrite Hvt. now apply view_change_from.
    + split; [exact Hs|]. unfold view. now rewrite Hhs, Hht.
Qed.

Lemma every_row (s : D) (x : V) :
  inv s -> accepted okcell counts x ->
  inv (snd (Slot.changeEveryTime s x))
  /\ view stored (snd (Slot.changeEveryTime s x)) = Some x.
Proof.
  intros Hs Hx. rewrite (m_changeEveryTime _ _ _ _ _ _ _ _ M). cbn [snd].
  now apply view_change.
Qed.

Lemma every_merge (s t : D) :
  inv s -> inv t ->
  inv (snd (Slot.changeEveryTime_from s t))
  /\ view stored (snd (Slot.changeEveryTime_from s t))
     = match view stored t with None => view stored s | v => v end.
Proof.
  intros Hs Ht. rewrite (m_changeEveryTime_from _ _ _ _ _ _ _ _ M).
  destruct (Slot.has t) eqn:Hht; cbn [snd].
  - assert (Hvt : view stored t = Some (stored t)) by (unfold view; now rewrite Hht).
    rewrite Hvt. now apply view_change_from.
  - split; [exact Hs|]. unfold view at 2. now rewrite Hht.
Qed.

Lemma first_rows (rows : list V) (s : D) :
  inv s -> Forall (accepted okcell counts) rows ->
  inv (fold_left (fun p x => snd (Slot.changeFirstTime p x)) rows s)
  /\ view stored (fold_left (fun p x => snd (Slot.changeFirstTime p x)) rows s)
     = match view stored s with None => hd_error rows | v => v end.
Proof.
  intros Hs Hrows. revert s Hs.
  induction Hrows as [|x rows Hx Hrows IH]; intros s Hs.
  - cbn. split; [exact Hs|]. destruct (view stored s); reflexivity.
  - cbn [fold_left hd_error]. destruct (first_row s x Hs Hx) as [Hi Hv].
    destruct (IH _ Hi) as [Hi' Hv']. split; [exact Hi'|].
    rewrite Hv', Hv. destruct (view stored s); reflexivity.
Qed.

Lemma every_rows (rows : list V) (s : D) :
  inv s -> Forall (accepted okcell counts) rows ->
  inv (fold_left (fun p x => snd (Slot.changeEveryTime p x)) rows s)
  /\ view stored (fold_left (fun p x => snd (Slot.changeEveryTime p x)) rows s)
     = match rows with [] => view stored s | _ => Some (last rows emit_none) end.
Proof.
  intros Hs Hrows. revert s Hs.
  induction Hrows as [|x rows Hx Hrows IH]; intros s Hs.
  - cbn. auto.
  - cbn [fold_left]. destruct (every_row s x Hs Hx) as [Hi Hv].
    destruct (IH _ Hi) as [Hi' Hv']. split; [exact Hi'|].
    rewrite Hv', Hv. destruct rows; reflexivity.
Qed.

Lemma has_view (s : D) :
  Slot.has s = match view stored s with Some _ => true | None => false end.
Proof. unfold view. destruct (Slot.has s); reflexivity. Qed.

End ModelFacts.

Section ModelLaws.
Context {D V : Type} `{Slot.SingleValueData D V}.
Variables (less greater : V -> V -> bool) (inv : D -> Prop) (okcell : V -> Prop)
  (stored : D -> V) (counts : V -> bool) (emit_some : V -> V) (emit_none : V).
Hypothesis M : SlotModel less greater inv okcell stored counts emit_some emit_none.

Lemma fold_best2_In (better : V -> V -> bool) (xs : list V) (x : V) :
  In (fold_left (best2 better) xs x) (x :: xs).
Proof.
  revert x. induction xs as [|y xs IH]; intros x; [now left|].
  cbn [fold_left]. destruct (IH (best2 better x y)) as [E|Hin].
  - rewrite <- E. unfold best2. destruct (better y x); simpl; auto.
  - simpl. auto.
Qed.

Lemma gated_emit (better : V -> V -> bool) (op : D -> V -> bool * D)
  (op_eq : forall s x, inv s -> okcell x ->
     op s x = if negb (Slot.has s) || better x (stored s)
              then (true, Slot.change s x) else (false, s))
  (rows : list V) (s0 : D) :
  inv s0 -> Slot.has s0 = false ->
  Forall (fun x => accepted okcell counts x /\ emit_some x = x) rows ->
  Slot.insertResultInto (fold_left (fun p x => snd (op p x)) rows s0)
  = fold_best better emit_none rows.
Proof.
  intros H0 E0 Hrows.
  assert (Hok : Forall (accepted okcell counts) rows)
    by (eapply Forall_impl; [|exact Hrows]; cbn; tauto).
  destruct (gated_rows less greater inv okcell stored counts emit_some emit_none M
              better op op_eq rows s0 H0 E0 Hok) as [Hi Hv].
  rewrite (emit_view less greater inv okcell stored counts emit_some emit_none M _ Hi), Hv.
  destruct rows as [|x xs]; [reflexivity|]. cbn [ofold_best fold_best].
  rewrite Forall_forall in Hrows. apply Hrows, fold_best2_In.
Qed.

Lemma model_min_max_fold :
  MinMaxFoldLaw less greater emit_none
    (fun s => inv s /\ Slot.has s = false)
    (fun x => accepted okcell counts x /\ emit_some x = x).
Proof.
  intros s0 rows [H0 E0] Hrows. split.
  - apply (gated_emit less Slot.changeIfLess
             (m_changeIfLess _ _ _ _ _ _ _ _ M) rows s0 H0 E0 Hrows).
  - apply (gated_emit greater Slot.changeIfGreater
             (m_changeIfGreater _ _ _ _ _ _ _ _ M) rows s0 H0 E0 Hrows).
Qed.

Lemma Split_Forall (P : V -> Prop) (rows p1 p2 : list V) :
  Split rows p1 p2 -> Forall P rows -> Forall P p1 /\ Forall P p2.
Proof.
  intros HS. rewrite !Forall_forall. intros Hrows.
  split; intros x Hx; apply Hrows; apply (Split_In rows p1 p2 x HS); auto.
Qed.

Lemma model_split_merge (equal : V -> V -> bool) :
  TotalOrder less greater equal ->
  SplitMergeLaw (fun s => inv s /\ Slot.has s = false) (accepted okcell counts).
Proof.
  intros TO rows p1 p2 s0 s1 s2 HS Hrows [H0 E0] [H1 E1] [H2 E2].
  destruct (Split_Forall _ rows p1 p2 HS Hrows) as [Hp1 Hp2].
  split; [|split; [|split; [|split]]].
  - apply (gated_split less greater inv okcell stored counts emit_some emit_none M
             less Slot.changeIfLess Slot.changeIfLess_from
             (m_changeIfLess _ _ _ _ _ _ _ _ M) (m_changeIfLess_from _ _ _ _ _ _ _ _ M)
             (TotalOrder_less _ _ _ TO) rows p1 p2 s0 s1 s2); assumption.
  - apply (gated_split less greater inv okcell stored counts emit_some emit_none M
             greater Slot.changeIfGreater Slot.changeIfGreater_from
             (m_changeIfGreater _ _ _ _ _ _ _ _ M) (m_changeIfGreater_from _ _ _ _ _ _ _ _ M)
             (TotalOrder_greater _ _ _ TO) rows p1 p2 s0 s1 s2); assumption.
  - cbn [Data.has AggregateFunctionAnyData].
    unfold Agg.merge, Agg.addRows, Agg.add.
    cbn [Data.changeIfBetter Data.changeIfBetter_from AggregateFunctionAnyData].
    destruct (first_rows less greater inv okcell stored counts emit_some emit_none M
                rows s0 H0 Hrows) as [Hi0 Hv0].
    destruct (first_rows less greater inv okcell stored counts emit_some emit_none M
                p1 s1 H1 Hp1) as [Hi1 Hv1].
    destruct (first_rows less greater inv okcell stored counts emit_some emit_none M
                p2 s2 H2 Hp2) as [Hi2 Hv2].
    destruct (first_merge less greater inv okcell stored counts emit_some emit_none M
                _ _ Hi1 Hi2) as [Him Hvm].
    rewrite !(has_view stored), Hvm, Hv1, Hv2, Hv0.
    unfold view. rewrite E0, E1, E2.
    destruct HS as [|x l l1 l2 HS|x l l1 l2 HS]; try reflexivity;
      destruct l1, l2; reflexivity.
  - cbn [Data.has AggregateFunctionAnyLastData].
    unfold Agg.merge, Agg.addRows, Agg.add.
    cbn [Data.changeIfBetter Data.changeIfBetter_from AggregateFunctionAnyLastData].
    destruct (every_rows less greater inv okcell stored counts emit_some emit_none M
                rows s0 H0 Hrows) as [Hi0 Hv0].
    destruct (every_rows less greater inv okcell stored counts emit_some emit_none M
                p1 s1 H1 Hp1) as [Hi1 Hv1].
    destruct (every_rows less greater inv okcell stored counts emit_some emit_none M
                p2 s2 H2 Hp2) as [Hi2 Hv2].
    destruct (every_merge less greater inv okcell stored counts emit_some emit_none M
                _ _ Hi1 Hi2) as [Him Hvm].
    rewrite !(has_view stored), Hvm, Hv1, Hv2, Hv0.
    unfold view. rewrite E0, E1, E2.
    destruct HS as [|x l l1 l2 HS|x l l1 l2 HS]; try reflexivity;
      destruct l1, l2; reflexivity.
  - cbn [Data.has AggregateFunctionAnyLastData].
    unfold Agg.merge, Agg.addRows, Agg.add, Agg.insertResultInto.
    cbn [Data.changeIfBetter Data.changeIfBetter_from Data.insertResultInto
         AggregateFunctionAnyLastData].
    destruct (every_rows less greater inv okcell stored counts emit_some emit_none M
                p1 s1 H1 Hp1) as [Hi1 _].
    destruct (every_rows less greater inv okcell stored counts emit_some emit_none M
                p2 s2 H2 Hp2) as [Hi2 _].
    destruct (every_merge less greater inv okcell stored counts emit_some emit_none M
                _ _ Hi1 Hi2) as [Him Hvm].
    rewrite (emit_view less greater inv okcell stored counts emit_some emit_none M _ Him), Hvm.
    destruct (Slot.has (fold_left _ p2 s2)) eqn:Hh.
    + rewrite (emit_view less greater inv okcell stored counts emit_some emit_none M _ Hi2).
      unfold view at 1. rewrite Hh. unfold view. now rewrite Hh.
    + rewrite (emit_view less greater inv okcell stored counts emit_some emit_none M _ Hi1).
      unfold view at 1. now rewrite Hh.
Qed.

End ModelLaws.

Lemma MinMaxFoldLaw_weaken {D V : Type} `{Slot.SingleValueData D V}
  (less greater : V -> V -> bool) (default : V)
  (empty empty' : D -> Prop) (row_ok row_ok' : V -> Prop) :
  (forall s, empty' s -> empty s) -> (forall x, row_ok' x -> row_ok x) ->
  MinMaxFoldLaw less greater default empty row_ok ->
  MinMaxFoldLaw less greater default empty' row_ok'.
Proof.
  intros He Hr L s0 rows H0 Hrows. apply L; [now apply He|].
  eapply Forall_impl; [|exact Hrows]. exact Hr.
Qed.

Lemma SplitMergeLaw_weaken {D V : Type} `{Slot.SingleValueData D V}
  (empty empty' : D -> Prop) (row_ok row_ok' : V -> Prop) :
  (forall s, empty' s -> empty s) -> (forall x, row_ok' x -> row_ok x) ->
  SplitMergeLaw empty row_ok -> SplitMergeLaw empty' row_ok'.
Proof.
  intros He Hr L rows p1 p2 s0 s1 s2 HS Hrows H0 H1 H2.
  apply L; auto. eapply Forall_impl; [|exact Hrows]. exact Hr.
Qed.

Lemma cell_plain_nonempty (x : Buffer) : cell_plain x -> x <> [].
Proof. intros Hp ->. now apply Hp. Qed.

Lemma nonempty_counts (x : Buffer) : x <> [] -> (1 <=? Z.of_nat (length x)) = true.
Proof.
  intros Hx. apply Z.leb_le. destruct x; [congruence|]. simpl length. lia.
Qed.

(* ------------------------------------------------------------------ *)
(** ** The example Field type satisfies the laws                       *)
(* ------------------------------------------------------------------ *)

Module ArrayFieldFacts.
Import ArrayField.

Lemma list_compare_eq (a b : list Z) : list_compare a b = Eq <-> a = b.
Proof.
  revert b. induction a as [|x a IH]; intros [|y b]; simpl; try (split; congruence).
  destruct (Z.compare_spec x y) as [E|L|G].
  - subst y. rewrite IH. split; congruence.
  - split; [discriminate|]. intros E. inversion E. lia.
  - split; [discriminate|]. intros E. inversion E. lia.
Qed.

Lemma list_compare_antisym (a b : list Z) :
  list_compare b a = CompOpp (list_compare a b).
Proof.
  revert b. induction a as [|x a IH]; intros [|y b]; simpl; try reflexivity.
  rewrite (Z.compare_antisym x y).
  destruct (x ?= y); simpl; auto.
Qed.

Lemma list_compare_trans (a b c : list Z) :
  list_compare a b = Lt -> list_compare b c = Lt -> list_compare a c = Lt.
Proof.
  revert b c. induction a as [|x a IH]; intros [|y b] [|z c]; simpl;
    try congruence.
  destruct (Z.compare_spec x y) as [E1|L1|G1];
    destruct (Z.compare_spec y z) as [E2|L2|G2];
    try discriminate; intros H1 H2.
  - subst. rewrite Z.compare_refl. eauto.
  - subst. now apply Z.compare_lt_iff in L2 as ->.
  - subst. now apply Z.compare_lt_iff in L1 as ->.
  - assert (L : x < z) by lia. now apply Z.compare_lt_iff in L as ->.
Qed.

Lemma compare_eq (a b : Field) : compare a b = Eq <-> a = b.
Proof.
  destruct a as [|x], b as [|y]; simpl; try (split; congruence).
  rewrite list_compare_eq. split; congruence.
Qed.

Lemma compare_antisym (a b : Field) : compare b a = CompOpp (compare a b).
Proof.
  destruct a as [|x], b as [|y]; simpl; try reflexivity.
  apply list_compare_antisym.
Qed.

Lemma compare_trans (a b c : Field) :
  compare a b = Lt -> compare b c = Lt -> compare a c = Lt.
Proof.
  destruct a as [|x], b as [|y], c as [|z]; simpl; try congruence.
  apply list_compare_trans.
Qed.

Lemma order : TotalOrder (A := Field) Field_less Field_greater Field_equal.
Proof.
  split; cbn [Field_less Field_greater Field_equal ArrayField_FieldType];
    unfold less, greater, equal.
  - intros a b. rewrite <- compare_eq. destruct (compare a b); split; congruence.
  - intros a b. rewrite (compare_antisym b a). destruct (compare b a); reflexivity.
  - intros a. now replace (compare a a) with Eq by (symmetry; now apply compare_eq).
  - intros a b c.
    destruct (compare a b) eqn:E1; try discriminate.
    destruct (compare b c) eqn:E2; try discriminate.
    now rewrite (compare_trans a b c E1 E2).
  - intros a b. rewrite (compare_antisym a b).
    destruct (compare a b) eqn:E; simpl; try discriminate.
    intros _ _. now apply compare_eq.
Qed.

Lemma read_elems_flat_map (l : list Z) (rest : Buffer) :
  Forall Int64_range l ->
  read_elems (length l) (flat_map (le_bytes 8) l ++ rest) = Some (l, rest).
Proof.
  induction 1 as [|x l Hx _ IH]; [reflexivity|].
  cbn [length flat_map read_elems]. rewrite <- app_assoc.
  rewrite readStrict_le_bytes, IH, le_value_le_bytes.
  change (256 ^ Z.of_nat 8) with (2 ^ 64).
  rewrite to_signed_of_range; [reflexivity | lia | exact Hx].
Qed.

Lemma wire : WireRoundTrip ArrayField_ok serializeBinary deserializeBinary.
Proof.
  intros [|l] rest Hok; [destruct Hok|]. destruct Hok as [Hlen Hl].
  cbn [serializeBinary deserializeBinary ArrayField_FieldType serialize].
  unfold deserialize.
  rewrite <- app_assoc, readStrict_le_bytes, le_value_le_bytes.
  change (256 ^ Z.of_nat 8) with (2 ^ 64).
  rewrite Z.mod_small by lia. rewrite Nat2Z.id.
  now rewrite read_elems_flat_map.
Qed.

End ArrayFieldFacts.

(* ------------------------------------------------------------------ *)
(** ** Comparison-gated changes                                       *)
(* ------------------------------------------------------------------ *)

(** Splits a conjunction of implications and closes the parts that follow
    from the hypotheses or from a contradiction between booleans. *)
Ltac split_cases :=
  repeat match goal with
         | |- _ /\ _ => split
         | |- _ <-> _ => split
         end;
  try solve [ auto
            | discriminate
            | intros [?|?]; (discriminate || congruence)
            | intros; congruence ].

Section GatedChange.
Context {D V : Type} `{Slot.SingleValueData D V}.
Variables (less greater : V -> V -> bool) (inv : D -> Prop) (okcell : V -> Prop)
  (stored : D -> V) (counts : V -> bool) (emit_some : V -> V) (emit_none : V).
Hypothesis M : SlotModel less greater inv okcell stored counts emit_some emit_none.
Variables (better : V -> V -> bool)
  (op : D -> V -> bool * D) (op_from : D -> D -> bool * D).
Hypothesis op_eq : forall s x, inv s -> okcell x ->
  op s x = if negb (Slot.has s) || better x (stored s)
           then (true, Slot.change s x) else (false, s).
Hypothesis op_from_eq : forall s t, inv s -> inv t ->
  op_from s t = if Slot.has t && (negb (Slot.has s) || better (stored t) (stored s))
                then (true, Slot.change_from s t) else (false, s).
Hypothesis better_irrefl : forall a, better a a = false.

Lemma model_gated_change : GatedChangeLaw inv okcell stored counts better op op_from.
Proof.
  split; [|split].
  - intros s x Hs Hx. rewrite (op_eq s x Hs Hx).
    destruct (m_change _ _ _ _ _ _ _ _ M s x Hs Hx) as (_ & Hst & Hhc).
    destruct (Slot.has s) eqn:Hh; cbn [negb orb].
    + destruct (better x (stored s)) eqn:Hb; cbn [fst snd]; split_cases.
    + cbn [fst snd]. split_cases.
  - intros s t Hs Ht Hht. rewrite (op_from_eq s t Hs Ht), Hht. cbn [andb].
    destruct (m_change_from _ _ _ _ _ _ _ _ M s t Hs Ht Hht) as (_ & Hst & Hhc).
    destruct (Slot.has s) eqn:Hh; cbn [negb orb].
    + destruct (better (stored t) (stored s)) eqn:Hb; cbn [fst snd]; split_cases.
    + cbn [fst snd]. split_cases.
  - intros s t Hs Ht Hht. now rewrite (op_from_eq s t Hs Ht), Hht.
Qed.

End GatedChange.

(* ------------------------------------------------------------------ *)
(** ** Empty strings in the string slot                               *)
(* ------------------------------------------------------------------ *)

Lemma no_value_of_has_false (s : Str.SingleValueDataString) :
  Str.has s = false -> reports_no_value s.
Proof.
  intros Hh. unfold reports_no_value, Str.isEqualTo, Str.isEqualTo_from,
    Str.insertResultInto. rewrite Hh. auto.
Qed.

Lemma has_change_empty (s : Str.SingleValueDataString) :
  Str.has (Str.change s []) = false.
Proof. reflexivity. Qed.

Lemma has_change_from_zero (s t : Str.SingleValueDataString) :
  Str.size t = 0 -> Str.has (Str.change_from s t) = false.
Proof.
  intros Ht. unfold Str.change_from, Str.getStringRef, Str.changeImpl.
  cbn [StringRef.size]. rewrite Ht. reflexivity.
Qed.

(* ------------------------------------------------------------------ *)
(** ** The wire format of the string slot                             *)
(* ------------------------------------------------------------------ *)

(** The three byte patterns of [write]. *)
Lemma write_patterns (s : Str.SingleValueDataString) :
  StrInv.wf s ->
  (Str.has s = false ->
     Str.write s = writeBinary_Int32 1 ++ [x00]
     /\ Str.write s = [x01; x00; x00; x00; x00])
  /\ (Str.has s = true -> last (StrInv.content s) x00 <> x00 ->
      Str.write s
      = writeBinary_Int32 (Str.size s + 1) ++ StrInv.content s ++ [x00])
  /\ (Str.has s = true -> last (StrInv.content s) x00 = x00 ->
      Str.write s = writeBinary_Int32 (Str.size s) ++ StrInv.content s)
  /\ (Str.has s = true -> Z.of_nat (length (StrInv.content s)) = Str.size s).
Proof.
  intros Hw. split; [|split; [|split]].
  - intros Hh. unfold Str.write. rewrite Hh. split; reflexivity.
  - intros Hh Hlast. unfold Str.write. rewrite Hh. cbn [negb].
    rewrite (StrFacts.last_content s Hw Hh).
    destruct (Byte.eqb (last (StrInv.content s) x00) x00) eqn:E.
    + apply byte_eqb_spec in E. contradiction.
    + reflexivity.
  - intros Hh Hlast. unfold Str.write. rewrite Hh. cbn [negb].
    rewrite (StrFacts.last_content s Hw Hh), Hlast. reflexivity.
  - intros Hh. apply StrFacts.length_content; [exact Hw|].
    apply StrFacts.has_size in Hh. lia.
Qed.

Module StrWire.
Import Str StrInv.

(** Reading a length and that many bytes stores the bytes. *)
Lemma read_cell (target : SingleValueDataString) (c rest : Buffer) :
  1 <= Z.of_nat (length c) < 2 ^ 31 ->
  exists s',
    read target (writeBinary_Int32 (Z.of_nat (length c)) ++ c ++ rest) = Some (s', rest)
    /\ wf s' /\ size s' = Z.of_nat (length c) /\ content s' = c.
Proof.
  intros Hc. unfold read.
  rewrite readBinary_writeBinary_Int32 by lia.
  set (n := Z.of_nat (length c)) in *.
  destruct (Z.geb_spec n 0) as [_|]; [|lia].
  assert (Hrs : readStrict (Z.to_nat n) (c ++ rest) = Some (c, rest)).
  { unfold n. rewrite Nat2Z.id. apply readStrict_app. }
  assert (Hfc : firstn (Z.to_nat n) c = c).
  { unfold n. rewrite Nat2Z.id. apply firstn_all. }
  rewrite Hrs.
  destruct (Z.leb_spec n MAX_SMALL_STRING_SIZE) as [Hsmall|Hlarge].
  - destruct (Z.gtb_spec n 0) as [_|]; [|lia].
    eexists. split; [reflexivity|].
    unfold wf, content, getData. cbn [size small_data large_data capacity].
    destruct (Z.leb_spec n MAX_SMALL_STRING_SIZE); [|lia].
    unfold memcpy. rewrite Hfc. repeat split; try lia.
    + rewrite length_app. lia.
    + rewrite <- Hfc at 1. rewrite firstn_prefix; [exact Hfc | lia].
  - eexists. split; [reflexivity|].
    unfold wf, content, getData. cbn [size small_data large_data capacity].
    destruct (Z.leb_spec n MAX_SMALL_STRING_SIZE); [lia|].
    unfold memcpy. rewrite Hfc. repeat split; try lia.
    + rewrite length_app. lia.
    + rewrite <- Hfc at 1. rewrite firstn_prefix; [exact Hfc | lia].
Qed.

Lemma readStrict_length (n : nat) (buf bs rest : Buffer) :
  readStrict n buf = Some (bs, rest) -> length bs = n.
Proof.
  unfold readStrict. destruct (Nat.ltb_spec (length buf) n); [discriminate|].
  intros [= <- _]. rewrite length_firstn. lia.
Qed.

Lemma to_Int32_range (z : Z) : - 2 ^ 31 <= to_Int32 z < 2 ^ 31.
Proof.
  unfold to_Int32, to_signed.
  pose proof (Z.mod_pos_bound z (2 ^ 32) ltac:(lia)).
  destruct (Z.ltb_spec (z mod 2 ^ 32) (2 ^ (32 - 1))); lia.
Qed.

(** Whatever [read] reads, the state it leaves satisfies the invariant. *)
Lemma read_wf (target s' : SingleValueDataString) (buf rest : Buffer) :
  read target buf = Some (s', rest) -> wf s'.
Proof.
  unfold read, readBinary_Int32.
  destruct (readStrict 4 buf) as [[bs4 buf1]|]; [|discriminate].
  pose proof (to_Int32_range (le_value bs4)) as Hr.
  set (n := to_Int32 (le_value bs4)) in *.
  destruct (Z.geb_spec n 0) as [Hn|Hn].
  - destruct (Z.leb_spec n MAX_SMALL_STRING_SIZE) as [Hsmall|Hlarge].
    + destruct (Z.gtb_spec n 0) as [Hpos|Hzero].
      * destruct (readStrict (Z.to_nat n) buf1) as [[bs buf2]|] eqn:E; [|discriminate].
        apply readStrict_length in E. intros [= <- _].
        unfold wf, getData. cbn [size small_data large_data].
        destruct (Z.leb_spec n MAX_SMALL_STRING_SIZE); [|lia].
        unfold memcpy. rewrite length_app, length_firstn. lia.
      * intros [= <- _]. unfold wf. cbn [size]. lia.
    + destruct (readStrict (Z.to_nat n) buf1) as [[bs buf2]|] eqn:E; [|discriminate].
      apply readStrict_length in E. intros [= <- _].
      unfold wf, getData. cbn [size small_data large_data].
      destruct (Z.leb_spec n MAX_SMALL_STRING_SIZE); [lia|].
      unfold memcpy. rewrite length_app, length_firstn. lia.
  - intros [= <- _]. unfold wf. cbn [size]. lia.
Qed.

Lemma has_of_size (s : SingleValueDataString) : 1 <= size s -> has s = true.
Proof. intros. now apply StrFacts.has_size. Qed.

(** The round trip of a string state, into any target state. *)
Lemma slot_round_trip (target s : SingleValueDataString) (rest : Buffer) :
  wf s -> size s < 2 ^ 31 - 1 ->
  exists s', read target (write s ++ rest) = Some (s', rest)
             /\ insertResultInto s' = insertResultInto s.
Proof.
  intros Hw Hmax.
  destruct (write_patterns s Hw) as (Hempty & Hplain & Hzero & Hlen).
  rewrite (StrFacts.insertResultInto_content s Hw).
  destruct (has s) eqn:Hh.
  - specialize (Hlen eq_refl). pose proof (proj1 (StrFacts.has_size s) Hh) as H1.
    destruct (Byte.byte_eq_dec (last (content s) x00) x00) as [Hz|Hnz].
    + rewrite (Hzero eq_refl Hz), <- app_assoc, <- Hlen.
      destruct (read_cell target (content s) rest ltac:(lia)) as (s' & Hr & Hw' & Hs' & Hc').
      exists s'. split; [exact Hr|].
      rewrite (StrFacts.insertResultInto_content s' Hw'), has_of_size by lia.
      now rewrite Hc'.
    + rewrite (Hplain eq_refl Hnz), <- !app_assoc.
      replace (size s + 1) with (Z.of_nat (length (content s ++ [x00])))
        by (rewrite last_length; lia).
      rewrite (app_assoc (content s)).
      destruct (read_cell target (content s ++ [x00]) rest
                  ltac:(rewrite last_length; lia)) as (s' & Hr & Hw' & Hs' & Hc').
      exists s'. split; [exact Hr|].
      rewrite (StrFacts.insertResultInto_content s' Hw'), has_of_size
        by (rewrite Hs', last_length; lia).
      rewrite Hc', StrFacts.strip_app_zero.
      symmetry. now apply StrFacts.strip_plain.
  - rewrite (proj1 (Hempty eq_refl)), <- app_assoc.
    destruct (read_cell target [x00] rest ltac:(simpl; lia)) as (s' & Hr & Hw' & Hs' & Hc').
    exists s'. split; [exact Hr|].
    rewrite (StrFacts.insertResultInto_content s' Hw'), has_of_size
      by (rewrite Hs'; simpl; lia).
    rewrite Hc'. reflexivity.
Qed.

End StrWire.

(* ------------------------------------------------------------------ *)
(** ** Round trips of the slots                                       *)
(* ------------------------------------------------------------------ *)

Section SlotRoundTrip.
Context {D V : Type} `{Slot.SingleValueData D V}.
Variables (oktarget okstate : D -> Prop).
Hypothesis slot_trip : forall target s rest,
  oktarget target -> okstate s ->
  exists s', Slot.read target (Slot.write s ++ rest) = Some (s', rest)
             /\ Slot.insertResultInto s' = Slot.insertResultInto s.

Lemma round_trip_law : RoundTripLaw oktarget okstate.
Proof.
  split.
  - intros data Hdata target s Ht Hs rest.
    cbn [In] in Hdata.
    destruct Hdata as [<-|[<-|[<-|[<-|[]]]]];
      exact (slot_trip target s rest Ht Hs).
  - intros target s Ht Hs Hc rest.
    unfold Agg.deserialize, Agg.serialize, Agg.insertResultInto.
    cbn [Data.read Data.write Data.insertResultInto AnyHeavy.data].
    unfold AnyHeavy.read, AnyHeavy.write. rewrite <- app_assoc.
    destruct (slot_trip (AnyHeavy.base target) (AnyHeavy.base s)
                (writeBinary_UInt64 (AnyHeavy.counter s) ++ rest) Ht Hs)
      as (d & Hr & He).
    rewrite Hr, readBinary_writeBinary_UInt64 by exact Hc.
    eexists. split; [reflexivity|]. exact He.
Qed.

End SlotRoundTrip.

Lemma Fixed_round_trip {T : Type} `{FixedType T} (okT : T -> Prop) :
  WireRoundTrip okT T_writeBinary T_readBinary ->
  forall (target s : Fixed.SingleValueDataFixed T) rest,
    True -> (Fixed.has s = true -> okT (Fixed.value s)) ->
    exists s', Slot.read target (Slot.write s ++ rest) = Some (s', rest)
               /\ Slot.insertResultInto s' = Slot.insertResultInto s.
Proof.
  intros HW target [h v] rest _ Hs.
  cbn [Slot.read Slot.write Slot.insertResultInto SingleValueDataFixed_ops].
  unfold Fixed.read, Fixed.write, Fixed.insertResultInto, Fixed.has.
  cbn [Fixed.has_value Fixed.value] in *.
  rewrite <- app_assoc, readBinary_writeBinary_bool.
  destruct h.
  - rewrite (HW v rest (Hs eq_refl)). eexists. split; reflexivity.
  - eexists. split; reflexivity.
Qed.

Lemma Generic_round_trip {F : Type} `{FieldType F} (okF : F -> Prop) :
  WireRoundTrip okF serializeBinary deserializeBinary ->
  forall (target s : Generic.SingleValueDataGeneric F) rest,
    Generic.has target = false ->
    (Generic.has s = true -> okF (Generic.value s)) ->
    exists s', Slot.read target (Slot.write s ++ rest) = Some (s', rest)
               /\ Slot.insertResultInto s' = Slot.insertResultInto s.
Proof.
  intros HW target [v] rest Ht Hs.
  cbn [Slot.read Slot.write Slot.insertResultInto SingleValueDataGeneric_ops].
  unfold Generic.read, Generic.write, Generic.insertResultInto, Generic.has in *.
  cbn [Generic.value] in *.
  destruct (Field_isNull v) eqn:Hv; cbn [negb] in *.
  - rewrite readBinary_writeBinary_bool. eexists. split; [reflexivity|].
    now rewrite Ht.
  - rewrite <- app_assoc, readBinary_writeBinary_bool.
    rewrite (HW v rest (Hs eq_refl)). eexists. split; [reflexivity|].
    cbn [Generic.value]. now rewrite Hv.
Qed.

(* ------------------------------------------------------------------ *)
(** ** Constructing the other policies                                *)
(* ------------------------------------------------------------------ *)

(** The other four policies are constructed over any type. *)
Lemma construct_other_policies
  {D V : Type} `{Slot.SingleValueData D V} (type : IDataType.t) :
  Agg.construct AggregateFunctionAnyData type = inr (Agg.mk type)
  /\ Agg.construct AggregateFunctionAnyLastData type = inr (Agg.mk type)
  /\ Agg.construct (AnyHeavy.data (D := D)) type = inr (Agg.mk type)
  /\ Agg.construct (OrNull.data (D := D)) type = inr (Agg.mk type).
Proof. repeat split. Qed.

(* ------------------------------------------------------------------ *)
(** ** Merging an empty state                                         *)
(* ------------------------------------------------------------------ *)

(** For min, max, any, anyLast and anyHeavy, over each slot type, merging an
    empty state into an empty state changes nothing. *)
Lemma empty_merge_is_noop {T : Type} `{FixedType T} {F : Type} `{FieldType F} :
  (forall data,
     In data [AggregateFunctionMinData; AggregateFunctionMaxData;
              AggregateFunctionAnyData; AggregateFunctionAnyLastData] ->
     forall dst src : Fixed.SingleValueDataFixed T,
       Fixed.has src = false -> Agg.merge data dst src = dst)
  /\ (forall data,
        In data [AggregateFunctionMinData; AggregateFunctionMaxData;
                 AggregateFunctionAnyData; AggregateFunctionAnyLastData] ->
        forall dst src : Generic.SingleValueDataGeneric F,
          Generic.has src = false -> Agg.merge data dst src = dst)
  /\ (forall data,
        In data [AggregateFunctionMinData; AggregateFunctionMaxData;
                 AggregateFunctionAnyData; AggregateFunctionAnyLastData] ->
        forall dst src : Str.SingleValueDataString,
          Str.has src = false -> Agg.merge data dst src = dst)
  /\ (forall d1 d2 : Fixed.SingleValueDataFixed T,
        Fixed.has d1 = false -> Fixed.has d2 = false ->
        Agg.merge AnyHeavy.data (AnyHeavy.create d1) (AnyHeavy.create d2)
        = AnyHeavy.create d1)
  /\ (forall d1 d2 : Generic.SingleValueDataGeneric F,
        Generic.has d1 = false -> Generic.has d2 = false ->
        Agg.merge AnyHeavy.data (AnyHeavy.create d1) (AnyHeavy.create d2)
        = AnyHeavy.create d1)
  /\ (forall d1 d2 : Str.SingleValueDataString,
        Str.has d1 = false -> Str.has d2 = false ->
        Agg.merge AnyHeavy.data (AnyHeavy.create d1) (AnyHeavy.create d2)
        = AnyHeavy.create d1).
Proof.
  repeat split.
  - intros data Hd dst src Hs. cbn [In] in Hd.
    destruct Hd as [<-|[<-|[<-|[<-|[]]]]]; cbv [Agg.merge]; cbn;
      [unfold Fixed.changeIfLess_from | unfold Fixed.changeIfGreater_from
      |unfold Fixed.changeFirstTime_from | unfold Fixed.changeEveryTime_from];
      rewrite Hs; rewrite ?andb_false_r; reflexivity.
  - intros data Hd dst src Hs. cbn [In] in Hd.
    destruct Hd as [<-|[<-|[<-|[<-|[]]]]]; cbv [Agg.merge]; cbn;
      [unfold Generic.changeIfLess_from | unfold Generic.changeIfGreater_from
      |unfold Generic.changeFirstTime_from | unfold Generic.changeEveryTime_from];
      rewrite Hs; rewrite ?andb_false_r; reflexivity.
  - intros data Hd dst src Hs. cbn [In] in Hd.
    destruct Hd as [<-|[<-|[<-|[<-|[]]]]]; cbv [Agg.merge];
      cbn [Data.changeIfBetter_from AggregateFunctionMinData AggregateFunctionMaxData
           AggregateFunctionAnyData AggregateFunctionAnyLastData
           Slot.changeIfLess_from Slot.changeIfGreater_from
           Slot.changeFirstTime_from Slot.changeEveryTime_from
           SingleValueDataString_ops];
      [unfold Str.changeIfLess_from | unfold Str.changeIfGreater_from
      |unfold Str.changeFirstTime_from | unfold Str.changeEveryTime_from];
      rewrite Hs; rewrite ?andb_false_r; reflexivity.
  - intros [h1 v1] [h2 v2] H1 H2. cbn in H1, H2. subst. reflexivity.
  - intros d1 d2 H1 H2. cbv [Agg.merge].
    cbn [Data.changeIfBetter_from AnyHeavy.data]. unfold AnyHeavy.changeIfBetter_from.
    cbn [AnyHeavy.base AnyHeavy.counter AnyHeavy.create Slot.isEqualTo_from
         Slot.has SingleValueDataGeneric_ops].
    unfold Generic.isEqualTo_from. rewrite H1, H2. reflexivity.
  - intros d1 d2 H1 H2. cbv [Agg.merge].
    cbn [Data.changeIfBetter_from AnyHeavy.data]. unfold AnyHeavy.changeIfBetter_from.
    cbn [AnyHeavy.base AnyHeavy.counter AnyHeavy.create Slot.isEqualTo_from
         Slot.has SingleValueDataString_ops].
    unfold Str.isEqualTo_from. rewrite H1, H2. reflexivity.
Qed.

(* ------------------------------------------------------------------ *)
(** ** singleValueOrNull: what holds                                  *)
(* ------------------------------------------------------------------ *)

(** What holds of the claim: the three examples, both orders of the rows 5
    and 7, and the split of these two rows into two parts of one row each,
    merged in either order. *)
Lemma or_null_examples :
  let fresh := OrNull.create (Fixed.create 0) in
  let run := Agg.addRows OrNull.data fresh in
  Agg.insertResultInto OrNull.data (run [5; 5; 5]) = Some 5
  /\ Agg.insertResultInto OrNull.data (run [5; 7]) = None
  /\ Agg.insertResultInto OrNull.data (run [7; 5]) = None
  /\ Agg.insertResultInto OrNull.data (run []) = None
  /\ Agg.insertResultInto OrNull.data (Agg.merge OrNull.data (run [5]) (run [7])) = None
  /\ Agg.insertResultInto OrNull.data (Agg.merge OrNull.data (run [7]) (run [5])) = None
  /\ Agg.insertResultInto OrNull.data (Agg.merge OrNull.data (run [5; 7]) (run [])) = None.
Proof. cbv zeta. repeat split. Qed.

(** The flag of a state, once set, stays set under every row added to the
    state and every state merged into it. *)
Lemma or_null_flag_stays {D V : Type} `{Slot.SingleValueData D V}
  (s : OrNull.State D) :
  OrNull.is_null s = true ->
  (forall x, OrNull.is_null (Agg.add OrNull.data s x) = true
             /\ Agg.insertResultInto OrNull.data (Agg.add OrNull.data s x) = None)
  /\ (forall t, OrNull.is_null (Agg.merge OrNull.data s t) = true
                /\ Agg.insertResultInto OrNull.data (Agg.merge OrNull.data s t) = None).
Proof.
  intros Hn. split.
  - intros x. unfold Agg.add, Agg.insertResultInto.
    cbn [Data.changeIfBetter Data.insertResultInto OrNull.data].
    unfold OrNull.changeIfBetter, OrNull.insertResultInto.
    destruct (OrNull.first_value s); [|destruct (negb _)];
      cbn [snd OrNull.is_null]; rewrite ?Hn; auto.
  - intros t. unfold Agg.merge, Agg.insertResultInto.
    cbn [Data.changeIfBetter_from Data.insertResultInto OrNull.data].
    unfold OrNull.changeIfBetter_from, OrNull.insertResultInto.
    destruct (OrNull.first_value s); [|destruct (negb _)];
      cbn [snd OrNull.is_null]; rewrite ?Hn; auto.
Qed.

(* ------------------------------------------------------------------ *)
(** ** isEqualTo on stored values                                      *)
(* ------------------------------------------------------------------ *)

Lemma Fixed_eq {T : Type} `{FixedType T} :
  DecidesEq (A := T) T_equal ->
  SlotEq (D := Fixed.SingleValueDataFixed T) (fun _ => True) Fixed.value.
Proof.
  intros TO. split.
  - intros s x _. cbn. unfold Fixed.isEqualTo.
    rewrite andb_true_iff, (TO _ _). intuition congruence.
  - intros s t _ _ _. cbn. unfold Fixed.isEqualTo_from.
    rewrite andb_true_iff, (TO _ _). intuition congruence.
Qed.

Lemma Generic_eq {F : Type} `{FieldType F} :
  DecidesEq (A := F) Field_equal ->
  SlotEq (D := Generic.SingleValueDataGeneric F) (fun _ => True) Generic.value.
Proof.
  intros TO. split.
  - intros s x _. cbn. unfold Generic.isEqualTo.
    rewrite andb_true_iff, (TO _ _). intuition congruence.
  - intros s t _ _ _. cbn. unfold Generic.isEqualTo_from.
    rewrite andb_true_iff, (TO _ _). intuition congruence.
Qed.

Lemma cell_equal_decides : DecidesEq cell_equal.
Proof. intros a b. apply cell_equal_spec. Qed.

Lemma String_eq :
  SlotEq (D := Str.SingleValueDataString) StrInv.wf StrInv.content.
Proof.
  split.
  - intros s x Hw. cbn. unfold Str.isEqualTo.
    destruct (Str.has s) eqn:Hh; cbn [andb].
    + rewrite StrFacts.equal_bytes, StrFacts.bytes_of_cell, StrFacts.bytes_getStringRef,
        cell_equal_spec;
        auto using StrFacts.proper_of_cell, StrFacts.proper_getStringRef.
      intuition congruence.
    + intuition congruence.
  - intros s t Hs Ht Hht. cbn. unfold Str.isEqualTo_from.
    destruct (Str.has s) eqn:Hh; cbn [andb].
    + rewrite StrFacts.equal_bytes, !StrFacts.bytes_getStringRef, cell_equal_spec;
        auto using StrFacts.proper_getStringRef.
      intuition congruence.
    + intuition congruence.
Qed.

(* ------------------------------------------------------------------ *)
(** ** anyHeavy: the majority vote                                     *)
(* ------------------------------------------------------------------ *)

Section Heavy.
Context {D V : Type} `{Slot.SingleValueData D V}.
Variables (less greater equal : V -> V -> bool) (inv : D -> Prop) (okcell : V -> Prop)
  (stored : D -> V) (counts : V -> bool) (emit_some : V -> V) (emit_none : V).
Hypothesis M : SlotModel less greater inv okcell stored counts emit_some emit_none.
Hypothesis E : SlotEq inv stored.
Hypothesis equal_ok : DecidesEq equal.

Local Abbreviation holds := (holds stored).
Local Abbreviation vote_bound := (vote_bound stored).

Lemma holds_dec (m : V) (s : AnyHeavy.State D) : holds m s \/ ~ holds m s.
Proof.
  unfold holds. destruct (Slot.has (AnyHeavy.base s)).
  - destruct (equal (stored (AnyHeavy.base s)) m) eqn:Eq.
    + apply equal_ok in Eq. auto.
    + right. intros [_ Hm]. apply equal_ok in Hm. congruence.
  - right. intros [Hh _]. discriminate.
Qed.

Lemma heavy_step (m : V) (s : AnyHeavy.State D) (x : V) (e : Z) :
  inv (AnyHeavy.base s) -> 0 <= AnyHeavy.counter s < 2 ^ 64 - 1 ->
  accepted okcell counts x -> vote_bound m s e ->
  let s' := snd (AnyHeavy.changeIfBetter s x) in
  inv (AnyHeavy.base s')
  /\ 0 <= AnyHeavy.counter s' <= AnyHeavy.counter s + 1
  /\ vote_bound m s' ((if equal x m then 1 else -1) + e).
Proof.
  intros Hi Hc [Hx Hcx] [Bh Bn]. cbv zeta. unfold AnyHeavy.changeIfBetter.
  pose proof (e_row inv stored E (AnyHeavy.base s) x Hi) as Heq.
  assert (Hxm : (equal x m = true /\ x = m) \/ (equal x m = false /\ x <> m)).
  { destruct (equal x m) eqn:Exm.
    - left. split; [reflexivity | now apply equal_ok].
    - right. split; [reflexivity|]. intros ->.
      assert (equal m m = true) by now apply equal_ok. congruence. }
  destruct (Slot.isEqualTo (AnyHeavy.base s) x) eqn:Eis.
  - (* the stored value again: the counter grows *)
    destruct (proj1 Heq eq_refl) as [Hh Hst].
    cbn [snd AnyHeavy.base AnyHeavy.counter]. unfold to_UInt64.
    rewrite Z.mod_small by lia. split; [exact Hi|]. split; [lia|].
    unfold vote_bound, holds. cbn [AnyHeavy.base AnyHeavy.counter].
    destruct Hxm as [[-> Hm]|[-> Hm]].
    + split; [|intros Hn; exfalso; apply Hn; split; congruence].
      intros _. assert (e <= AnyHeavy.counter s)
        by (apply Bh; split; congruence). lia.
    + split; [intros [_ Hs]; congruence|].
      intros _. assert (e <= - AnyHeavy.counter s)
        by (apply Bn; intros [_ Hs]; congruence). lia.
  - assert (Hne : ~ (Slot.has (AnyHeavy.base s) = true /\ stored (AnyHeavy.base s) = x)).
    { intros Hc'. apply Heq in Hc'. congruence. }
    destruct (Z.eqb_spec (AnyHeavy.counter s) 0) as [H0|H0].
    + (* no vote left: the row becomes the stored value *)
      destruct (m_change _ _ _ _ _ _ _ _ M (AnyHeavy.base s) x Hi Hx) as (Hi' & Hst & Hh').
      cbn [snd AnyHeavy.base AnyHeavy.counter]. unfold to_UInt64.
      rewrite Z.mod_small by lia. split; [exact Hi'|]. split; [lia|].
      assert (He : e <= 0).
      { destruct (holds_dec m s) as [Hm|Hm]; [apply Bh in Hm | apply Bn in Hm]; lia. }
      unfold vote_bound, holds. cbn [AnyHeavy.base AnyHeavy.counter].
      rewrite Hst, Hh', Hcx.
      destruct Hxm as [[-> Hm]|[-> Hm]].
      * split; [lia|]. intros Hn. exfalso. apply Hn. auto.
      * split; [intros [_ Hs]; congruence | lia].
    + (* another value: the counter shrinks *)
      cbn [snd AnyHeavy.base AnyHeavy.counter]. unfold to_UInt64.
      rewrite Z.mod_small by lia. split; [exact Hi|]. split; [lia|].
      unfold vote_bound, holds. cbn [AnyHeavy.base AnyHeavy.counter].
      destruct Hxm as [[-> Hm]|[-> Hm]].
      * subst x. split; [intros Hm; contradiction|].
        intros _. assert (e <= - AnyHeavy.counter s) by (apply Bn; exact Hne). lia.
      * split.
        -- intros Hm'. assert (e <= AnyHeavy.counter s) by (apply Bh; exact Hm'). lia.
        -- intros Hm'. assert (e <= - AnyHeavy.counter s) by (apply Bn; exact Hm'). lia.
Qed.

Lemma heavy_rows (m : V) (rows : list V) (s : AnyHeavy.State D) (e : Z) :
  inv (AnyHeavy.base s) -> 0 <= AnyHeavy.counter s ->
  AnyHeavy.counter s + Z.of_nat (length rows) < 2 ^ 64 ->
  Forall (accepted okcell counts) rows -> vote_bound m s e ->
  let s' := Agg.addRows AnyHeavy.data s rows in
  inv (AnyHeavy.base s')
  /\ 0 <= AnyHeavy.counter s' <= AnyHeavy.counter s + Z.of_nat (length rows)
  /\ vote_bound m s' (e + excess equal m rows).
Proof.
  intros Hi Hc Hlen Hrows. revert s e Hi Hc Hlen.
  induction Hrows as [|x rows Hx Hrows IH]; intros s e Hi Hc Hlen Hb.
  - cbn [Agg.addRows fold_left length excess]. rewrite !Z.add_0_r.
    split; [exact Hi|]. split; [lia | exact Hb].
  - cbn [length] in Hlen. rewrite Nat2Z.inj_succ in Hlen.
    destruct (heavy_step m s x e Hi ltac:(lia) Hx Hb) as (Hi' & Hc' & Hb').
    cbv zeta in IH.
    specialize (IH (snd (AnyHeavy.changeIfBetter s x)) _ Hi' ltac:(lia) ltac:(lia) Hb').
    destruct IH as (Hi'' & Hc'' & Hb'').
    cbv zeta. cbn [length excess]. rewrite Nat2Z.inj_succ.
    change (Agg.addRows AnyHeavy.data s (x :: rows))
      with (Agg.addRows AnyHeavy.data (snd (AnyHeavy.changeIfBetter s x)) rows).
    split; [exact Hi''|]. split; [lia|].
    replace (e + ((if equal x m then 1 else -1) + excess equal m rows))
      with ((if equal x m then 1 else -1) + e + excess equal m rows) by lia.
    exact Hb''.
Qed.

(** A state that starts empty with the counter 0 and is fed rows of which
    more than half are [m] holds [m]. *)
Lemma heavy_majority (m : V) (rows : list V) (s0 : AnyHeavy.State D) :
  inv (AnyHeavy.base s0) -> Slot.has (AnyHeavy.base s0) = false ->
  AnyHeavy.counter s0 = 0 ->
  Z.of_nat (length rows) < 2 ^ 64 ->
  Forall (accepted okcell counts) rows -> majority equal m rows ->
  let s' := Agg.addRows AnyHeavy.data s0 rows in
  inv (AnyHeavy.base s') /\ holds m s' /\ 0 <= AnyHeavy.counter s'
  /\ Agg.insertResultInto AnyHeavy.data s' = emit_some m.
Proof.
  intros Hi Hh Hc Hlen Hrows Hmaj.
  assert (Hb : vote_bound m s0 0).
  { split; [intros [Hh' _]; congruence | lia]. }
  destruct (heavy_rows m rows s0 0 Hi ltac:(lia) ltac:(lia) Hrows Hb) as (Hi' & Hc' & Hb').
  cbv zeta in *. unfold majority in Hmaj.
  assert (Hm : holds m (Agg.addRows AnyHeavy.data s0 rows)).
  { destruct (holds_dec m (Agg.addRows AnyHeavy.data s0 rows)) as [Hm|Hm]; [exact Hm|].
    apply Hb' in Hm. lia. }
  split; [exact Hi'|]. split; [exact Hm|]. split; [lia|].
  unfold Agg.insertResultInto. cbn [Data.insertResultInto AnyHeavy.data].
  rewrite (m_emit _ _ _ _ _ _ _ _ M _ Hi'). destruct Hm as [-> ->]. reflexivity.
Qed.

(** Merging keeps a value that both states hold, and an empty state with the
    counter 0 merged with a state that holds [m] gives a state that holds
    [m], in either direction. *)
Lemma heavy_merge_holds (m : V) (a b : AnyHeavy.State D) :
  inv (AnyHeavy.base a) -> inv (AnyHeavy.base b) ->
  0 <= AnyHeavy.counter a -> 0 <= AnyHeavy.counter b ->
  (holds m a \/ (Slot.has (AnyHeavy.base a) = false /\ AnyHeavy.counter a = 0)) ->
  (holds m b \/ (Slot.has (AnyHeavy.base b) = false /\ AnyHeavy.counter b = 0)) ->
  holds m a \/ holds m b ->
  let c := Agg.merge AnyHeavy.data a b in
  inv (AnyHeavy.base c) /\ holds m c /\ 0 <= AnyHeavy.counter c.
Proof.
  intros Ha Hb Hca Hcb Sa Sb Hab. cbv zeta.
  assert (Hc : 0 <= AnyHeavy.counter (Agg.merge AnyHeavy.data a b)).
  { unfold Agg.merge. cbn [Data.changeIfBetter_from AnyHeavy.data].
    unfold AnyHeavy.changeIfBetter_from, to_UInt64.
    repeat match goal with |- context [if ?c then _ else _] => destruct c end;
      cbn [snd AnyHeavy.counter]; try assumption; apply Z.mod_pos_bound; lia. }
  cut (inv (AnyHeavy.base (Agg.merge AnyHeavy.data a b))
       /\ holds m (Agg.merge AnyHeavy.data a b)); [tauto|].
  clear Hc. revert Ha Hb Hca Hcb Sa Sb Hab.
  intros Ha Hb Hca Hcb Sa Sb Hab. cbv zeta. unfold Agg.merge.
  cbn [Data.changeIfBetter_from AnyHeavy.data]. unfold AnyHeavy.changeIfBetter_from.
  unfold holds in *.
  destruct Sb as [Hmb|[Heb Hzb]].
  - (* the source holds [m] *)
    destruct Hmb as [Hhb Hsb].
    pose proof (e_from inv stored E _ _ Ha Hb Hhb) as Heq.
    destruct (Slot.isEqualTo_from (AnyHeavy.base a) (AnyHeavy.base b)) eqn:Eis.
    + destruct (proj1 Heq eq_refl) as [Hha Hsa].
      cbn [snd AnyHeavy.base]. split; [exact Ha|]. split; congruence.
    + destruct Sa as [[Hha Hsa]|[Hea Hza]].
      * exfalso. assert (false = true) by (apply Heq; split; congruence).
        discriminate.
      * rewrite Hea, Hhb. cbn [negb andb orb snd AnyHeavy.base].
        destruct (m_change_from _ _ _ _ _ _ _ _ M _ _ Ha Hb Hhb) as (Hi' & Hst & Hh').
        split; [exact Hi'|]. split; congruence.
  - (* the source is empty: the destination keeps its value *)
    destruct Hab as [Hma|[Hhb _]]; [|congruence].
    assert (Hha : Slot.has (AnyHeavy.base a) = true) by apply Hma.
    destruct (Slot.isEqualTo_from (AnyHeavy.base a) (AnyHeavy.base b)).
    + cbn [snd AnyHeavy.base]. split; [exact Ha | exact Hma].
    + rewrite Hha, Heb, Hzb. cbn [negb andb orb].
      destruct (Z.ltb_spec (AnyHeavy.counter a) 0); [lia|].
      cbn [snd AnyHeavy.base]. split; [exact Ha | exact Hma].
Qed.

Lemma heavy_mergeAll (m : V) (parts : list (D * list V)) (acc : AnyHeavy.State D) :
  inv (AnyHeavy.base acc) -> 0 <= AnyHeavy.counter acc ->
  (holds m acc \/ (Slot.has (AnyHeavy.base acc) = false /\ AnyHeavy.counter acc = 0)) ->
  Forall (fun part =>
            (inv (fst part) /\ Slot.has (fst part) = false)
            /\ Forall (accepted okcell counts) (snd part)
            /\ Z.of_nat (length (snd part)) < 2 ^ 64
            /\ majority equal m (snd part)) parts ->
  holds m acc \/ parts <> [] ->
  let c := mergeAll AnyHeavy.data acc
             (map (fun part => (AnyHeavy.create (fst part), snd part)) parts) in
  inv (AnyHeavy.base c) /\ holds m c.
Proof.
  intros Hi Hc Hs Hparts. revert acc Hi Hc Hs.
  induction Hparts as [|[d rows] parts ([Hd Hh] & Hrows & Hlen & Hmaj) Hparts IH];
    intros acc Hi Hc Hs Hne; cbv zeta.
  - destruct Hne as [Hm|Hne]; [|congruence]. cbn. auto.
  - cbn [map mergeAll fold_left fst snd] in *.
    destruct (heavy_majority m rows (AnyHeavy.create d) Hd Hh eq_refl Hlen Hrows Hmaj)
      as (Hib & Hmb & Hcb & _).
    destruct (heavy_merge_holds m acc _ Hi Hib Hc Hcb Hs (or_introl Hmb) (or_intror Hmb))
      as (Hic & Hmc & Hcc).
    apply (IH _ Hic Hcc (or_introl Hmc) (or_introl Hmc)).
Qed.

Lemma model_majority :
  MajorityLaw equal (fun s => inv s /\ Slot.has s = false)
    (accepted okcell counts) emit_some.
Proof.
  intros d0 rows m [Hd Hh] Hrows Hlen Hmaj.
  apply (heavy_majority m rows (AnyHeavy.create d0) Hd Hh eq_refl Hlen Hrows Hmaj).
Qed.

Lemma model_majority_merge :
  MajorityMergeLaw equal (fun s => inv s /\ Slot.has s = false)
    (accepted okcell counts) emit_some.
Proof.
  intros d0 parts m [Hd Hh] Hne Hparts.
  destruct (heavy_mergeAll m parts (AnyHeavy.create d0) Hd (Z.le_refl 0)
              (or_intror (conj Hh eq_refl)) Hparts (or_intror Hne)) as [Hi [Hhc Hsc]].
  unfold Agg.insertResultInto. cbn [Data.insertResultInto AnyHeavy.data].
  rewrite (m_emit _ _ _ _ _ _ _ _ M _ Hi), Hhc, Hsc. reflexivity.
Qed.

End Heavy.

Lemma MajorityLaw_weaken {D V : Type} `{Slot.SingleValueData D V}
  (equal : V -> V -> bool) (empty empty' : D -> Prop) (row_ok row_ok' : V -> Prop)
  (emit : V -> V) :
  (forall s, empty' s -> empty s) -> (forall x, row_ok' x -> row_ok x) ->
  MajorityLaw equal empty row_ok emit -> MajorityLaw equal empty' row_ok' emit.
Proof.
  intros He Hr L d0 rows m Hd Hrows. apply L; [auto|].
  eapply Forall_impl; [exact Hr | exact Hrows].
Qed.

Lemma MajorityMergeLaw_weaken {D V : Type} `{Slot.SingleValueData D V}
  (equal : V -> V -> bool) (empty empty' : D -> Prop) (row_ok row_ok' : V -> Prop)
  (emit : V -> V) :
  (forall s, empty' s -> empty s) -> (forall x, row_ok' x -> row_ok x) ->
  MajorityMergeLaw equal empty row_ok emit -> MajorityMergeLaw equal empty' row_ok' emit.
Proof.
  intros He Hr L d0 parts m Hd Hne Hparts. apply L; [auto | exact Hne |].
  eapply Forall_impl; [|exact Hparts].
  intros part (H1 & H2 & H3 & H4).
  split; [auto|]. split; [|auto].
  eapply Forall_impl; [exact Hr | exact H2].
Qed.

(* ------------------------------------------------------------------ *)
(** ** Rows in order, and partial states merged in order               *)
(* ------------------------------------------------------------------ *)

Lemma Split_app {A : Type} (l r : list A) : Split (l ++ r) l r.
Proof.
  induction l as [|x l IH]; cbn [app].
  - induction r; constructor; assumption.
  - constructor. exact IH.
Qed.

Lemma obest_app {A : Type} (better : A -> A -> bool) (ST : StrictTotal better)
  (a : option A) (l r : list A) :
  obest better (obest better a (ofold_best better l)) (ofold_best better r)
  = obest better a (ofold_best better (l ++ r)).
Proof.
  destruct a as [v|].
  - assert (Hv : forall k, obest better (Some v) (ofold_best better k)
                           = ofold_best better (v :: k)).
    { intros k. apply (obest_split better ST (v :: k) [v] k).
      constructor. apply (Split_app []). }
    rewrite !Hv. apply (obest_split better ST ((v :: l) ++ r) (v :: l) r), Split_app.
  - cbn [obest]. destruct (ofold_best better l) eqn:El.
    + rewrite <- El. apply (obest_split better ST), Split_app.
    + apply ofold_best_none in El. subst l. reflexivity.
Qed.

Lemma last_app_ne {A : Type} (l r : list A) (d : A) :
  r <> [] -> last (l ++ r) d = last r d.
Proof.
  intros Hr. induction l as [|x l IH]; [reflexivity|].
  cbn [app]. change (last (x :: l ++ r) d)
    with (match l ++ r with [] => x | _ => last (l ++ r) d end).
  destruct (l ++ r) eqn:E; [|exact IH].
  destruct l; [cbn in E; congruence | discriminate].
Qed.

Section Chain.
Context {D V : Type} `{Slot.SingleValueData D V}.
Variables (less greater : V -> V -> bool) (inv : D -> Prop) (okcell : V -> Prop)
  (stored : D -> V) (counts : V -> bool) (emit_some : V -> V) (emit_none : V).
Hypothesis M : SlotModel less greater inv okcell stored counts emit_some emit_none.

Lemma gated_chain (better : V -> V -> bool) (ST : StrictTotal better)
  (op : D -> V -> bool * D) (op_from : D -> D -> bool * D)
  (op_eq : forall s x, inv s -> okcell x ->
     op s x = if negb (Slot.has s) || better x (stored s)
              then (true, Slot.change s x) else (false, s))
  (op_from_eq : forall s t, inv s -> inv t ->
     op_from s t = if Slot.has t && (negb (Slot.has s) || better (stored t) (stored s))
                   then (true, Slot.change_from s t) else (false, s))
  (parts : list (D * list V)) (acc : D) :
  inv acc ->
  Forall (fun part => (inv (fst part) /\ Slot.has (fst part) = false)
                      /\ Forall (accepted okcell counts) (snd part)) parts ->
  let c := fold_left
             (fun a part =>
                snd (op_from a (fold_left (fun p x => snd (op p x)) (snd part) (fst part))))
             parts acc in
  inv c
  /\ view stored c
     = obest better (view stored acc) (ofold_best better (all_rows parts)).
Proof.
  intros Hi Hparts. revert acc Hi.
  induction Hparts as [|[d rows] parts [[Hd Hh] Hrows] Hparts IH]; intros acc Hi; cbv zeta.
  - cbn. split; [exact Hi|]. destruct (view stored acc); reflexivity.
  - cbn [fold_left fst snd] in *.
    destruct (gated_rows less greater inv okcell stored counts emit_some emit_none M
                better op op_eq rows d Hd Hh Hrows) as [Hip Hvp].
    destruct (gated_merge less greater inv okcell stored counts emit_some emit_none M
                better op_from op_from_eq acc _ Hi Hip) as [Him Hvm].
    destruct (IH _ Him) as [Hic Hvc]. split; [exact Hic|].
    rewrite Hvc, Hvm, Hvp. unfold all_rows. cbn [map concat snd].
    apply obest_app, ST.
Qed.

Lemma first_chain (parts : list (D * list V)) (acc : D) :
  inv acc ->
  Forall (fun part => (inv (fst part) /\ Slot.has (fst part) = false)
                      /\ Forall (accepted okcell counts) (snd part)) parts ->
  let c := fold_left
             (fun a part =>
                snd (Slot.changeFirstTime_from a
                       (fold_left (fun p x => snd (Slot.changeFirstTime p x))
                          (snd part) (fst part))))
             parts acc in
  inv c
  /\ view stored c
     = match view stored acc with None => hd_error (all_rows parts) | v => v end.
Proof.
  intros Hi Hparts. revert acc Hi.
  induction Hparts as [|[d rows] parts [[Hd Hh] Hrows] Hparts IH]; intros acc Hi; cbv zeta.
  - cbn. split; [exact Hi|]. destruct (view stored acc); reflexivity.
  - cbn [fold_left fst snd] in *.
    destruct (first_rows less greater inv okcell stored counts emit_some emit_none M
                rows d Hd Hrows) as [Hip Hvp].
    destruct (first_merge less greater inv okcell stored counts emit_some emit_none M
                acc _ Hi Hip) as [Him Hvm].
    destruct (IH _ Him) as [Hic Hvc]. split; [exact Hic|].
    assert (Hvd : view stored d = None) by (unfold view; now rewrite Hh).
    rewrite Hvc, Hvm, Hvp, Hvd. unfold all_rows. cbn [map concat snd].
    destruct (view stored acc); [reflexivity|].
    destruct rows; reflexivity.
Qed.

Lemma every_chain (parts : list (D * list V)) (acc : D) :
  inv acc ->
  Forall (fun part => (inv (fst part) /\ Slot.has (fst part) = false)
                      /\ Forall (accepted okcell counts) (snd part)) parts ->
  let c := fold_left
             (fun a part =>
                snd (Slot.changeEveryTime_from a
                       (fold_left (fun p x => snd (Slot.changeEveryTime p x))
                          (snd part) (fst part))))
             parts acc in
  inv c
  /\ view stored c
     = match all_rows parts with
       | [] => view stored acc
       | _ => Some (last (all_rows parts) emit_none)
       end.
Proof.
  intros Hi Hparts. revert acc Hi.
  induction Hparts as [|[d rows] parts [[Hd Hh] Hrows] Hparts IH]; intros acc Hi; cbv zeta.
  - cbn. auto.
  - cbn [fold_left fst snd] in *.
    destruct (every_rows less greater inv okcell stored counts emit_some emit_none M
                rows d Hd Hrows) as [Hip Hvp].
    destruct (every_merge less greater inv okcell stored counts emit_some emit_none M
                acc _ Hi Hip) as [Him Hvm].
    destruct (IH _ Him) as [Hic Hvc]. split; [exact Hic|].
    assert (Hvd : view stored d = None) by (unfold view; now rewrite Hh).
    rewrite Hvc, Hvm, Hvp, Hvd. unfold all_rows. cbn [map concat snd].
    destruct (concat (map snd parts)) as [|y ys] eqn:Ec.
    + rewrite app_nil_r. destruct rows; reflexivity.
    + rewrite (last_app_ne rows (y :: ys)) by discriminate.
      destruct (rows ++ y :: ys) eqn:E; [destruct rows; discriminate|].
      destruct rows; reflexivity.
Qed.

Lemma model_chain_merge (equal : V -> V -> bool) :
  TotalOrder less greater equal ->
  ChainMergeLaw (fun s => inv s /\ Slot.has s = false) (accepted okcell counts).
Proof.
  intros TO data Hdata place s0 parts [Hp Ep] [H0 E0] Hparts.
  assert (Hall : Forall (accepted okcell counts) (all_rows parts)).
  { unfold all_rows. apply Forall_concat, Forall_map.
    eapply Forall_impl; [|exact Hparts]. cbn. tauto. }
  assert (Ev : forall s, inv s -> Slot.has s = false -> view stored s = None)
    by (intros s _ Es; unfold view; now rewrite Es).
  cbn [In] in Hdata.
  destruct Hdata as [<-|[<-|[<-|[<-|[]]]]];
    unfold mergeAll, Agg.insertResultInto, Agg.merge, Agg.addRows, Agg.add;
    cbn [Data.changeIfBetter Data.changeIfBetter_from Data.insertResultInto
         AggregateFunctionMinData AggregateFunctionMaxData
         AggregateFunctionAnyData AggregateFunctionAnyLastData].
  - destruct (gated_chain less (TotalOrder_less _ _ _ TO)
                Slot.changeIfLess Slot.changeIfLess_from
                (m_changeIfLess _ _ _ _ _ _ _ _ M) (m_changeIfLess_from _ _ _ _ _ _ _ _ M)
                parts place Hp Hparts) as [Hic Hvc].
    destruct (gated_rows less greater inv okcell stored counts emit_some emit_none M
                less Slot.changeIfLess (m_changeIfLess _ _ _ _ _ _ _ _ M)
                (all_rows parts) s0 H0 E0 Hall) as [Hi1 Hv1].
    rewrite !(emit_view less greater inv okcell stored counts emit_some emit_none M)
      by assumption.
    now rewrite Hvc, Hv1, (Ev place Hp Ep).
  - destruct (gated_chain greater (TotalOrder_greater _ _ _ TO)
                Slot.changeIfGreater Slot.changeIfGreater_from
                (m_changeIfGreater _ _ _ _ _ _ _ _ M)
                (m_changeIfGreater_from _ _ _ _ _ _ _ _ M)
                parts place Hp Hparts) as [Hic Hvc].
    destruct (gated_rows less greater inv okcell stored counts emit_some emit_none M
                greater Slot.changeIfGreater (m_changeIfGreater _ _ _ _ _ _ _ _ M)
                (all_rows parts) s0 H0 E0 Hall) as [Hi1 Hv1].
    rewrite !(emit_view less greater inv okcell stored counts emit_some emit_none M)
      by assumption.
    now rewrite Hvc, Hv1, (Ev place Hp Ep).
  - destruct (first_chain parts place Hp Hparts) as [Hic Hvc].
    destruct (first_rows less greater inv okcell stored counts emit_some emit_none M
                (all_rows parts) s0 H0 Hall) as [Hi1 Hv1].
    rewrite !(emit_view less greater inv okcell stored counts emit_some emit_none M)
      by assumption.
    now rewrite Hvc, Hv1, (Ev place Hp Ep), (Ev s0 H0 E0).
  - destruct (every_chain parts place Hp Hparts) as [Hic Hvc].
    destruct (every_rows less greater inv okcell stored counts emit_some emit_none M
                (all_rows parts) s0 H0 Hall) as [Hi1 Hv1].
    rewrite !(emit_view less greater inv okcell stored counts emit_some emit_none M)
      by assumption.
    now rewrite Hvc, Hv1, (Ev place Hp Ep), (Ev s0 H0 E0).
Qed.

Lemma any_keeps (s : D) (rows : list V) :
  Slot.has s = true -> Agg.addRows AggregateFunctionAnyData s rows = s.
Proof.
  intros Hh. unfold Agg.addRows, Agg.add.
  cbn [Data.changeIfBetter AggregateFunctionAnyData].
  induction rows as [|x rows IH]; [reflexivity|].
  cbn [fold_left]. rewrite (m_changeFirstTime _ _ _ _ _ _ _ _ M), Hh. exact IH.
Qed.

Lemma model_first_last :
  FirstLastLaw inv (accepted okcell counts) emit_some emit_none.
Proof.
  split; [|split].
  - intros s0 rows H0 E0 Hrows.
    destruct (first_rows less greater inv okcell stored counts emit_some emit_none M
                rows s0 H0 Hrows) as [Hi Hv].
    unfold Agg.insertResultInto, Agg.addRows, Agg.add.
    cbn [Data.changeIfBetter Data.insertResultInto AggregateFunctionAnyData].
    rewrite (emit_view less greater inv okcell stored counts emit_some emit_none M _ Hi), Hv.
    unfold view. rewrite E0. destruct rows; reflexivity.
  - apply any_keeps.
  - intros s rows Hs Hrows Hne.
    destruct (every_rows less greater inv okcell stored counts emit_some emit_none M
                rows s Hs Hrows) as [Hi Hv].
    unfold Agg.insertResultInto, Agg.addRows, Agg.add.
    cbn [Data.changeIfBetter Data.insertResultInto AggregateFunctionAnyLastData].
    rewrite (emit_view less greater inv okcell stored counts emit_some emit_none M _ Hi), Hv.
    destruct rows; [congruence | reflexivity].
Qed.

End Chain.

Lemma ChainMergeLaw_weaken {D V : Type} `{Slot.SingleValueData D V}
  (empty empty' : D -> Prop) (row_ok row_ok' : V -> Prop) :
  (forall s, empty' s -> empty s) -> (forall x, row_ok' x -> row_ok x) ->
  ChainMergeLaw empty row_ok -> ChainMergeLaw empty' row_ok'.
Proof.
  intros He Hr L data Hdata place s0 parts Hp H0 Hparts.
  apply (L data Hdata); [auto | auto |].
  eapply Forall_impl; [|exact Hparts]. intros part [H1 H2].
  split; [auto|]. eapply Forall_impl; [exact Hr | exact H2].
Qed.

Lemma FirstLastLaw_weaken {D V : Type} `{Slot.SingleValueData D V}
  (ok ok' : D -> Prop) (row_ok row_ok' : V -> Prop) (emit : V -> V) (default : V) :
  (forall s, ok' s -> ok s) -> (forall x, row_ok' x -> row_ok x) ->
  FirstLastLaw ok row_ok emit default -> FirstLastLaw ok' row_ok' emit default.
Proof.
  intros He Hr (L1 & L2 & L3). split; [|split].
  - intros s0 rows H0 E0 Hrows. apply L1; [auto | exact E0 |].
    eapply Forall_impl; [exact Hr | exact Hrows].
  - exact L2.
  - intros s rows Hs Hrows Hne. apply L3; [auto | | exact Hne].
    eapply Forall_impl; [exact Hr | exact Hrows].
Qed.

(* ------------------------------------------------------------------ *)
(** ** singleValueOrNull over the rows                                 *)
(* ------------------------------------------------------------------ *)

Section OrNullRows.
Context {D V : Type} `{Slot.SingleValueData D V}.
Variables (less greater equal : V -> V -> bool) (inv : D -> Prop) (okcell : V -> Prop)
  (stored : D -> V) (counts : V -> bool) (emit_some : V -> V) (emit_none : V).
Hypothesis M : SlotModel less greater inv okcell stored counts emit_some emit_none.
Hypothesis E : SlotEq inv stored.
Hypothesis equal_ok : DecidesEq equal.

Lemma or_null_rest (x : V) (rest : list V) (d : D) (n : bool) :
  inv d -> Slot.has d = true -> stored d = x ->
  Agg.addRows OrNull.data (OrNull.mk d false n) rest
  = OrNull.mk d false (n || negb (forallb (fun y => equal y x) rest)).
Proof.
  intros Hi Hh Hs. revert n.
  induction rest as [|y rest IH]; intros n.
  - cbn. now rewrite orb_false_r.
  - unfold Agg.addRows, Agg.add in *. cbn [fold_left forallb].
    cbn [Data.changeIfBetter OrNull.data] in *.
    unfold OrNull.changeIfBetter at 2.
    cbn [OrNull.first_value OrNull.base OrNull.is_null].
    assert (Hy : Slot.isEqualTo d y = equal y x).
    { destruct (equal y x) eqn:Eyx.
      - apply equal_ok in Eyx. apply (e_row inv stored E d y Hi). split; congruence.
      - destruct (Slot.isEqualTo d y) eqn:Eis; [|reflexivity].
        apply (e_row inv stored E d y Hi) in Eis. destruct Eis as [_ Hst].
        assert (equal y x = true) by (apply equal_ok; congruence). congruence. }
    rewrite Hy. destruct (equal y x); cbn [negb andb snd].
    + apply IH.
    + rewrite IH. now rewrite !orb_true_r.
Qed.

Lemma model_or_null_rows :
  OrNullRowsLaw equal inv (accepted okcell counts) emit_some.
Proof.
  intros d0 rows Hd Hrows. destruct Hrows as [|x rest [Hx Hc] Hrest]; [reflexivity|].
  destruct (m_change _ _ _ _ _ _ _ _ M d0 x Hd Hx) as (Hi & Hst & Hh).
  rewrite Hc in Hh.
  change (Agg.addRows OrNull.data (OrNull.create d0) (x :: rest))
    with (Agg.addRows OrNull.data (OrNull.mk (Slot.change d0 x) false false) rest).
  rewrite (or_null_rest x rest _ false Hi Hh Hst).
  unfold Agg.insertResultInto. cbn [Data.insertResultInto OrNull.data].
  unfold OrNull.insertResultInto. cbn [OrNull.is_null OrNull.first_value OrNull.base orb].
  rewrite orb_false_r.
  destruct (forallb (fun y => equal y x) rest); cbn [negb]; [|reflexivity].
  now rewrite (m_emit _ _ _ _ _ _ _ _ M _ Hi), Hh, Hst.
Qed.

End OrNullRows.

Lemma OrNullRowsLaw_weaken {D V : Type} `{Slot.SingleValueData D V}
  (equal : V -> V -> bool) (ok ok' : D -> Prop) (row_ok row_ok' : V -> Prop)
  (emit : V -> V) :
  (forall s, ok' s -> ok s) -> (forall x, row_ok' x -> row_ok x) ->
  OrNullRowsLaw equal ok row_ok emit -> OrNullRowsLaw equal ok' row_ok' emit.
Proof.
  intros He Hr L d0 rows Hd Hrows. apply L; [auto|].
  eapply Forall_impl; [exact Hr | exact Hrows].
Qed.

(* ------------------------------------------------------------------ *)
(** ** addManyDefaults and the batch loops                             *)
(* ------------------------------------------------------------------ *)

Lemma flagged_all {V : Type} (rows : list V) :
  map fst (filter snd (map (fun x => (x, true)) rows)) = rows.
Proof.
  induction rows as [|x rows IH]; [reflexivity|]. cbn. now rewrite IH.
Qed.

Lemma addBatchLoop_selected {S V R : Type} (data : Data.Data S V R)
  (place : S) (l : list (V * bool)) :
  Data.is_any data = false ->
  Agg.addBatchLoop data place l = Agg.addRows data place (map fst (filter snd l)).
Proof.
  intros Hany. unfold Agg.addRows. revert place.
  induction l as [|[x flag] l IH]; intros place; [reflexivity|].
  cbn [Agg.addBatchLoop filter snd]. destruct flag.
  - rewrite Hany. cbn [map fst fold_left]. apply IH.
  - apply IH.
Qed.

Lemma addBatchLoopNotNull_selected {S V R : Type} (data : Data.Data S V R)
  (place : S) (l : list (V * bool * bool)) :
  Data.is_any data = false ->
  Agg.addBatchLoopNotNull data place l
  = Agg.addRows data place
      (map (fun r => fst (fst r)) (filter (fun r => negb (snd (fst r)) && snd r) l)).
Proof.
  intros Hany. unfold Agg.addRows. revert place.
  induction l as [|[[x is_null] flag] l IH]; intros place; [reflexivity|].
  cbn [Agg.addBatchLoopNotNull filter fst snd].
  destruct (negb is_null && flag).
  - rewrite Hany. cbn [map fst fold_left]. apply IH.
  - apply IH.
Qed.

Lemma batch_selected {S V R : Type} (data : Data.Data S V R)
  (place : S) (rows : list V) (null_map : list bool) (flags : option (list bool)) :
  Data.is_any data = false ->
  Agg.addBatchSinglePlace data place rows flags
  = Agg.addRows data place (flagged rows flags)
  /\ Agg.addBatchSinglePlaceNotNull data place rows null_map flags
     = Agg.addRows data place (flagged_not_null rows null_map flags).
Proof.
  intros Hany. unfold Agg.addBatchSinglePlace, Agg.addBatchSinglePlaceNotNull.
  rewrite Hany. cbn [andb]. split.
  - rewrite (addBatchLoop_selected data _ _ Hany). unfold flagged.
    destruct flags; [reflexivity|]. now rewrite flagged_all.
  - apply (addBatchLoopNotNull_selected data _ _ Hany).
Qed.

Lemma Forall_combine_fst {A B : Type} (P : A -> Prop) (l : list A) (l' : list B) :
  Forall P l -> Forall (fun r => P (fst r)) (combine l l').
Proof.
  intros Hl. revert l'. induction Hl as [|x l Hx Hl IH]; intros l'; [constructor|].
  destruct l'; cbn [combine]; constructor; auto.
Qed.

Section Defaults.
Context {D V : Type} `{Slot.SingleValueData D V}.
Variables (less greater equal : V -> V -> bool) (inv : D -> Prop) (okcell : V -> Prop)
  (stored : D -> V) (counts : V -> bool) (emit_some : V -> V) (emit_none : V).
Hypothesis M : SlotModel less greater inv okcell stored counts emit_some emit_none.
Hypothesis E : SlotEq inv stored.
Hypothesis TO : TotalOrder less greater equal.

Lemma view_change_cell (s : D) (x : V) :
  inv s -> okcell x ->
  inv (Slot.change s x)
  /\ view stored (Slot.change s x) = if counts x then Some x else None.
Proof.
  intros Hs Hx. destruct (m_change _ _ _ _ _ _ _ _ M s x Hs Hx) as (Hi & Hst & Hh).
  split; [exact Hi|]. unfold view. now rewrite Hh, Hst.
Qed.

Lemma gated_cell (better : V -> V -> bool) (op : D -> V -> bool * D)
  (op_eq : forall s x, inv s -> okcell x ->
     op s x = if negb (Slot.has s) || better x (stored s)
              then (true, Slot.change s x) else (false, s))
  (s : D) (x : V) :
  inv s -> okcell x ->
  inv (snd (op s x))
  /\ view stored (snd (op s x))
     = match view stored s with
       | Some v => if better x v then (if counts x then Some x else None) else Some v
       | None => if counts x then Some x else None
       end.
Proof.
  intros Hs Hx. rewrite (op_eq s x Hs Hx).
  destruct (view_change_cell s x Hs Hx) as [Hi Hv].
  unfold view at 2. destruct (Slot.has s) eqn:Hh; cbn [negb orb snd].
  - destruct (better x (stored s)); cbn [snd].
    + auto.
    + split; [exact Hs|]. unfold view. now rewrite Hh.
  - auto.
Qed.

(** A row rule that reads as [step] on optional values, [step] absorbing a
    second application to the same row. *)
Lemma repeat_absorbed (op : D -> V -> bool * D) (step : option V -> V -> option V)
  (Hstep : forall s x, inv s -> okcell x ->
     inv (snd (op s x)) /\ view stored (snd (op s x)) = step (view stored s) x)
  (Hidem : forall o x, step (step o x) x = step o x)
  (s : D) (x : V) (k : nat) :
  inv s -> okcell x ->
  Slot.insertResultInto (fold_left (fun p y => snd (op p y)) (repeat x (S k)) s)
  = Slot.insertResultInto (snd (op s x)).
Proof.
  intros Hs Hx. cbn [repeat fold_left].
  destruct (Hstep s x Hs Hx) as [Hi Hv].
  assert (Hk : forall s', inv s' -> step (view stored s') x = view stored s' ->
            inv (fold_left (fun p y => snd (op p y)) (repeat x k) s')
            /\ view stored (fold_left (fun p y => snd (op p y)) (repeat x k) s')
               = view stored s').
  { induction k as [|k IH]; intros s' Hs' Hfix; [cbn; auto|].
    cbn [repeat fold_left]. destruct (Hstep s' x Hs' Hx) as [Hi' Hv'].
    rewrite Hfix in Hv'.
    destruct (IH _ Hi' ltac:(now rewrite Hv')) as [Hi'' Hv''].
    split; [exact Hi''|]. now rewrite Hv''. }
  destruct (Hk _ Hi ltac:(now rewrite Hv, Hidem)) as [Hi' Hv'].
  rewrite !(emit_view less greater inv okcell stored counts emit_some emit_none M)
    by assumption.
  now rewrite Hv'.
Qed.

Lemma gated_absorbed (better : V -> V -> bool) (o : option V) (x : V) :
  better x x = false ->
  let step o :=
    match o with
    | Some v => if better x v then (if counts x then Some x else None) else Some v
    | None => if counts x then Some x else None
    end in
  step (step o) = step o.
Proof.
  intros Hirr. cbv zeta. destruct o as [v|].
  - destruct (better x v) eqn:Exv; [|now rewrite Exv].
    destruct (counts x); [now rewrite Hirr | reflexivity].
  - destruct (counts x); [now rewrite Hirr | reflexivity].
Qed.

Lemma or_null_add_absorbed (s : OrNull.State D) (x : V) :
  inv (OrNull.base s) -> accepted okcell counts x ->
  Agg.add OrNull.data (Agg.add OrNull.data s x) x = Agg.add OrNull.data s x.
Proof.
  intros Hs [Hx Hc]. unfold Agg.add. cbn [Data.changeIfBetter OrNull.data].
  unfold OrNull.changeIfBetter at 2 3.
  destruct s as [d fv n]. cbn [OrNull.first_value OrNull.base OrNull.is_null] in *.
  destruct fv.
  - cbn [snd]. unfold OrNull.changeIfBetter.
    cbn [OrNull.first_value OrNull.base OrNull.is_null].
    destruct (m_change _ _ _ _ _ _ _ _ M d x Hs Hx) as (Hi & Hst & Hh).
    assert (Heq : Slot.isEqualTo (Slot.change d x) x = true).
    { apply (e_row inv stored E _ _ Hi). split; congruence. }
    now rewrite Heq.
  - destruct (Slot.isEqualTo d x) eqn:Eis; cbn [negb snd]; unfold OrNull.changeIfBetter;
      cbn [OrNull.first_value OrNull.base OrNull.is_null]; now rewrite Eis.
Qed.

Lemma model_many_defaults :
  ManyDefaultsLaw inv okcell (fun x => counts x = true).
Proof.
  assert (Hmax : forall n, Nat.max 1 n = S (Nat.pred (Nat.max 1 n)))
    by (intros n; destruct n; reflexivity).
  split; [|split].
  - intros data Hdata s x n Hs Hx. rewrite Hmax. cbn [In] in Hdata.
    destruct Hdata as [<-|[<-|[<-|[<-|[]]]]];
      unfold Agg.insertResultInto, Agg.addManyDefaults, Agg.addRows, Agg.add;
      cbn [Data.changeIfBetter Data.addManyDefaults Data.insertResultInto
           AggregateFunctionMinData AggregateFunctionMaxData
           AggregateFunctionAnyData AggregateFunctionAnyLastData];
      symmetry.
    + apply (repeat_absorbed Slot.changeIfLess
               (fun o y =>
                  match o with
                  | Some v => if less y v then (if counts y then Some y else None)
                              else Some v
                  | None => if counts y then Some y else None
                  end));
        [| |exact Hs|exact Hx].
      * apply gated_cell, (m_changeIfLess _ _ _ _ _ _ _ _ M).
      * intros o y. apply (gated_absorbed less o y), (less_irrefl _ _ _ TO).
    + apply (repeat_absorbed Slot.changeIfGreater
               (fun o y =>
                  match o with
                  | Some v => if greater y v then (if counts y then Some y else None)
                              else Some v
                  | None => if counts y then Some y else None
                  end));
        [| |exact Hs|exact Hx].
      * apply gated_cell, (m_changeIfGreater _ _ _ _ _ _ _ _ M).
      * intros o y. apply (gated_absorbed greater o y).
        rewrite (greater_less _ _ _ TO). apply (less_irrefl _ _ _ TO).
    + apply (repeat_absorbed Slot.changeFirstTime
               (fun o y =>
                  match o with
                  | Some v => Some v
                  | None => if counts y then Some y else None
                  end));
        [| |exact Hs|exact Hx].
      * intros s' y Hs' Hy. rewrite (m_changeFirstTime _ _ _ _ _ _ _ _ M).
        destruct (view_change_cell s' y Hs' Hy) as [Hi Hv].
        unfold view at 2. destruct (Slot.has s') eqn:Hh; cbn [negb snd].
        -- split; [exact Hs'|]. unfold view. now rewrite Hh.
        -- auto.
      * intros [v|] y; [reflexivity|]. destruct (counts y); reflexivity.
    + apply (repeat_absorbed Slot.changeEveryTime
               (fun _ y => if counts y then Some y else None));
        [| |exact Hs|exact Hx].
      * intros s' y Hs' Hy. rewrite (m_changeEveryTime _ _ _ _ _ _ _ _ M). cbn [snd].
        now apply view_change_cell.
      * reflexivity.
  - intros s x n Hs Hx Hc. rewrite Hmax.
    unfold Agg.addManyDefaults. cbn [Data.addManyDefaults OrNull.data].
    unfold OrNull.addManyDefaults.
    change (snd (OrNull.changeIfBetter s x)) with (Agg.add OrNull.data s x).
    generalize (Nat.pred (Nat.max 1 n)). intros k. unfold Agg.addRows.
    cbn [repeat fold_left].
    induction k as [|k IH]; [reflexivity|].
    cbn [repeat fold_left]. now rewrite (or_null_add_absorbed s x Hs (conj Hx Hc)).
  - intros s x n. unfold Agg.addManyDefaults, Agg.addRows.
    cbn [Data.addManyDefaults AnyHeavy.data]. revert s.
    induction n as [|n IH]; intros s; [reflexivity|].
    cbn [AnyHeavy.addManyDefaults repeat fold_left]. apply IH.
Qed.

Lemma any_batch_loop (place : D) (l : list (V * bool)) :
  inv place -> Slot.has place = false ->
  Forall (fun r => accepted okcell counts (fst r)) l ->
  Agg.addBatchLoop AggregateFunctionAnyData place l
  = Agg.addRows AggregateFunctionAnyData place (map fst (filter snd l)).
Proof.
  intros Hp Ep Hl. induction Hl as [|[x flag] l Hx Hl IH]; [reflexivity|].
  cbn [Agg.addBatchLoop filter snd]. destruct flag; [|exact IH].
  cbn [Data.is_any AggregateFunctionAnyData map fst].
  change (Agg.addRows AggregateFunctionAnyData place (x :: map fst (filter snd l)))
    with (Agg.addRows AggregateFunctionAnyData (Agg.add AggregateFunctionAnyData place x)
            (map fst (filter snd l))).
  symmetry. apply (any_keeps less greater inv okcell stored counts emit_some emit_none M).
  unfold Agg.add. cbn [Data.changeIfBetter AggregateFunctionAnyData].
  rewrite (m_changeFirstTime _ _ _ _ _ _ _ _ M), Ep. cbn [negb snd].
  destruct Hx as [Hx Hc]. cbn [fst] in *.
  destruct (m_change _ _ _ _ _ _ _ _ M place x Hp Hx) as (_ & _ & Hh). congruence.
Qed.

Lemma any_batch_loop_not_null (place : D) (l : list (V * bool * bool)) :
  inv place -> Slot.has place = false ->
  Forall (fun r => accepted okcell counts (fst (fst r))) l ->
  Agg.addBatchLoopNotNull AggregateFunctionAnyData place l
  = Agg.addRows AggregateFunctionAnyData place
      (map (fun r => fst (fst r)) (filter (fun r => negb (snd (fst r)) && snd r) l)).
Proof.
  intros Hp Ep Hl. induction Hl as [|[[x is_null] flag] l Hx Hl IH]; [reflexivity|].
  cbn [Agg.addBatchLoopNotNull filter fst snd].
  destruct (negb is_null && flag); [|exact IH].
  cbn [Data.is_any AggregateFunctionAnyData map fst].
  match goal with
  | |- _ = Agg.addRows _ _ (x :: ?rest) =>
      change (Agg.addRows AggregateFunctionAnyData place (x :: rest))
        with (Agg.addRows AggregateFunctionAnyData
                (Agg.add AggregateFunctionAnyData place x) rest)
  end.
  symmetry. apply (any_keeps less greater inv okcell stored counts emit_some emit_none M).
  unfold Agg.add. cbn [Data.changeIfBetter AggregateFunctionAnyData].
  rewrite (m_changeFirstTime _ _ _ _ _ _ _ _ M), Ep. cbn [negb snd].
  destruct Hx as [Hx Hc]. cbn [fst] in *.
  destruct (m_change _ _ _ _ _ _ _ _ M place x Hp Hx) as (_ & _ & Hh). congruence.
Qed.

Lemma model_any_batch : AnyBatchLaw inv (accepted okcell counts).
Proof.
  intros place rows null_map flags Hp Hrows _ _.
  unfold Agg.addBatchSinglePlace, Agg.addBatchSinglePlaceNotNull.
  cbn [Data.is_any Data.has AggregateFunctionAnyData andb].
  destruct (Slot.has place) eqn:Ep.
  - rewrite !(any_keeps less greater inv okcell stored counts emit_some emit_none M)
      by exact Ep.
    auto.
  - split.
    + rewrite any_batch_loop; [|exact Hp|exact Ep|].
      * unfold flagged. destruct flags; [reflexivity|]. now rewrite flagged_all.
      * destruct flags.
        -- now apply Forall_combine_fst.
        -- apply Forall_map. exact Hrows.
    + rewrite any_batch_loop_not_null; [reflexivity|exact Hp|exact Ep|].
      apply (Forall_combine_fst (fun r => accepted okcell counts (fst r))).
      now apply Forall_combine_fst.
Qed.

End Defaults.

Lemma ManyDefaultsLaw_weaken {D V : Type} `{Slot.SingleValueData D V}
  (ok ok' : D -> Prop) (row_ok row_ok' counted counted' : V -> Prop) :
  (forall s, ok' s -> ok s) -> (forall x, row_ok' x -> row_ok x) ->
  (forall x, counted' x -> counted x) ->
  ManyDefaultsLaw ok row_ok counted -> ManyDefaultsLaw ok' row_ok' counted'.
Proof.
  intros He Hr Hc (L1 & L2 & L3). split; [|split].
  - intros data Hdata s x n Hs Hx. apply (L1 data Hdata); auto.
  - intros s x n Hs Hx Hcx. apply L2; auto.
  - exact L3.
Qed.

Lemma AnyBatchLaw_weaken {D V : Type} `{Slot.SingleValueData D V}
  (ok ok' : D -> Prop) (row_ok row_ok' : V -> Prop) :
  (forall s, ok' s -> ok s) -> (forall x, row_ok' x -> row_ok x) ->
  AnyBatchLaw ok row_ok -> AnyBatchLaw ok' row_ok'.
Proof.
  intros He Hr L place rows null_map flags Hp Hrows Hn Hf.
  apply L; [auto | | exact Hn | exact Hf].
  eapply Forall_impl; [exact Hr | exact Hrows].
Qed.

(* ------------------------------------------------------------------ *)
(** ** The buffers of the string slot                                  *)
(* ------------------------------------------------------------------ *)

Module StrLayout.
Import Str StrInv.

Lemma length_memcpy (dst src : Buffer) (n : nat) :
  (n <= length src)%nat -> (n <= length dst)%nat ->
  length (memcpy dst src n) = length dst.
Proof.
  intros Hs Hd. unfold memcpy. rewrite length_app, length_firstn, length_skipn. lia.
Qed.

Lemma round_up (n : Z) :
  1 < n <= 2 ^ 30 ->
  n <= roundUpToPowerOfTwoOrZero n
  /\ exists k, 0 <= k <= 30 /\ roundUpToPowerOfTwoOrZero n = 2 ^ k.
Proof.
  intros Hn. unfold roundUpToPowerOfTwoOrZero.
  destruct (Z.leb_spec n 0); [lia|].
  split; [apply Z.log2_up_spec; lia|].
  exists (Z.log2_up n). split; [|reflexivity].
  split; [apply Z.log2_up_nonneg | apply Z.log2_up_le_pow2; lia].
Qed.

Lemma pow2_small (k : Z) : 0 <= k <= 30 -> 0 < 2 ^ k <= 2 ^ 30.
Proof.
  intros Hk. split; [apply Z.pow_pos_nonneg; lia | apply Z.pow_le_mono_r; lia].
Qed.

(** Storing [n] bytes, [n] beyond the inline buffer, in the overflow buffer:
    the block that holds them and its capacity. *)
Lemma overflow_store (s : SingleValueDataString) (src : Buffer) (n cap' : Z) :
  string_layout s -> MAX_SMALL_STRING_SIZE < n <= 2 ^ 30 ->
  n <= Z.of_nat (length src) ->
  cap' = roundUpToPowerOfTwoOrZero n ->
  let grow := capacity s <? n in
  let capacity' := if grow then cap' else capacity s in
  let large' := if grow then arena_alloc capacity' else large_data s in
  string_layout (mk n capacity' (memcpy large' src (Z.to_nat n)) (small_data s))
  /\ capacity s <= capacity'.
Proof.
  intros (Hsm & Hlg & Hcap & Hsz & Hfit) Hn Hsrc ->. cbv zeta.
  unfold MAX_SMALL_STRING_SIZE, AUTOMATIC_STORAGE_SIZE in *.
  destruct (round_up n ltac:(lia)) as (Hle & k & Hk & Hr).
  pose proof (pow2_small k Hk) as Hp.
  unfold string_layout. cbn [size capacity large_data small_data].
  destruct (Z.ltb_spec (capacity s) n) as [Hgrow|Hkeep].
  - split; [|lia]. split; [exact Hsm|]. split; [|split; [|split]].
    + unfold arena_alloc. rewrite (to_UInt64_small (roundUpToPowerOfTwoOrZero n)) by lia.
      rewrite length_memcpy; rewrite ?repeat_length; lia.
    + right. exists k. auto.
    + lia.
    + lia.
  - split; [|lia]. split; [exact Hsm|]. split; [|split; [|split]].
    + rewrite length_memcpy; lia.
    + exact Hcap.
    + lia.
    + lia.
Qed.

Lemma changeImpl_layout (s : SingleValueDataString) (r : StringRef.StringRef) :
  string_layout s -> proper r -> StringRef.size r <= 2 ^ 30 ->
  string_layout (changeImpl s r)
  /\ capacity s <= capacity (changeImpl s r)
  /\ (StringRef.size r <= MAX_SMALL_STRING_SIZE ->
      capacity (changeImpl s r) = capacity s
      /\ large_data (changeImpl s r) = large_data s).
Proof.
  intros HL Hp Hfit. unfold proper in Hp. unfold changeImpl.
  rewrite to_Int32_small by lia.
  destruct (Z.leb_spec (StringRef.size r) MAX_SMALL_STRING_SIZE) as [Hsmall|Hlarge].
  - cbn [capacity large_data]. split; [|split; [lia | auto]].
    destruct HL as (Hsm & Hlg & Hcap & Hsz & Hfit').
    unfold string_layout. cbn [size capacity large_data small_data].
    unfold MAX_SMALL_STRING_SIZE, AUTOMATIC_STORAGE_SIZE in *.
    split; [|split; [exact Hlg | split; [exact Hcap | split; lia]]].
    destruct (Z.gtb_spec (StringRef.size r) 0); [|exact Hsm].
    rewrite length_memcpy; lia.
  - unfold MAX_SMALL_STRING_SIZE, AUTOMATIC_STORAGE_SIZE in Hlarge.
    destruct (round_up (StringRef.size r) ltac:(lia)) as (Hle & k & Hk & Hr).
    pose proof (pow2_small k Hk) as Hpw.
    rewrite (to_Int32_small (roundUpToPowerOfTwoOrZero (StringRef.size r))) by lia.
    destruct (overflow_store s (StringRef.data r) (StringRef.size r) _ HL
                ltac:(unfold MAX_SMALL_STRING_SIZE, AUTOMATIC_STORAGE_SIZE; lia)
                ltac:(lia) eq_refl) as [H1 H2].
    cbv zeta in H1, H2. split; [exact H1|]. split; [exact H2|].
    unfold MAX_SMALL_STRING_SIZE, AUTOMATIC_STORAGE_SIZE. lia.
Qed.

Lemma layout_wf (s : SingleValueDataString) : string_layout s -> wf s.
Proof.
  intros (Hsm & Hlg & Hcap & Hsz & Hfit). split; [exact Hsz|].
  unfold getData. destruct (Z.leb_spec (size s) MAX_SMALL_STRING_SIZE); lia.
Qed.

Lemma layout_create (junk : Buffer) :
  Z.of_nat (length junk) = MAX_SMALL_STRING_SIZE -> string_layout (create junk).
Proof.
  intros Hj. unfold string_layout, create. cbn [size capacity large_data small_data].
  unfold MAX_SMALL_STRING_SIZE, AUTOMATIC_STORAGE_SIZE in *.
  split; [exact Hj|]. split; [reflexivity|]. split; [auto|]. lia.
Qed.

Lemma read_layout (s s' : SingleValueDataString) (buf rest : Buffer) :
  string_layout s -> read s buf = Some (s', rest) -> size s' <= 2 ^ 30 ->
  string_layout s' /\ capacity s <= capacity s'.
Proof.
  intros HL. unfold read, readBinary_Int32.
  destruct (readStrict 4 buf) as [[bs4 buf1]|]; [|discriminate].
  pose proof (StrWire.to_Int32_range (le_value bs4)) as Hr.
  set (n := to_Int32 (le_value bs4)) in *.
  pose proof HL as (Hsm & Hlg & Hcap & Hsz & Hfit).
  assert (Hkeep : forall small,
            Z.of_nat (length small) = MAX_SMALL_STRING_SIZE ->
            n <= MAX_SMALL_STRING_SIZE ->
            string_layout (mk n (capacity s) (large_data s) small)).
  { intros small Hs Hn. unfold string_layout. cbn [size capacity large_data small_data].
    split; [exact Hs|]. split; [exact Hlg|]. split; [exact Hcap|]. lia. }
  destruct (Z.geb_spec n 0) as [Hn|Hn].
  - destruct (Z.leb_spec n MAX_SMALL_STRING_SIZE) as [Hsmall|Hlarge].
    + destruct (Z.gtb_spec n 0) as [Hpos|Hzero].
      * destruct (readStrict (Z.to_nat n) buf1) as [[bs buf2]|] eqn:E; [|discriminate].
        apply StrWire.readStrict_length in E. intros [= <- _] _.
        cbn [capacity]. split; [|lia]. apply Hkeep; [|exact Hsmall].
        rewrite length_memcpy; lia.
      * intros [= <- _] _. cbn [capacity]. split; [|lia]. now apply Hkeep.
    + destruct (readStrict (Z.to_nat n) buf1) as [[bs buf2]|] eqn:E; [|discriminate].
      apply StrWire.readStrict_length in E. intros [= <- _]. cbn [size]. intros Hmax.
      assert (Hn1 : 1 < n <= 2 ^ 30)
        by (unfold MAX_SMALL_STRING_SIZE, AUTOMATIC_STORAGE_SIZE in Hlarge; lia).
      destruct (round_up n Hn1) as (Hle & k & Hk & Hrk).
      pose proof (pow2_small k Hk) as Hpw.
      assert (Hcast : to_Int32 (to_UInt32 (roundUpToPowerOfTwoOrZero n))
                      = roundUpToPowerOfTwoOrZero n).
      { unfold to_UInt32. rewrite Z.mod_small by lia. apply to_Int32_small. lia. }
      rewrite Hcast.
      apply (overflow_store s bs n _ HL ltac:(lia) ltac:(lia) eq_refl).
  - intros [= <- _] _. cbn [capacity]. split; [|lia]. apply Hkeep; [exact Hsm|].
    unfold MAX_SMALL_STRING_SIZE, AUTOMATIC_STORAGE_SIZE. lia.
Qed.

End StrLayout.

Lemma capacity_overflow (s : Str.SingleValueDataString) (r : StringRef.StringRef) :
  2 ^ 30 < StringRef.size r < 2 ^ 31 -> Str.capacity s < StringRef.size r ->
  Str.capacity (Str.changeImpl s r) = - 2 ^ 31.
Proof.
  intros Hr Hc. unfold Str.changeImpl. rewrite to_Int32_small by lia.
  unfold Str.MAX_SMALL_STRING_SIZE, Str.AUTOMATIC_STORAGE_SIZE.
  destruct (Z.leb_spec (StringRef.size r) (64 - 4 - 4 - 8)); [lia|].
  cbn [Str.capacity]. destruct (Z.ltb_spec (Str.capacity s) (StringRef.size r)); [|lia].
  unfold roundUpToPowerOfTwoOrZero.
  destruct (Z.leb_spec (StringRef.size r) 0); [lia|].
  assert (Hl : Z.log2_up (StringRef.size r) = 31).
  { apply Z.le_antisymm.
    - apply Z.log2_up_le_pow2; lia.
    - destruct (Z.le_gt_cases 31 (Z.log2_up (StringRef.size r))) as [|Hlt]; [assumption|].
      assert (StringRef.size r <= 2 ^ 30) by (apply Z.log2_up_le_pow2; lia). lia. }
  rewrite Hl. reflexivity.
Qed.

(* ------------------------------------------------------------------ *)
(** ** What a string state reads back                                  *)
(* ------------------------------------------------------------------ *)

Lemma string_write_form (s : Str.SingleValueDataString) :
  StrInv.wf s -> Str.size s < 2 ^ 31 - 1 ->
  let c := string_wire_body s in
  Str.write s = writeBinary_Int32 (Z.of_nat (length c)) ++ c
  /\ 1 <= Z.of_nat (length c) < 2 ^ 31
  /\ last c x00 = x00.
Proof.
  intros Hw Hmax. cbv zeta. unfold string_wire_body.
  destruct (write_patterns s Hw) as (Hempty & Hplain & Hzero & Hlen).
  destruct (Str.has s) eqn:Hh.
  - specialize (Hlen eq_refl). pose proof (proj1 (StrFacts.has_size s) Hh) as H1.
    destruct (Byte.eqb (last (StrInv.content s) x00) x00) eqn:Ez.
    + apply byte_eqb_spec in Ez. rewrite (Hzero eq_refl Ez), Hlen.
      split; [reflexivity|]. split; [lia | exact Ez].
    + assert (Hnz : last (StrInv.content s) x00 <> x00).
      { intros Hz. apply byte_eqb_spec in Hz. congruence. }
      rewrite (Hplain eq_refl Hnz), last_length, last_last.
      split; [|split; [lia | reflexivity]].
      f_equal. f_equal. lia.
  - rewrite (proj1 (Hempty eq_refl)). split; [reflexivity|]. simpl. split; [lia|reflexivity].
Qed.

Lemma string_read_back (target s : Str.SingleValueDataString) (rest : Buffer) :
  StrInv.wf s -> Str.size s < 2 ^ 31 - 1 ->
  exists s',
    Str.read target (Str.write s ++ rest) = Some (s', rest)
    /\ StrInv.wf s' /\ Str.has s' = true
    /\ StrInv.content s' = string_wire_body s
    /\ Str.write s' = Str.write s.
Proof.
  intros Hw Hmax.
  destruct (string_write_form s Hw Hmax) as (Hform & Hlen & Hlast). cbv zeta in *.
  rewrite Hform, <- app_assoc.
  destruct (StrWire.read_cell target (string_wire_body s) rest Hlen)
    as (s' & Hr & Hw' & Hs' & Hc').
  exists s'. split; [exact Hr|]. split; [exact Hw'|].
  assert (Hh' : Str.has s' = true) by (apply StrWire.has_of_size; lia).
  split; [exact Hh'|]. split; [exact Hc'|].
  destruct (write_patterns s' Hw') as (_ & _ & Hzero & _).
  rewrite (Hzero Hh') by (now rewrite Hc'). now rewrite Hs', Hc'.
Qed.

Lemma string_read_truncated (target s : Str.SingleValueDataString) (p q : Buffer) :
  StrInv.wf s -> Str.size s < 2 ^ 31 - 1 ->
  Str.write s = p ++ q -> q <> [] ->
  Str.read target p = None.
Proof.
  intros Hw Hmax Hpq Hq.
  destruct (string_write_form s Hw Hmax) as (Hform & Hlen & _). cbv zeta in *.
  set (c := string_wire_body s) in *. set (n := Z.of_nat (length c)) in *.
  rewrite Hform in Hpq. unfold Str.read, readBinary_Int32.
  unfold readStrict at 1.
  destruct (Nat.ltb_spec (length p) 4) as [Hshort|Hlong]; [reflexivity|].
  assert (Hhead : firstn 4 p = writeBinary_Int32 n).
  { transitivity (firstn 4 (p ++ q)).
    - rewrite firstn_app. replace (4 - length p)%nat with 0%nat by lia.
      cbn [firstn]. now rewrite app_nil_r.
    - rewrite <- Hpq. rewrite firstn_app.
      unfold writeBinary_Int32. rewrite length_le_bytes, firstn_all2
        by (rewrite length_le_bytes; lia).
      cbn [Nat.sub firstn]. now rewrite app_nil_r. }
  assert (Hbody : skipn 4 p ++ q = c).
  { transitivity (skipn 4 (p ++ q)).
    - rewrite skipn_app. replace (4 - length p)%nat with 0%nat by lia. reflexivity.
    - rewrite <- Hpq. rewrite skipn_app.
      unfold writeBinary_Int32. rewrite length_le_bytes, skipn_all2
        by (rewrite length_le_bytes; lia).
      reflexivity. }
  assert (Hlt : (length (skipn 4 p) < Z.to_nat n)%nat).
  { unfold n. rewrite Nat2Z.id, <- Hbody, length_app.
    destruct q; [congruence|]. cbn [length]. lia. }
  rewrite Hhead. unfold writeBinary_Int32. rewrite le_value_le_bytes.
  replace (to_Int32 (n mod 256 ^ Z.of_nat 4)) with n.
  2:{ change (256 ^ Z.of_nat 4) with (2 ^ 32). rewrite Z.mod_small by lia.
      symmetry. apply to_Int32_small. lia. }
  destruct (Z.geb_spec n 0); [|lia].
  assert (Hfail : readStrict (Z.to_nat n) (skipn 4 p) = None).
  { unfold readStrict. destruct (Nat.ltb_spec (length (skipn 4 p)) (Z.to_nat n)); [reflexivity|lia]. }
  rewrite Hfail.
  destruct (Z.leb_spec n Str.MAX_SMALL_STRING_SIZE); [|reflexivity].
  destruct (Z.gtb_spec n 0); [reflexivity | lia].
Qed.

(* ------------------------------------------------------------------ *)
(** ** What deserialize restores                                       *)
(* ------------------------------------------------------------------ *)

Lemma or_null_read_keeps_flags {D V : Type} `{Slot.SingleValueData D V}
  (target s' : OrNull.State D) (buf rest : Buffer) :
  Agg.deserialize OrNull.data target buf = Some (s', rest) ->
  OrNull.first_value s' = OrNull.first_value target
  /\ OrNull.is_null s' = OrNull.is_null target.
Proof.
  unfold Agg.deserialize. cbn [Data.read OrNull.data].
  destruct (Slot.read (OrNull.base target) buf) as [[d r]|]; [|discriminate].
  intros [= <- _]. auto.
Qed.

Lemma Fixed_read_back {T : Type} `{FixedType T} (okT : T -> Prop) :
  WireRoundTrip okT T_writeBinary T_readBinary ->
  forall (target s : Fixed.SingleValueDataFixed T) (rest : Buffer),
    (Fixed.has s = true -> okT (Fixed.value s)) ->
    Fixed.read target (Fixed.write s ++ rest)
    = Some (Fixed.mk (Fixed.has s)
              (if Fixed.has s then Fixed.value s else Fixed.value target), rest).
Proof.
  intros HW target [h v] rest Hs.
  unfold Fixed.read, Fixed.write, Fixed.has. cbn [Fixed.has_value Fixed.value] in *.
  rewrite <- app_assoc, readBinary_writeBinary_bool.
  destruct h; [|reflexivity]. now rewrite (HW v rest (Hs eq_refl)).
Qed.

(* ------------------------------------------------------------------ *)
(** ** Selectors                                                       *)
(* ------------------------------------------------------------------ *)

Module SelectorFacts.
Import detail.

Lemma map_seq_from {B : Type} (f : nat -> B) (a m : nat) :
  map f (seq a m) = map (fun i => f (a + i)%nat) (seq 0 m).
Proof.
  revert f a. induction m as [|m IH]; intros f a; [reflexivity|].
  cbn [seq map]. rewrite Nat.add_0_r. f_equal.
  rewrite (IH f (S a)), (IH (fun i => f (a + i)%nat) 1%nat).
  apply map_ext. intros i. f_equal. lia.
Qed.

Lemma increasing_rows (l : list Z) : increasing l -> Forall row_number l.
Proof.
  induction l as [|x l IH]; cbn [increasing]; [constructor|].
  intros (Hx & _ & Hl). constructor; auto.
Qed.

(** The last of [n + 1] increasing row numbers is at least the first plus
    [n]. *)
Lemma increasing_last (x : Z) (l : list Z) :
  increasing (x :: l) -> x + Z.of_nat (length l) <= last (x :: l) 0.
Proof.
  revert x. induction l as [|y l IH]; intros x Hinc.
  - cbn. lia.
  - destruct Hinc as (Hx & Hlt & Hl).
    change (last (x :: y :: l) 0) with (last (y :: l) 0).
    specialize (IH y Hl). inversion Hlt; subst.
    cbn [length]. lia.
Qed.

Lemma increasing_length (l : list Z) :
  increasing l -> Z.of_nat (length l) < 2 ^ 64.
Proof.
  destruct l as [|x l]; [cbn; lia|]. intros Hinc.
  pose proof (increasing_last x l Hinc) as Hlast.
  assert (Hrow : row_number (last (x :: l) 0)).
  { pose proof (increasing_rows _ Hinc) as Hall. rewrite Forall_forall in Hall.
    apply Hall. destruct (exists_last (l := x :: l) ltac:(discriminate)) as (l' & a & E).
    rewrite E, last_last. apply in_or_app. right. now left. }
  destruct Hinc as (Hx & _). unfold row_number in *. cbn [length]. lia.
Qed.

(** When it is exactly that, the row numbers are consecutive. *)
Lemma increasing_consecutive (x : Z) (l : list Z) :
  increasing (x :: l) -> last (x :: l) 0 = x + Z.of_nat (length l) ->
  x :: l = map (fun i => x + Z.of_nat i) (seq 0 (S (length l))).
Proof.
  revert x. induction l as [|y l IH]; intros x Hinc Hlast.
  - cbn. now rewrite Z.add_0_r.
  - pose proof Hinc as (Hx & Hlt & Hl).
    change (last (x :: y :: l) 0) with (last (y :: l) 0) in Hlast.
    pose proof (increasing_last y l Hl) as Hy. inversion Hlt; subst.
    cbn [length] in Hlast.
    assert (Ey : y = x + 1) by lia. subst y.
    specialize (IH (x + 1) Hl ltac:(lia)).
    cbn [seq map]. rewrite Z.add_0_r. f_equal.
    rewrite IH at 1. rewrite (map_seq_from _ 1). apply map_ext. intros i. lia.
Qed.

Lemma increasing_from (x : Z) (n : nat) :
  0 <= x -> x + Z.of_nat n < 2 ^ 64 ->
  increasing (map (fun i => x + Z.of_nat i) (seq 0 n)).
Proof.
  revert x. induction n as [|n IH]; intros x H0 Hn; [exact I|].
  cbn [seq map increasing]. rewrite (map_seq_from _ 1).
  split; [unfold row_number; lia|]. split.
  - apply Forall_map, Forall_forall. intros i _. lia.
  - replace (map (fun i => x + Z.of_nat (1 + i)) (seq 0 n))
      with (map (fun i => (x + 1) + Z.of_nat i) (seq 0 n))
      by (apply map_ext; intros i; lia).
    apply IH; lia.
Qed.

Lemma increasing_app (l r : list Z) :
  increasing (l ++ r) -> increasing l /\ increasing r.
Proof.
  induction l as [|x l IH]; cbn [app increasing]; [auto|].
  intros (Hx & Hlt & Hl). destruct (IH Hl) as [H1 H2].
  apply Forall_app in Hlt. tauto.
Qed.

Lemma increasing_firstn (n : nat) (l : list Z) : increasing l -> increasing (firstn n l).
Proof.
  intros Hl. rewrite <- (firstn_skipn n l) in Hl. now apply increasing_app in Hl.
Qed.

Lemma increasing_skipn (n : nat) (l : list Z) : increasing l -> increasing (skipn n l).
Proof.
  intros Hl. rewrite <- (firstn_skipn n l) in Hl. now apply increasing_app in Hl.
Qed.

Lemma increasing_filter (f : Z -> bool) (l : list Z) :
  increasing l -> increasing (List.filter f l).
Proof.
  induction l as [|x l IH]; cbn [increasing List.filter]; [auto|].
  intros (Hx & Hlt & Hl). destruct (f x); [|auto].
  cbn [increasing]. split; [exact Hx|]. split; [|auto].
  rewrite Forall_forall in *. intros y Hy. apply Hlt.
  now apply filter_In in Hy.
Qed.

(** The rows of a range. *)
Lemma elements_range (first second : Z) :
  0 <= first <= second -> second < 2 ^ 64 ->
  elements (of_range first second)
  = map (fun i => first + Z.of_nat i) (seq 0 (Z.to_nat (second - first))).
Proof.
  intros H1 H2. unfold elements, of_range. cbn [data].
  rewrite to_UInt64_small by lia.
  apply map_ext_in. intros i Hi%in_seq. apply to_UInt64_small. lia.
Qed.

Lemma size_elements (s : Selector) :
  selector_ok s -> size s = Z.of_nat (length (elements s)).
Proof.
  unfold selector_ok, size, elements. destruct s as [[[first second]|sel]]; cbn [data].
  - intros [H1 H2]. rewrite length_map, length_seq, to_UInt64_small by lia. lia.
  - reflexivity.
Qed.

Lemma size_bound (s : Selector) : selector_ok s -> 0 <= size s < 2 ^ 64.
Proof.
  intros Hs. unfold selector_ok, size in *. destruct s as [[[first second]|sel]]; cbn [data] in *.
  - rewrite to_UInt64_small by lia. lia.
  - pose proof (increasing_length sel Hs). lia.
Qed.

Lemma elements_increasing (s : Selector) : selector_ok s -> increasing (elements s).
Proof.
  destruct s as [[[first second]|sel]]; unfold selector_ok; cbn [data].
  - intros [H1 H2]. change (mkSelector (Data_Range (first, second)))
      with (of_range first second).
    rewrite elements_range by lia. apply increasing_from; lia.
  - auto.
Qed.

(** [operator[]] is the lookup in the selected rows, and throws from the size
    on. *)
Lemma get_elements (s : Selector) (idx : Z) :
  selector_ok s -> 0 <= idx ->
  get s idx = if idx <? size s then inr (nth (Z.to_nat idx) (elements s) 0)
              else inl (LOGICAL_ERROR idx (size s)).
Proof.
  intros Hs H0. unfold get.
  destruct (Z.geb_spec idx (size s)) as [Hge|Hlt];
    destruct (Z.ltb_spec idx (size s)); try lia; [reflexivity|].
  destruct s as [[[first second]|sel]]; unfold selector_ok, size in *; cbn [data] in *.
  - destruct Hs as [H1 H2]. rewrite to_UInt64_small in Hlt by lia.
    change (mkSelector (Data_Range (first, second))) with (of_range first second).
    rewrite elements_range by lia.
    rewrite (nth_indep _ 0 ((fun i => first + Z.of_nat i) 0%nat))
      by (rewrite length_map, length_seq; lia).
    rewrite (map_nth (fun i => first + Z.of_nat i)), seq_nth by lia.
    rewrite to_UInt64_small by lia. f_equal. lia.
  - reflexivity.
Qed.

(** The converting constructor keeps increasing row numbers as they are. *)
Lemma of_selector_elements (sel : list Z) :
  increasing sel ->
  selector_ok (of_selector sel) /\ elements (of_selector sel) = sel.
Proof.
  intros Hinc. unfold of_selector, initializeFromSelector.
  destruct sel as [|front rest].
  - unfold selector_ok, elements. cbn. split; [lia | reflexivity].
  - pose proof (increasing_last front rest Hinc) as Hlast.
    pose proof (increasing_length _ Hinc) as Hlen.
    assert (Hrow : row_number (last (front :: rest) 0)).
    { pose proof (increasing_rows _ Hinc) as Hall. rewrite Forall_forall in Hall.
      apply Hall. destruct (exists_last (l := front :: rest) ltac:(discriminate))
        as (l' & a & E).
      rewrite E, last_last. apply in_or_app. right. now left. }
    pose proof Hinc as (Hf & _). unfold row_number in *.
    cbn [length] in *. rewrite Nat2Z.inj_succ in *.
    rewrite (to_UInt64_small (front + Z.succ (Z.of_nat (length rest)) - 1)) by lia.
    destruct (Z.eqb_spec (last (front :: rest) 0)
                (front + Z.succ (Z.of_nat (length rest)) - 1)) as [Hc|Hn].
    + rewrite to_UInt64_small by lia.
      change (mkSelector (Data_Range (front, front + Z.succ (Z.of_nat (length rest)))))
        with (of_range front (front + Z.succ (Z.of_nat (length rest)))).
      split; [unfold selector_ok; cbn [of_range data]; lia|].
      rewrite elements_range by lia.
      replace (Z.to_nat (front + Z.succ (Z.of_nat (length rest)) - front))
        with (S (length rest)) by lia.
      symmetry. apply increasing_consecutive; [exact Hinc | lia].
    + split; [exact Hinc | reflexivity].
Qed.

Lemma nth_skipn_cons (l : list Z) (i : nat) :
  (i < length l)%nat -> skipn i l = nth i l 0 :: skipn (S i) l.
Proof.
  revert i. induction l as [|x l IH]; intros i Hi; [cbn in Hi; lia|].
  destruct i as [|i]; [reflexivity|]. cbn [skipn nth]. cbn [skipn] in IH.
  rewrite IH by (cbn in Hi; lia). reflexivity.
Qed.

(** One turn of a loop over the iterators of a selector. *)
Lemma iterator_step (s : Selector) (i : Z) :
  selector_ok s -> 0 <= i < size s ->
  neq (mkIterator s i) (end_ s) = true
  /\ deref (mkIterator s i) = inr (nth (Z.to_nat i) (elements s) 0)
  /\ incr (mkIterator s i) = inr (mkIterator s (i + 1))
  /\ skipn (Z.to_nat i) (elements s)
     = nth (Z.to_nat i) (elements s) 0 :: skipn (Z.to_nat (i + 1)) (elements s).
Proof.
  intros Hs Hi. pose proof (size_bound s Hs) as Hb.
  unfold neq, deref, incr, end_. cbn [idx selector].
  destruct (Z.eqb_spec i (size s)); [lia|].
  destruct (Z.geb_spec i (size s)); [lia|].
  rewrite (get_elements s i Hs) by lia.
  destruct (Z.ltb_spec i (size s)); [|lia].
  rewrite to_UInt64_small by lia.
  repeat split.
  replace (Z.to_nat (i + 1)) with (S (Z.to_nat i)) by lia.
  apply nth_skipn_cons. rewrite (size_elements s Hs) in Hi. lia.
Qed.

Lemma iterator_end (s : Selector) : neq (end_ s) (end_ s) = false.
Proof. unfold neq. now rewrite Z.eqb_refl. Qed.

(** The loop over a selector visits the selected rows in order and does not
    throw. *)
Lemma for_each_from {A : Type} (s : Selector) (body : A -> Z -> A)
  (fuel : nat) (i : Z) (acc : A) :
  selector_ok s -> 0 <= i <= size s -> (Z.to_nat (size s - i) <= fuel)%nat ->
  for_each fuel (mkIterator s i) (end_ s) body acc
  = Some (inr (fold_left body (skipn (Z.to_nat i) (elements s)) acc)).
Proof.
  intros Hs. revert i acc.
  induction fuel as [|fuel IH]; intros i acc Hi Hfuel.
  - assert (i = size s) by lia. subst i.
    cbn [for_each]. change (mkIterator s (size s)) with (end_ s).
    rewrite iterator_end, (size_elements s Hs), Nat2Z.id, skipn_all. reflexivity.
  - destruct (Z.eq_dec i (size s)) as [->|Hne].
    + cbn [for_each]. change (mkIterator s (size s)) with (end_ s).
      rewrite iterator_end, (size_elements s Hs), Nat2Z.id, skipn_all. reflexivity.
    + destruct (iterator_step s i Hs ltac:(lia)) as (Hn & Hd & Hin & Hsk).
      cbn [for_each]. rewrite Hn, Hd, Hin, Hsk. cbn [fold_left].
      apply IH; lia.
Qed.

Lemma find_from (s : Selector) (value : Z) (fuel : nat) (i : Z) :
  selector_ok s -> 0 <= i <= size s -> (Z.to_nat (size s - i) <= fuel)%nat ->
  exists it,
    find fuel (mkIterator s i) (end_ s) value = Some (inr it)
    /\ neq it (end_ s)
       = existsb (fun x => x =? value) (skipn (Z.to_nat i) (elements s)).
Proof.
  intros Hs. revert i.
  induction fuel as [|fuel IH]; intros i Hi Hfuel.
  - assert (i = size s) by lia. subst i.
    cbn [find]. change (mkIterator s (size s)) with (end_ s).
    rewrite iterator_end. exists (end_ s). split; [reflexivity|].
    now rewrite iterator_end, (size_elements s Hs), Nat2Z.id, skipn_all.
  - destruct (Z.eq_dec i (size s)) as [->|Hne].
    + cbn [find]. change (mkIterator s (size s)) with (end_ s).
      rewrite iterator_end. exists (end_ s). split; [reflexivity|].
      now rewrite iterator_end, (size_elements s Hs), Nat2Z.id, skipn_all.
    + destruct (iterator_step s i Hs ltac:(lia)) as (Hn & Hd & Hin & Hsk).
      cbn [find]. rewrite Hn, Hd, Hsk. cbn [existsb].
      destruct (nth (Z.to_nat i) (elements s) 0 =? value).
      * exists (mkIterator s i). split; [reflexivity | exact Hn].
      * rewrite Hin. cbn [orb]. apply IH; lia.
Qed.

Lemma fold_copy_if (f : Z -> bool) (l acc : list Z) :
  fold_left (fun new_selector idx => if f idx then new_selector ++ [idx] else new_selector)
    l acc
  = acc ++ List.filter f l.
Proof.
  revert acc. induction l as [|x l IH]; intros acc; cbn [fold_left List.filter].
  - now rewrite app_nil_r.
  - rewrite IH. destruct (f x); [|reflexivity]. now rewrite <- app_assoc.
Qed.

(** [split]: the first [num_rows] selected rows and the others. *)
Lemma split_elements (s : Selector) (num_rows : Z) :
  selector_ok s -> 0 <= num_rows ->
  if num_rows >? size s
  then split s num_rows = inl (LOGICAL_ERROR num_rows (size s))
  else exists a b,
      split s num_rows = inr (a, b)
      /\ selector_ok a /\ selector_ok b
      /\ elements a = firstn (Z.to_nat num_rows) (elements s)
      /\ elements b = skipn (Z.to_nat num_rows) (elements s).
Proof.
  intros Hs H0. unfold split.
  destruct (Z.gtb_spec num_rows (size s)) as [Hgt|Hle]; [reflexivity|].
  destruct s as [[[first second]|sel]].
  - pose proof Hs as [H1 H2]. unfold selector_ok in H1, H2. cbn [data] in *.
    assert (Hsz : size (mkSelector (Data_Range (first, second))) = second - first).
    { unfold size. cbn [data]. apply to_UInt64_small. lia. }
    rewrite Hsz in *.
    change (mkSelector (Data_Range (first, second))) with (of_range first second).
    assert (Hnil : selector_ok of_nothing /\ elements of_nothing = [])
      by (unfold selector_ok, of_nothing, elements; cbn; split; [lia | reflexivity]).
    destruct (Z.eqb_spec num_rows 0) as [->|Hn0].
    + exists of_nothing, (of_range first second).
      split; [reflexivity|]. split; [apply Hnil|]. split; [exact Hs|].
      split; [apply Hnil | reflexivity].
    + destruct (Z.eqb_spec num_rows (second - first)) as [->|Hnn].
      * exists (of_range first second), of_nothing.
        split; [reflexivity|]. split; [exact Hs|]. split; [apply Hnil|].
        rewrite elements_range by lia.
        rewrite firstn_all2, skipn_all2 by (rewrite length_map, length_seq; lia).
        split; [reflexivity | apply Hnil].
      * rewrite to_UInt64_small by lia.
        exists (of_range first (first + num_rows)), (of_range (first + num_rows) second).
        split; [reflexivity|].
        split; [unfold selector_ok; cbn [of_range data]; lia|].
        split; [unfold selector_ok; cbn [of_range data]; lia|].
        rewrite !elements_range by lia.
        replace (Z.to_nat (second - first))
          with (Z.to_nat num_rows + Z.to_nat (second - (first + num_rows)))%nat by lia.
        rewrite seq_app, map_app.
        rewrite firstn_app, skipn_app, length_map, length_seq, Nat.sub_diag.
        rewrite firstn_all2, skipn_all2 by (rewrite length_map, length_seq; lia).
        cbn [firstn skipn]. rewrite app_nil_r. cbn [app Nat.add].
        split.
        -- f_equal. f_equal. lia.
        -- rewrite (map_seq_from _ (0 + Z.to_nat num_rows)).
           apply map_ext. intros i. lia.
  - unfold selector_ok in Hs. cbn [data] in Hs.
    destruct (of_selector_elements (firstn (Z.to_nat num_rows) sel)
                (increasing_firstn _ _ Hs)) as [Ha Ea].
    destruct (of_selector_elements (skipn (Z.to_nat num_rows) sel)
                (increasing_skipn _ _ Hs)) as [Hb Eb].
    eexists _, _. split; [reflexivity|]. auto.
Qed.

End SelectorFacts.

Lemma contains_elements {Block : Type} (fuel : nat)
  (sb : ScatteredBlock.ScatteredBlock Block) (idx : Z) :
  selector_ok (ScatteredBlock.selector sb) ->
  (Z.to_nat (ScatteredBlock.rows sb) <= fuel)%nat ->
  exists b,
    ScatteredBlock.contains fuel sb idx = Some (inr b)
    /\ (b = true <-> In idx (elements (ScatteredBlock.selector sb))).
Proof.
  intros Hs Hfuel. unfold ScatteredBlock.contains, ScatteredBlock.rows in *.
  pose proof (SelectorFacts.size_bound _ Hs) as Hb.
  destruct (SelectorFacts.find_from (ScatteredBlock.selector sb) idx fuel 0 Hs
              ltac:(lia) ltac:(rewrite Z.sub_0_r; exact Hfuel)) as (it & Hf & Hn).
  change (detail.mkIterator (ScatteredBlock.selector sb) 0)
    with (detail.begin_ (ScatteredBlock.selector sb)) in Hf.
  rewrite Hf. eexists. split; [reflexivity|].
  rewrite Hn. cbn [Z.to_nat skipn]. rewrite existsb_exists. split.
  - intros (x & Hx & Ex). apply Z.eqb_eq in Ex. now subst.
  - intros Hin. exists idx. split; [exact Hin | apply Z.eqb_refl].
Qed.

Lemma filter_elements {Block : Type} (fuel : nat)
  (sb : ScatteredBlock.ScatteredBlock Block) (mask : list Z) :
  selector_ok (ScatteredBlock.selector sb) ->
  (Z.to_nat (ScatteredBlock.rows sb) <= fuel)%nat ->
  exists sb',
    ScatteredBlock.filter fuel sb mask = Some (inr sb')
    /\ ScatteredBlock.block sb' = ScatteredBlock.block sb
    /\ selector_ok (ScatteredBlock.selector sb')
    /\ elements (ScatteredBlock.selector sb')
       = List.filter (fun idx => negb (nth (Z.to_nat idx) mask 0 =? 0))
           (elements (ScatteredBlock.selector sb)).
Proof.
  intros Hs Hfuel. unfold ScatteredBlock.filter, ScatteredBlock.rows in *.
  pose proof (SelectorFacts.size_bound _ Hs) as Hb.
  change (detail.begin_ (ScatteredBlock.selector sb))
    with (detail.mkIterator (ScatteredBlock.selector sb) 0).
  rewrite (SelectorFacts.for_each_from (ScatteredBlock.selector sb) _ fuel 0 [] Hs)
    by (rewrite ?Z.sub_0_r; lia).
  cbn [Z.to_nat skipn].
  rewrite (SelectorFacts.fold_copy_if
             (fun idx => negb (nth (Z.to_nat idx) mask 0 =? 0))).
  cbn [app].
  destruct (SelectorFacts.of_selector_elements
              (List.filter (fun idx => negb (nth (Z.to_nat idx) mask 0 =? 0))
                 (elements (ScatteredBlock.selector sb)))
              (SelectorFacts.increasing_filter _ _
                 (SelectorFacts.elements_increasing _ Hs))) as [Hok Hel].
  eexists. split; [reflexivity|]. cbn [ScatteredBlock.block ScatteredBlock.selector].
  auto.
Qed.

(* ------------------------------------------------------------------ *)
(** ** Min and max emit a best row                                     *)
(* ------------------------------------------------------------------ *)

Lemma min_max_best {D V : Type} `{Slot.SingleValueData D V}
  (less greater equal : V -> V -> bool) (default : V)
  (empty : D -> Prop) (row_ok : V -> Prop) :
  TotalOrder less greater equal ->
  MinMaxFoldLaw less greater default empty row_ok ->
  MinMaxBestLaw less greater empty row_ok.
Proof.
  intros TO L s0 rows H0 Hrows Hne.
  destruct (L s0 rows H0 Hrows) as [Hmin Hmax]. rewrite Hmin, Hmax.
  destruct rows as [|x xs]; [congruence|]. cbn [fold_best]. split.
  - apply fold_best2_is_best, (TotalOrder_less _ _ _ TO).
  - apply fold_best2_is_best, (TotalOrder_greater _ _ _ TO).
Qed.

(* ------------------------------------------------------------------ *)
(** ** The string slot within its layout                               *)
(* ------------------------------------------------------------------ *)

Lemma cell_small_fits (x : Buffer) : cell_small x -> cell_fits x.
Proof. unfold cell_small, cell_fits. lia. Qed.

Lemma string_ok_wf (s : Str.SingleValueDataString) : string_ok s -> StrInv.wf s.
Proof. intros [HL _]. now apply StrLayout.layout_wf. Qed.

Lemma string_ok_empty (s : Str.SingleValueDataString) :
  string_layout s -> Str.has s = false -> string_ok s.
Proof.
  intros HL Hh. split; [exact HL|]. apply StrFacts.has_false_size in Hh. lia.
Qed.

Lemma string_ok_create (junk : Buffer) :
  Z.of_nat (length junk) = Str.MAX_SMALL_STRING_SIZE -> string_ok (Str.create junk).
Proof.
  intros Hj. apply string_ok_empty; [now apply StrLayout.layout_create | reflexivity].
Qed.

Lemma string_ok_change (s : Str.SingleValueDataString) (x : Buffer) :
  string_ok s -> cell_small x -> string_ok (Str.change s x).
Proof.
  intros [HL _] Hx. split.
  - apply (StrLayout.changeImpl_layout s (StringRef.of_cell x) HL
             (StrFacts.proper_of_cell x) Hx).
  - destruct (StrFacts.change_stores s x (cell_small_fits x Hx)) as (_ & Hs & _).
    rewrite Hs. exact Hx.
Qed.

Lemma string_ok_change_from (s t : Str.SingleValueDataString) :
  string_ok s -> string_ok t -> Str.has t = true -> string_ok (Str.change_from s t).
Proof.
  intros [HL _] [HT Hsz] Hh.
  pose proof (StrLayout.layout_wf t HT) as Hw.
  pose proof (StrFacts.proper_getStringRef t Hw Hh) as Hp.
  assert (Hs : StringRef.size (Str.getStringRef t) = Str.size t).
  { unfold Str.getStringRef. cbn [StringRef.size].
    apply to_UInt64_small. apply StrFacts.has_size in Hh. lia. }
  split.
  - apply (StrLayout.changeImpl_layout s (Str.getStringRef t) HL Hp). lia.
  - destruct (StrFacts.change_from_stores s t Hw Hh) as (_ & Hs' & _). lia.
Qed.

(** The string slot read as an optional value, for the states in their
    layout and the cells of at most 2^30 bytes. *)
Lemma String_model_bounded :
  SlotModel (D := Str.SingleValueDataString) cell_less cell_greater
    string_ok cell_small StrInv.content
    (fun x => 1 <=? Z.of_nat (length x)) StrInv.strip [].
Proof.
  pose proof String_model as M. split.
  - intros s Hs. apply (m_emit _ _ _ _ _ _ _ _ M), string_ok_wf, Hs.
  - intros s Hs. apply (m_stored_counts _ _ _ _ _ _ _ _ M), string_ok_wf, Hs.
  - intros s x Hs Hx.
    destruct (m_change _ _ _ _ _ _ _ _ M s x (string_ok_wf s Hs) (cell_small_fits x Hx))
      as (_ & Hst & Hh).
    split; [now apply string_ok_change | auto].
  - intros s t Hs Ht Hh.
    destruct (m_change_from _ _ _ _ _ _ _ _ M s t (string_ok_wf s Hs) (string_ok_wf t Ht) Hh)
      as (_ & Hst & Hh').
    split; [now apply string_ok_change_from | auto].
  - intros s Hs Hh. unfold cell_small.
    rewrite (StrFacts.length_content s (string_ok_wf s Hs))
      by (apply StrFacts.has_size in Hh; lia).
    apply Hs.
  - apply (m_changeFirstTime _ _ _ _ _ _ _ _ M).
  - apply (m_changeFirstTime_from _ _ _ _ _ _ _ _ M).
  - apply (m_changeEveryTime _ _ _ _ _ _ _ _ M).
  - apply (m_changeEveryTime_from _ _ _ _ _ _ _ _ M).
  - intros s x Hs Hx.
    apply (m_changeIfLess _ _ _ _ _ _ _ _ M); [now apply string_ok_wf | now apply cell_small_fits].
  - intros s t Hs Ht.
    apply (m_changeIfLess_from _ _ _ _ _ _ _ _ M); now apply string_ok_wf.
  - intros s x Hs Hx.
    apply (m_changeIfGreater _ _ _ _ _ _ _ _ M); [now apply string_ok_wf | now apply cell_small_fits].
  - intros s t Hs Ht.
    apply (m_changeIfGreater_from _ _ _ _ _ _ _ _ M); now apply string_ok_wf.
Qed.

Lemma String_eq_bounded :
  SlotEq (D := Str.SingleValueDataString) string_ok StrInv.content.
Proof.
  split.
  - intros s x Hs. apply (e_row _ _ String_eq), string_ok_wf, Hs.
  - intros s t Hs Ht. apply (e_from _ _ String_eq); now apply string_ok_wf.
Qed.

(** Reading back, into a state in its layout, a string state written with a
    length of at most 2^30. *)
Lemma string_read_back_bounded (target s : Str.SingleValueDataString) (rest : Buffer) :
  string_layout target -> StrInv.wf s -> Str.size s < 2 ^ 30 ->
  exists s',
    Str.read target (Str.write s ++ rest) = Some (s', rest)
    /\ string_ok s' /\ Str.has s' = true
    /\ StrInv.content s' = string_wire_body s
    /\ Str.write s' = Str.write s
    /\ Str.insertResultInto s' = Str.insertResultInto s.
Proof.
  intros HT Hw Hmax.
  destruct (string_read_back target s rest Hw ltac:(lia))
    as (s' & Hr & Hw' & Hh' & Hc' & Hwr).
  destruct (StrWire.slot_round_trip target s rest Hw ltac:(lia)) as (s'' & Hr'' & He).
  rewrite Hr in Hr''. injection Hr'' as <-.
  exists s'. split; [exact Hr|].
  assert (Hsz : Str.size s' <= 2 ^ 30).
  { pose proof (StrFacts.length_content s' Hw') as Hl.
    rewrite Hc' in Hl. apply StrFacts.has_size in Hh'.
    rewrite <- Hl by lia. unfold string_wire_body.
    destruct (Str.has s) eqn:Hh; [|simpl; lia].
    pose proof (StrFacts.length_content s Hw) as Hls.
    apply StrFacts.has_size in Hh.
    destruct (Byte.eqb (last (StrInv.content s) x00) x00);
      rewrite ?last_length; lia. }
  destruct (StrLayout.read_layout target s' _ rest HT Hr Hsz) as [HL' _].
  split; [split; assumption|]. auto.
Qed.

(* ================================================================== *)
(** * The properties of the specification                              *)
(* ================================================================== *)

(** ** Merging empty states (C1) *)

(** Claim C1 fails for the singleValueOrNull policy.  Its merge takes the
    [first_value] branch whatever the source holds: merging a just created
    state into a just created state clears [first_value] and calls
    [change(to)], whose stated assumption is that [to] has a value.  The
    destination then emits a non-null cell where a never-populated state
    emits NULL; over Int64 it emits the indeterminate [value] of the
    source. *)
Theorem C1_or_null_merge_of_empty_states :
  (forall (D V : Type) (slot : Slot.SingleValueData D V) (d1 d2 : D),
     let dst := OrNull.create d1 in
     let src := OrNull.create d2 in
     Agg.insertResultInto OrNull.data dst = None
     /\ OrNull.first_value (Agg.merge OrNull.data dst src) = false
     /\ Agg.insertResultInto OrNull.data (Agg.merge OrNull.data dst src)
        = Some (Slot.insertResultInto (Slot.change_from d1 d2)))
  /\ (let dst := OrNull.create (Fixed.create 0) in
      let src := OrNull.create (Fixed.create 0) in
      Agg.merge OrNull.data dst src = OrNull.mk (Fixed.mk true 0) false false
      /\ Agg.insertResultInto OrNull.data (Agg.merge OrNull.data dst src) = Some 0)
  /\ (let dst := OrNull.create (Str.create (repeat x00 48)) in
      let src := OrNull.create (Str.create (repeat x00 48)) in
      Str.size (OrNull.base (Agg.merge OrNull.data dst src)) = -1
      /\ Agg.insertResultInto OrNull.data (Agg.merge OrNull.data dst src) = Some []).
Proof.
  split; [|split].
  - intros D V slot d1 d2. cbv zeta. repeat split.
  - cbv zeta. split; reflexivity.
  - cbv zeta. split; vm_compute; reflexivity.
Qed.

(** ** The merge of anyHeavy (C2) *)

(** Claim C2, as stated, fails where the destination adopts the value of the
    source: the destination keeps its own counter.  An empty destination
    merged with the value 7 counted 3 times holds 7 with the counter 0, and a
    destination holding 5 once merged with the same source holds 7 with the
    counter 1. *)
Lemma C2_counterexample_counter_kept :
  (let dst := AnyHeavy.create (Fixed.create 0) in
   let src := AnyHeavy.mk (Fixed.mk true 7) 3 in
   Slot.isEqualTo_from (AnyHeavy.base dst) (AnyHeavy.base src) = false
   /\ Slot.has (AnyHeavy.base dst) = false
   /\ Agg.merge AnyHeavy.data dst src = AnyHeavy.mk (Fixed.mk true 7) 0
   /\ AnyHeavy.counter (Agg.merge AnyHeavy.data dst src) <> AnyHeavy.counter src)
  /\ (let dst := AnyHeavy.mk (Fixed.mk true 5) 1 in
      let src := AnyHeavy.mk (Fixed.mk true 7) 3 in
      Slot.isEqualTo_from (AnyHeavy.base dst) (AnyHeavy.base src) = false
      /\ AnyHeavy.counter dst < AnyHeavy.counter src
      /\ Agg.merge AnyHeavy.data dst src = AnyHeavy.mk (Fixed.mk true 7) 1
      /\ AnyHeavy.counter (Agg.merge AnyHeavy.data dst src) <> AnyHeavy.counter src).
Proof.
  cbv zeta. repeat split; try reflexivity; vm_compute; discriminate.
Qed.

(** Claim C2, amended: over any slot type, merging [src] into [dst] under
    anyHeavy: if [dst] holds a value equal to the value of [src], the counter
    of [dst] becomes the sum of the two counters (as a UInt64); otherwise, if
    [dst] is empty and [src] is not, or the counter of [dst] is less than the
    counter of [src], [dst] takes the value of [src] by [change] and keeps
    its own counter; otherwise [dst] keeps its value and its counter becomes
    the counter of [dst] minus the counter of [src]. *)
Theorem C2_any_heavy_merge {D V : Type} `{Slot.SingleValueData D V}
  (dst src : AnyHeavy.State D) :
  let merged := Agg.merge AnyHeavy.data dst src in
  (Slot.isEqualTo_from (AnyHeavy.base dst) (AnyHeavy.base src) = true ->
     AnyHeavy.base merged = AnyHeavy.base dst
     /\ AnyHeavy.counter merged
        = (AnyHeavy.counter dst + AnyHeavy.counter src) mod 2 ^ 64)
  /\ (Slot.isEqualTo_from (AnyHeavy.base dst) (AnyHeavy.base src) = false ->
      (Slot.has (AnyHeavy.base dst) = false /\ Slot.has (AnyHeavy.base src) = true)
      \/ AnyHeavy.counter dst < AnyHeavy.counter src ->
      AnyHeavy.base merged = Slot.change_from (AnyHeavy.base dst) (AnyHeavy.base src)
      /\ AnyHeavy.counter merged = AnyHeavy.counter dst)
  /\ (Slot.isEqualTo_from (AnyHeavy.base dst) (AnyHeavy.base src) = false ->
      ~ ((Slot.has (AnyHeavy.base dst) = false /\ Slot.has (AnyHeavy.base src) = true)
         \/ AnyHeavy.counter dst < AnyHeavy.counter src) ->
      AnyHeavy.base merged = AnyHeavy.base dst
      /\ AnyHeavy.counter merged
         = (AnyHeavy.counter dst - AnyHeavy.counter src) mod 2 ^ 64
      /\ (0 <= AnyHeavy.counter src -> AnyHeavy.counter dst < 2 ^ 64 ->
          AnyHeavy.counter merged = AnyHeavy.counter dst - AnyHeavy.counter src)).
Proof.
  cbv zeta. unfold Agg.merge. cbn [Data.changeIfBetter_from AnyHeavy.data].
  unfold AnyHeavy.changeIfBetter_from, to_UInt64.
  destruct (Slot.isEqualTo_from (AnyHeavy.base dst) (AnyHeavy.base src)) eqn:Heq.
  - cbn [snd AnyHeavy.base AnyHeavy.counter]. split_cases.
  - destruct (Slot.has (AnyHeavy.base dst)) eqn:Hd;
      destruct (Slot.has (AnyHeavy.base src)) eqn:Hs;
      destruct (Z.ltb_spec (AnyHeavy.counter dst) (AnyHeavy.counter src)) as [Hlt|Hge];
      cbn [negb andb orb snd AnyHeavy.base AnyHeavy.counter];
      (split; [discriminate|]); split; intros _ Hc;
      try (exfalso; apply Hc; auto; fail);
      try (destruct Hc as [[? ?]|?]; (discriminate || lia));
      repeat split; try reflexivity;
      intros H0 Hmax; apply Z.mod_small; lia.
Qed.

Lemma C2_any_heavy_merge_witness :
  AnyHeavy.counter
    (Agg.merge AnyHeavy.data (AnyHeavy.mk (Fixed.mk true 5) 4)
                            (AnyHeavy.mk (Fixed.mk true 7) 3)) = 1
  /\ AnyHeavy.counter
       (Agg.merge AnyHeavy.data (AnyHeavy.mk (Fixed.mk true 5) 1)
                               (AnyHeavy.mk (Fixed.mk true 7) 3)) = 1.
Proof.
  split.
  - refine (proj2 (proj2 (proj2 (proj2 (C2_any_heavy_merge
              (AnyHeavy.mk (Fixed.mk true 5) 4) (AnyHeavy.mk (Fixed.mk true 7) 3)))
              eq_refl _)) _ _).
    + cbn. intros [[Hd _]|Hlt]; [discriminate | lia].
    + cbn. lia.
    + cbn. lia.
  - refine (proj2 (proj1 (proj2 (C2_any_heavy_merge
              (AnyHeavy.mk (Fixed.mk true 5) 1) (AnyHeavy.mk (Fixed.mk true 7) 3)))
              eq_refl _)).
    right. cbn. lia.
Defined.

(** ** The bytes a string state is written as (C3) *)

(** Claim C3: a string state is written as one of three byte patterns: an
    empty state as the Int32 length 1 and one zero byte; a state whose last
    stored byte is not zero as the length [size + 1], the [size] stored bytes
    and an appended zero byte; a state whose last stored byte is zero as the
    length [size] and the [size] stored bytes. *)
Theorem C3_string_write_patterns (s : Str.SingleValueDataString) :
  StrInv.wf s ->
  (Str.has s = false ->
     Str.write s = writeBinary_Int32 1 ++ [x00]
     /\ Str.write s = [x01; x00; x00; x00; x00])
  /\ (Str.has s = true -> last (StrInv.content s) x00 <> x00 ->
      Str.write s
      = writeBinary_Int32 (Str.size s + 1) ++ StrInv.content s ++ [x00])
  /\ (Str.has s = true -> last (StrInv.content s) x00 = x00 ->
      Str.write s = writeBinary_Int32 (Str.size s) ++ StrInv.content s)
  /\ (Str.has s = true -> Z.of_nat (length (StrInv.content s)) = Str.size s).
Proof. exact (write_patterns s). Qed.

Lemma C3_string_write_patterns_witness :
  Str.write (Str.change (Str.create (repeat x00 48)) [x61; x62; x63])
  = writeBinary_Int32 4 ++ [x61; x62; x63] ++ [x00].
Proof.
  apply (proj1 (proj2 (C3_string_write_patterns
                         (Str.change (Str.create (repeat x00 48)) [x61; x62; x63])
                         (proj1 (StrFacts.change_stores _ [x61; x62; x63]
                                   ltac:(unfold cell_fits; simpl; lia)))))).
  - reflexivity.
  - simpl. discriminate.
Defined.

(** ** Serialize, then deserialize (C4) *)

(** Claim C4, as stated, fails for the singleValueOrNull policy, which
    writes and reads the wrapped slot only: a state that has seen the one
    value 5 emits 5, and the state read back from its bytes emits NULL. *)
Lemma C4_counterexample_or_null :
  let fresh := OrNull.create (Fixed.create 0) in
  let s := Agg.add OrNull.data fresh 5 in
  Agg.insertResultInto OrNull.data s = Some 5
  /\ exists s',
       Agg.deserialize OrNull.data fresh (Agg.serialize OrNull.data s) = Some (s', [])
       /\ Agg.insertResultInto OrNull.data s' = None.
Proof.
  cbv zeta. split; [reflexivity|]. eexists. split; vm_compute; reflexivity.
Qed.

(** Claim C4, amended: for every state of every slot variant under the
    policies that serialize all of their state (min, max, any, anyLast and
    anyHeavy), reading back the bytes written for the state yields a state
    that emits what the original emits; a string state is one of fewer than
    2^30 bytes, so that the length written is at most 2^30, read into a state
    in its layout.  A string state holding "abc" is written as the length 4
    and the bytes "abc\0", and a string state read from the length 4 and the
    bytes "abc\0" emits the three bytes "abc". *)
Theorem C4_round_trip {T : Type} `{FixedType T} {F : Type} `{FieldType F}
  (okT : T -> Prop) (okF : F -> Prop) :
  WireRoundTrip okT T_writeBinary T_readBinary ->
  WireRoundTrip okF serializeBinary deserializeBinary ->
  RoundTripLaw (D := Fixed.SingleValueDataFixed T)
    (fun _ => True) (fun s => Fixed.has s = true -> okT (Fixed.value s))
  /\ RoundTripLaw (D := Generic.SingleValueDataGeneric F)
       (fun target => Generic.has target = false)
       (fun s => Generic.has s = true -> okF (Generic.value s))
  /\ RoundTripLaw (D := Str.SingleValueDataString)
       string_layout (fun s => StrInv.wf s /\ Str.size s < 2 ^ 30)
  /\ (forall junk,
        Z.of_nat (length junk) = Str.MAX_SMALL_STRING_SIZE ->
        Str.write (Str.change (Str.create junk) [x61; x62; x63])
        = writeBinary_Int32 4 ++ [x61; x62; x63; x00])
  /\ (forall target rest,
        string_layout target ->
        exists s',
          Str.read target (writeBinary_Int32 4 ++ [x61; x62; x63; x00] ++ rest)
          = Some (s', rest)
          /\ Str.insertResultInto s' = [x61; x62; x63]).
Proof.
  intros HT HF. split; [|split; [|split; [|split]]].
  - apply round_trip_law. intros. now apply (Fixed_round_trip okT HT).
  - apply round_trip_law. intros. now apply (Generic_round_trip okF HF).
  - apply round_trip_law. intros target s rest HL [Hw Hmax].
    destruct (string_read_back_bounded target s rest HL Hw Hmax)
      as (s' & Hr & _ & _ & _ & _ & He).
    exists s'. split; assumption.
  - intros junk _. reflexivity.
  - intros target rest _.
    destruct (StrWire.read_cell target [x61; x62; x63; x00] rest ltac:(simpl; lia))
      as (s' & Hr & Hw' & Hs' & Hc').
    exists s'. split; [exact Hr|].
    rewrite (StrFacts.insertResultInto_content s' Hw'), StrWire.has_of_size
      by (rewrite Hs'; simpl; lia).
    rewrite Hc'. reflexivity.
Qed.

Lemma C4_round_trip_witness :
  exists s',
    Agg.deserialize AggregateFunctionMaxData (Fixed.create 0)
      (Agg.serialize AggregateFunctionMaxData (Fixed.mk true (-7)) ++ [x2a])
    = Some (s', [x2a])
    /\ Agg.insertResultInto AggregateFunctionMaxData s' = -7.
Proof.
  refine (proj1 (proj1 (C4_round_trip (T := Z) (F := ArrayField.Field)
                          Int64_range ArrayField_ok Int64_wire ArrayFieldFacts.wire))
            AggregateFunctionMaxData _ (Fixed.create 0) (Fixed.mk true (-7)) I _ [x2a]).
  - cbn [In]. auto.
  - intros _. unfold Int64_range. cbn [Fixed.value]. lia.
Defined.

(** ** changeIfLess and changeIfGreater (C5) *)

(** Claim C5, as stated, fails for the state overload when the source holds
    no value: the destination is empty, and the [value] field of the source
    is even strictly less (greater) than that of the destination, yet
    nothing is replaced, because the overload first asks for [to.has()]. *)
Lemma C5_counterexample_empty_source :
  (let dst := Fixed.create 9 in
   let src := Fixed.create 3 in
   Slot.has dst = false
   /\ T_less (Fixed.value src) (Fixed.value dst) = true
   /\ Slot.changeIfLess_from dst src = (false, dst))
  /\ (let dst := Fixed.create 3 in
      let src := Fixed.create 9 in
      Slot.has dst = false
      /\ T_greater (Fixed.value src) (Fixed.value dst) = true
      /\ Slot.changeIfGreater_from dst src = (false, dst)).
Proof. cbv zeta. repeat split. Qed.

(** Claim C5, amended: for the fixed-width, the generic and the string slot,
    the row overload of [changeIfLess] (respectively [changeIfGreater])
    replaces the stored value if and only if the slot is empty or the row is
    strictly less (greater) than the stored value, and the state overload,
    given a source that holds a value, if and only if the slot is empty or
    the value of the source is strictly less (greater) than the stored
    value; given a source that holds no value the state overload changes
    nothing.  A candidate equal to the stored value changes nothing.  After a
    replacement the slot stores the candidate, and holds a value when the
    candidate counts as one (it is not a null field, not an empty string).
    A string state is in its layout and holds at most 2^30 bytes, and a
    string row has at most 2^30 bytes. *)
Theorem C5_change_if_strictly_better
  {T : Type} `{FixedType T} {F : Type} `{FieldType F} :
  TotalOrder (A := T) T_less T_greater T_equal ->
  TotalOrder (A := F) Field_less Field_greater Field_equal ->
  (GatedChangeLaw (D := Fixed.SingleValueDataFixed T)
     (fun _ => True) (fun _ => True) Fixed.value (fun _ => true)
     T_less Slot.changeIfLess Slot.changeIfLess_from
   /\ GatedChangeLaw (D := Fixed.SingleValueDataFixed T)
        (fun _ => True) (fun _ => True) Fixed.value (fun _ => true)
        T_greater Slot.changeIfGreater Slot.changeIfGreater_from)
  /\ (GatedChangeLaw (D := Generic.SingleValueDataGeneric F)
        (fun _ => True) (fun _ => True) Generic.value
        (fun x => negb (Field_isNull x))
        Field_less Slot.changeIfLess Slot.changeIfLess_from
      /\ GatedChangeLaw (D := Generic.SingleValueDataGeneric F)
           (fun _ => True) (fun _ => True) Generic.value
           (fun x => negb (Field_isNull x))
           Field_greater Slot.changeIfGreater Slot.changeIfGreater_from)
  /\ (GatedChangeLaw (D := Str.SingleValueDataString)
        string_ok cell_small StrInv.content
        (fun x => 1 <=? Z.of_nat (length x))
        cell_less Slot.changeIfLess Slot.changeIfLess_from
      /\ GatedChangeLaw (D := Str.SingleValueDataString)
           string_ok cell_small StrInv.content
           (fun x => 1 <=? Z.of_nat (length x))
           cell_greater Slot.changeIfGreater Slot.changeIfGreater_from).
Proof.
  intros HT HF.
  pose proof (TotalOrder_less _ _ _ HT) as HTl.
  pose proof (TotalOrder_greater _ _ _ HT) as HTg.
  pose proof (TotalOrder_less _ _ _ HF) as HFl.
  pose proof (TotalOrder_greater _ _ _ HF) as HFg.
  pose proof (TotalOrder_less _ _ _ cell_order) as HSl.
  pose proof (TotalOrder_greater _ _ _ cell_order) as HSg.
  split; [split|split; split].
  - apply (model_gated_change _ _ _ _ _ _ _ _ Fixed_model);
      [apply (m_changeIfLess _ _ _ _ _ _ _ _ Fixed_model)
      |apply (m_changeIfLess_from _ _ _ _ _ _ _ _ Fixed_model)
      |apply (st_irrefl _ HTl)].
  - apply (model_gated_change _ _ _ _ _ _ _ _ Fixed_model);
      [apply (m_changeIfGreater _ _ _ _ _ _ _ _ Fixed_model)
      |apply (m_changeIfGreater_from _ _ _ _ _ _ _ _ Fixed_model)
      |apply (st_irrefl _ HTg)].
  - apply (model_gated_change _ _ _ _ _ _ _ _ Generic_model);
      [apply (m_changeIfLess _ _ _ _ _ _ _ _ Generic_model)
      |apply (m_changeIfLess_from _ _ _ _ _ _ _ _ Generic_model)
      |apply (st_irrefl _ HFl)].
  - apply (model_gated_change _ _ _ _ _ _ _ _ Generic_model);
      [apply (m_changeIfGreater _ _ _ _ _ _ _ _ Generic_model)
      |apply (m_changeIfGreater_from _ _ _ _ _ _ _ _ Generic_model)
      |apply (st_irrefl _ HFg)].
  - apply (model_gated_change _ _ _ _ _ _ _ _ String_model_bounded);
      [apply (m_changeIfLess _ _ _ _ _ _ _ _ String_model_bounded)
      |apply (m_changeIfLess_from _ _ _ _ _ _ _ _ String_model_bounded)
      |apply (st_irrefl _ HSl)].
  - apply (model_gated_change _ _ _ _ _ _ _ _ String_model_bounded);
      [apply (m_changeIfGreater _ _ _ _ _ _ _ _ String_model_bounded)
      |apply (m_changeIfGreater_from _ _ _ _ _ _ _ _ String_model_bounded)
      |apply (st_irrefl _ HSg)].
Qed.

Lemma C5_change_if_strictly_better_witness :
  Slot.changeIfLess (Fixed.mk true 5) 5 = (false, Fixed.mk true 5)
  /\ fst (Slot.changeIfLess (Fixed.mk true 5) 3) = true
  /\ fst (Slot.changeIfGreater_from (Fixed.mk true 5) (Fixed.mk true 5)) = false.
Proof.
  pose proof (C5_change_if_strictly_better (T := Z) (F := ArrayField.Field)
                Int64_order ArrayFieldFacts.order) as L.
  pose proof (proj1 (proj1 (proj1 L)) (Fixed.mk true 5)) as Lrow.
  pose proof (proj1 (proj2 (proj2 (proj1 L))) (Fixed.mk true 5) (Fixed.mk true 5) I I eq_refl)
    as Lfrom.
  split; [|split].
  - exact (proj2 (proj2 (proj2 (Lrow 5 I I))) eq_refl eq_refl).
  - apply (proj1 (Lrow 3 I I)). right. reflexivity.
  - rewrite (proj2 (proj2 (proj2 Lfrom)) eq_refl eq_refl). reflexivity.
Defined.

(** ** Min and max are folds (C6) *)

(** Claim C6, as stated, fails on string cells: a state fed with the single
    two-byte cell "a\0" under the min policy emits the one byte "a", because
    [insertResultInto] drops one trailing zero byte, whereas the fold of the
    sequence is the cell itself. *)
Lemma C6_counterexample_trailing_zero :
  Agg.insertResultInto AggregateFunctionMinData
    (Agg.addRows AggregateFunctionMinData
       (Str.create (repeat x00 48)) [[x61; x00]])
  <> fold_best cell_less [] [[x61; x00]].
Proof. vm_compute. discriminate. Qed.

(** Claim C6, amended: for a fixed-width slot, for a generic slot fed with
    non-null fields, and for a string slot, in its layout, fed with cells of
    at most 2^30 bytes that are not empty and do not end in a zero byte,
    feeding the rows in order to an empty min (max) state and emitting the
    result is folding the rows with the binary minimum (maximum), the earlier
    row winning a tie; for no rows the default of the value type is
    emitted. *)
Theorem C6_min_max_fold {T : Type} `{FixedType T} {F : Type} `{FieldType F} :
  MinMaxFoldLaw (D := Fixed.SingleValueDataFixed T) T_less T_greater T_default
    (fun s => Fixed.has s = false) (fun _ => True)
  /\ MinMaxFoldLaw (D := Generic.SingleValueDataGeneric F)
       Field_less Field_greater column_default
       (fun s => Generic.has s = false) (fun x => Field_isNull x = false)
  /\ MinMaxFoldLaw (D := Str.SingleValueDataString) cell_less cell_greater []
       (fun s => string_layout s /\ Str.has s = false)
       (fun x => cell_small x /\ cell_plain x).
Proof.
  split; [|split].
  - eapply MinMaxFoldLaw_weaken; [| |apply (model_min_max_fold _ _ _ _ _ _ _ _ Fixed_model)].
    + cbn. auto.
    + cbn. unfold accepted. auto.
  - eapply MinMaxFoldLaw_weaken; [| |apply (model_min_max_fold _ _ _ _ _ _ _ _ Generic_model)].
    + cbn. auto.
    + cbn. unfold accepted. intros x ->. auto.
  - eapply MinMaxFoldLaw_weaken;
      [| |apply (model_min_max_fold _ _ _ _ _ _ _ _ String_model_bounded)].
    + cbn. intros s [HL Hh]. split; [now apply string_ok_empty | exact Hh].
    + cbn. unfold accepted. intros x [Hf Hp]. repeat split.
      * exact Hf.
      * now apply nonempty_counts, cell_plain_nonempty.
      * now apply StrFacts.strip_plain.
Qed.

Lemma C6_min_max_fold_witness :
  (Agg.insertResultInto AggregateFunctionMinData
     (Agg.addRows AggregateFunctionMinData (Fixed.create 0) [3; 1; 2]) = 1
   /\ Agg.insertResultInto AggregateFunctionMaxData
        (Agg.addRows AggregateFunctionMaxData (Fixed.create 0) [3; 1; 2]) = 3)
  /\ Agg.insertResultInto AggregateFunctionMinData
       (Agg.addRows AggregateFunctionMinData
          (Str.create (repeat x00 48)) [[x62]; [x61; x62]; [x61]])
     = [x61].
Proof.
  split.
  - assert (Hrows : Forall (fun _ : Z => True) [3; 1; 2]) by (repeat constructor).
    exact (proj1 (C6_min_max_fold (T := Z) (F := ArrayField.Field))
             (Fixed.create 0) [3; 1; 2] eq_refl Hrows).
  - assert (Hrows : Forall (fun x => cell_small x /\ cell_plain x)
                      [[x62]; [x61; x62]; [x61]]).
    { repeat constructor; unfold cell_small, cell_plain; simpl; try lia; discriminate. }
    exact (proj1 (proj2 (proj2 (C6_min_max_fold (T := Z) (F := ArrayField.Field)))
                    (Str.create (repeat x00 48)) [[x62]; [x61; x62]; [x61]]
                    (conj (StrLayout.layout_create (repeat x00 48) eq_refl) eq_refl)
                    Hrows)).
Defined.

(** ** Partial aggregation (C7) *)

(** Claim C7, as stated, fails in two ways.  On string cells: an empty cell
    stored in a string slot leaves [has()] false, so the three rows "a", "",
    "b" fed to one min state end with "b", while the part "a" merged with the
    part "", "b" ends with "a".  On a numeric type with an unordered element:
    the rows NaN, 1 fed to one min state end with NaN, while the part 1
    merged with the part NaN ends with 1. *)
Lemma C7_counterexample_split_merge :
  (Split [[x61]; []; [x62]] [[x61]] [[]; [x62]]
   /\ Agg.insertResultInto AggregateFunctionMinData
        (Agg.merge AggregateFunctionMinData
           (Agg.addRows AggregateFunctionMinData (Str.create (repeat x00 48)) [[x61]])
           (Agg.addRows AggregateFunctionMinData (Str.create (repeat x00 48)) [[]; [x62]]))
      <> Agg.insertResultInto AggregateFunctionMinData
           (Agg.addRows AggregateFunctionMinData
              (Str.create (repeat x00 48)) [[x61]; []; [x62]]))
  /\ (let fresh := Fixed.create (WithNaN.Num 0) in
      Split [WithNaN.NaN; WithNaN.Num 1] [WithNaN.Num 1] [WithNaN.NaN]
      /\ Agg.insertResultInto AggregateFunctionMinData
           (Agg.merge AggregateFunctionMinData
              (Agg.addRows AggregateFunctionMinData fresh [WithNaN.Num 1])
              (Agg.addRows AggregateFunctionMinData fresh [WithNaN.NaN]))
         <> Agg.insertResultInto AggregateFunctionMinData
              (Agg.addRows AggregateFunctionMinData fresh
                 [WithNaN.NaN; WithNaN.Num 1])).
Proof.
  split; [split|cbv zeta; split].
  - repeat constructor.
  - vm_compute. discriminate.
  - repeat constructor.
  - vm_compute. discriminate.
Qed.

(** Claim C7, amended: for a fixed-width slot, for a generic slot fed with
    non-null fields, and for a string slot, in its layout, fed with non-empty
    cells of at most 2^30 bytes, over a totally ordered value type: for every
    split of the rows
    into two sub-sequences and either order of merging, the merged state
    emits what the state fed with all rows emits under min and under max;
    under any and anyLast the merged state holds a value exactly when the
    state fed with all rows does, and under anyLast a source that holds a
    value wins. *)
Theorem C7_split_merge {T : Type} `{FixedType T} {F : Type} `{FieldType F} :
  TotalOrder (A := T) T_less T_greater T_equal ->
  TotalOrder (A := F) Field_less Field_greater Field_equal ->
  SplitMergeLaw (D := Fixed.SingleValueDataFixed T)
    (fun s => Fixed.has s = false) (fun _ => True)
  /\ SplitMergeLaw (D := Generic.SingleValueDataGeneric F)
       (fun s => Generic.has s = false) (fun x => Field_isNull x = false)
  /\ SplitMergeLaw (D := Str.SingleValueDataString)
       (fun s => string_layout s /\ Str.has s = false)
       (fun x => cell_small x /\ x <> []).
Proof.
  intros HT HF. split; [|split].
  - eapply SplitMergeLaw_weaken;
      [| |apply (model_split_merge _ _ _ _ _ _ _ _ Fixed_model _ HT)].
    + cbn. auto.
    + cbn. unfold accepted. auto.
  - eapply SplitMergeLaw_weaken;
      [| |apply (model_split_merge _ _ _ _ _ _ _ _ Generic_model _ HF)].
    + cbn. auto.
    + cbn. unfold accepted. intros x ->. auto.
  - eapply SplitMergeLaw_weaken;
      [| |apply (model_split_merge _ _ _ _ _ _ _ _ String_model_bounded _ cell_order)].
    + cbn. intros s [HL Hh]. split; [now apply string_ok_empty | exact Hh].
    + cbn. unfold accepted. intros x [Hf Hn]. split; [exact Hf|].
      now apply nonempty_counts.
Qed.

Lemma C7_split_merge_witness :
  Agg.insertResultInto AggregateFunctionMinData
    (Agg.merge AggregateFunctionMinData
       (Agg.addRows AggregateFunctionMinData (Fixed.create 0) [4; 9])
       (Agg.addRows AggregateFunctionMinData (Fixed.create 0) [2; 7]))
  = Agg.insertResultInto AggregateFunctionMinData
      (Agg.addRows AggregateFunctionMinData (Fixed.create 0) [4; 2; 9; 7])
  /\ Agg.insertResultInto AggregateFunctionMinData
       (Agg.merge AggregateFunctionMinData
          (Agg.addRows AggregateFunctionMinData (Fixed.create 0) [2; 7])
          (Agg.addRows AggregateFunctionMinData (Fixed.create 0) [4; 9]))
     = Agg.insertResultInto AggregateFunctionMinData
         (Agg.addRows AggregateFunctionMinData (Fixed.create 0) [4; 2; 9; 7]).
Proof.
  pose proof (proj1 (C7_split_merge (T := Z) (F := ArrayField.Field)
                       Int64_order ArrayFieldFacts.order)) as L.
  assert (Hrows : Forall (fun _ : Z => True) [4; 2; 9; 7]) by (repeat constructor).
  split.
  - refine (proj1 (L [4; 2; 9; 7] [4; 9] [2; 7] (Fixed.create 0) (Fixed.create 0)
                     (Fixed.create 0) _ Hrows eq_refl eq_refl eq_refl)).
    repeat constructor.
  - refine (proj1 (L [4; 2; 9; 7] [2; 7] [4; 9] (Fixed.create 0) (Fixed.create 0)
                     (Fixed.create 0) _ Hrows eq_refl eq_refl eq_refl)).
    repeat constructor.
Defined.

(** ** singleValueOrNull (C8) *)

(** Claim C8 fails where a state that has seen a conflict is merged into a
    just created state: the merge takes the [first_value] branch, copies the
    value of the source and looks at neither flag of the source.  The rows 5
    and 7, split into no rows and both rows, then emit 5 instead of NULL. *)
Theorem C8_conflict_lost_by_merge_into_fresh_state :
  let fresh := OrNull.create (Fixed.create 0) in
  let conflicted := Agg.addRows OrNull.data fresh [5; 7] in
  Split [5; 7] [] [5; 7]
  /\ OrNull.is_null conflicted = true
  /\ Agg.insertResultInto OrNull.data conflicted = None
  /\ Agg.merge OrNull.data fresh conflicted = OrNull.mk (Fixed.mk true 5) false false
  /\ Agg.insertResultInto OrNull.data (Agg.merge OrNull.data fresh conflicted) = Some 5.
Proof.
  cbv zeta. split; [repeat constructor|]. repeat split.
Qed.

(** ** The constructor (C9) *)

(** Claim C9: constructing a min or max aggregator over a type that is not
    comparable throws ILLEGAL_TYPE_OF_ARGUMENT from the constructor, which
    takes the argument type only and no state or row; over a comparable type
    the constructor returns the aggregator. *)
Theorem C9_min_max_need_comparable_type
  {D V : Type} `{Slot.SingleValueData D V} (type : IDataType.t) :
  (IDataType.isComparable type = false ->
     (exists msg, Agg.construct AggregateFunctionMinData type
                  = inl (mkException msg ILLEGAL_TYPE_OF_ARGUMENT))
     /\ (exists msg, Agg.construct AggregateFunctionMaxData type
                     = inl (mkException msg ILLEGAL_TYPE_OF_ARGUMENT)))
  /\ (IDataType.isComparable type = true ->
        Agg.construct AggregateFunctionMinData type = inr (Agg.mk type)
        /\ Agg.construct AggregateFunctionMaxData type = inr (Agg.mk type)).
Proof.
  split; intros Hc; unfold Agg.construct;
    cbn [Data.name AggregateFunctionMinData AggregateFunctionMaxData];
    cbn [String.eqb Ascii.eqb Bool.eqb andb orb]; rewrite Hc; cbn [negb].
  - split; eexists; reflexivity.
  - split; reflexivity.
Qed.

Lemma C9_min_max_need_comparable_type_witness :
  (exists msg,
     Agg.construct (AggregateFunctionMinData (D := Fixed.SingleValueDataFixed Z))
       (IDataType.mk "AggregateFunction(min, Int64)" false)
     = inl (mkException msg ILLEGAL_TYPE_OF_ARGUMENT))
  /\ Agg.construct (AggregateFunctionMaxData (D := Fixed.SingleValueDataFixed Z))
       (IDataType.mk "Int64" true)
     = inr (Agg.mk (IDataType.mk "Int64" true)).
Proof.
  split.
  - exact (proj1 (proj1 (C9_min_max_need_comparable_type
                           (D := Fixed.SingleValueDataFixed Z)
                           (IDataType.mk "AggregateFunction(min, Int64)" false))
                    eq_refl)).
  - exact (proj2 (proj2 (C9_min_max_need_comparable_type
                           (D := Fixed.SingleValueDataFixed Z)
                           (IDataType.mk "Int64" true))
                    eq_refl)).
Defined.

(** ** An empty string is no value (C10) *)

(** Claim C10: storing a zero-length string through any change operation
    leaves the string slot with [has() = false]: [isEqualTo] returns false and
    [insertResultInto] emits the default, as for a state that never recorded
    a value. *)
Theorem C10_empty_string_is_no_value (s : Str.SingleValueDataString) :
  reports_no_value (Str.change s [])
  /\ (forall t, Str.size t = 0 -> reports_no_value (Str.change_from s t))
  /\ (forall op,
        In op [Str.changeFirstTime; Str.changeEveryTime;
               Str.changeIfLess; Str.changeIfGreater] ->
        fst (op s []) = true -> reports_no_value (snd (op s [])))
  /\ (forall op_from,
        In op_from [Str.changeFirstTime_from; Str.changeEveryTime_from;
                    Str.changeIfLess_from; Str.changeIfGreater_from] ->
        forall t, Str.size t = 0 -> op_from s t = (false, s)).
Proof.
  split; [|split; [|split]].
  - apply no_value_of_has_false, has_change_empty.
  - intros t Ht. now apply no_value_of_has_false, has_change_from_zero.
  - intros op Hop Hfst. apply no_value_of_has_false.
    cbn [In] in Hop. destruct Hop as [<-|[<-|[<-|[<-|[]]]]].
    + unfold Str.changeFirstTime in *.
      destruct (negb (Str.has s)); [apply has_change_empty | discriminate].
    + apply has_change_empty.
    + unfold Str.changeIfLess in *.
      destruct (negb (Str.has s) || StringRef.less _ _);
        [apply has_change_empty | discriminate].
    + unfold Str.changeIfGreater in *.
      destruct (negb (Str.has s) || StringRef.greater _ _);
        [apply has_change_empty | discriminate].
  - intros op_from Hop t Ht.
    assert (Hh : Str.has t = false) by (unfold Str.has; now rewrite Ht).
    cbn [In] in Hop. destruct Hop as [<-|[<-|[<-|[<-|[]]]]];
      [unfold Str.changeFirstTime_from | unfold Str.changeEveryTime_from
      |unfold Str.changeIfLess_from | unfold Str.changeIfGreater_from];
      rewrite Hh; rewrite ?andb_false_r; reflexivity.
Qed.

Lemma C10_empty_string_is_no_value_witness :
  reports_no_value
    (snd (Str.changeIfLess (Str.change (Str.create (repeat x00 48)) [x61; x62; x63]) [])).
Proof.
  apply (proj1 (proj2 (proj2 (C10_empty_string_is_no_value
                         (Str.change (Str.create (repeat x00 48)) [x61; x62; x63]))))
           Str.changeIfLess).
  - cbn [In]. auto.
  - reflexivity.
Defined.


(* ================================================================== *)
(** * Further properties of the code                                   *)
(* ================================================================== *)

(** ** The majority vote of anyHeavy (X1, X2) *)

(** Property X1: under anyHeavy, a state that is created and then fed with
    fewer than 2^64 rows of which more than half are one value [m] emits [m]
    (a string state: [m] less one trailing zero byte).  This holds for a
    fixed-width slot and for a generic slot whose [==] decides equality, the
    generic slot being fed with non-null fields, and for a string slot, in
    its layout, fed with non-empty cells of at most 2^30 bytes. *)
Theorem X1_any_heavy_majority {T : Type} `{FixedType T} {F : Type} `{FieldType F} :
  DecidesEq (A := T) T_equal -> DecidesEq (A := F) Field_equal ->
  MajorityLaw (D := Fixed.SingleValueDataFixed T) T_equal
    (fun s => Fixed.has s = false) (fun _ => True) (fun v => v)
  /\ MajorityLaw (D := Generic.SingleValueDataGeneric F) Field_equal
       (fun s => Generic.has s = false) (fun x => Field_isNull x = false)
       (fun v => v)
  /\ MajorityLaw (D := Str.SingleValueDataString) cell_equal
       (fun s => string_layout s /\ Str.has s = false)
       (fun x => cell_small x /\ x <> []) StrInv.strip.
Proof.
  intros ET EF. split; [|split].
  - eapply MajorityLaw_weaken;
      [| |apply (model_majority _ _ _ _ _ _ _ _ _ Fixed_model (Fixed_eq ET) ET)].
    + cbn. auto.
    + cbn. unfold accepted. auto.
  - eapply MajorityLaw_weaken;
      [| |apply (model_majority _ _ _ _ _ _ _ _ _ Generic_model (Generic_eq EF) EF)].
    + cbn. auto.
    + cbn. unfold accepted. intros x ->. auto.
  - eapply MajorityLaw_weaken;
      [| |apply (model_majority _ _ _ _ _ _ _ _ _ String_model_bounded String_eq_bounded
                   cell_equal_decides)].
    + cbn. intros s [HL Hh]. split; [now apply string_ok_empty | exact Hh].
    + cbn. unfold accepted. intros x [Hf Hp]. split; [exact Hf|].
      now apply nonempty_counts.
Qed.

Lemma X1_any_heavy_majority_witness :
  Agg.insertResultInto AnyHeavy.data
    (Agg.addRows AnyHeavy.data (AnyHeavy.create (Fixed.create 0)) [7; 3; 7; 7; 5])
  = 7.
Proof.
  assert (Hrows : Forall (fun _ : Z => True) [7; 3; 7; 7; 5]) by (repeat constructor).
  assert (Hlen : Z.of_nat (length [7; 3; 7; 7; 5]) < 2 ^ 64) by (simpl; lia).
  assert (Hmaj : majority Z.eqb 7 [7; 3; 7; 7; 5]) by (unfold majority; simpl; lia).
  exact (proj1 (X1_any_heavy_majority (T := Z) (F := ArrayField.Field)
                  (equal_spec _ _ _ Int64_order)
                  (equal_spec _ _ _ ArrayFieldFacts.order))
           (Fixed.create 0) [7; 3; 7; 7; 5] 7 eq_refl Hrows Hlen Hmaj).
Defined.

(** Property X2: under anyHeavy, when one value [m] is in more than half of
    the rows of every part, the created states fed with the parts and merged
    one after the other into a created state emit [m].  The slot types and
    the rows are those of X1. *)
Theorem X2_any_heavy_majority_of_every_part
  {T : Type} `{FixedType T} {F : Type} `{FieldType F} :
  DecidesEq (A := T) T_equal -> DecidesEq (A := F) Field_equal ->
  MajorityMergeLaw (D := Fixed.SingleValueDataFixed T) T_equal
    (fun s => Fixed.has s = false) (fun _ => True) (fun v => v)
  /\ MajorityMergeLaw (D := Generic.SingleValueDataGeneric F) Field_equal
       (fun s => Generic.has s = false) (fun x => Field_isNull x = false)
       (fun v => v)
  /\ MajorityMergeLaw (D := Str.SingleValueDataString) cell_equal
       (fun s => string_layout s /\ Str.has s = false)
       (fun x => cell_small x /\ x <> []) StrInv.strip.
Proof.
  intros ET EF. split; [|split].
  - eapply MajorityMergeLaw_weaken;
      [| |apply (model_majority_merge _ _ _ _ _ _ _ _ _ Fixed_model (Fixed_eq ET) ET)].
    + cbn. auto.
    + cbn. unfold accepted. auto.
  - eapply MajorityMergeLaw_weaken;
      [| |apply (model_majority_merge _ _ _ _ _ _ _ _ _ Generic_model (Generic_eq EF) EF)].
    + cbn. auto.
    + cbn. unfold accepted. intros x ->. auto.
  - eapply MajorityMergeLaw_weaken;
      [| |apply (model_majority_merge _ _ _ _ _ _ _ _ _ String_model_bounded String_eq_bounded
                   cell_equal_decides)].
    + cbn. intros s [HL Hh]. split; [now apply string_ok_empty | exact Hh].
    + cbn. unfold accepted. intros x [Hf Hp]. split; [exact Hf|].
      now apply nonempty_counts.
Qed.

Lemma X2_any_heavy_majority_of_every_part_witness :
  Agg.insertResultInto AnyHeavy.data
    (mergeAll AnyHeavy.data (AnyHeavy.create (Fixed.create 0))
       [(AnyHeavy.create (Fixed.create 0), [7; 3; 7]);
        (AnyHeavy.create (Fixed.create 0), [5; 7; 7; 9; 7])])
  = 7.
Proof.
  assert (Hparts :
    Forall (fun part : Fixed.SingleValueDataFixed Z * list Z =>
              Fixed.has (fst part) = false /\ Forall (fun _ : Z => True) (snd part)
              /\ Z.of_nat (length (snd part)) < 2 ^ 64
              /\ majority Z.eqb 7 (snd part))
      [(Fixed.create 0, [7; 3; 7]); (Fixed.create 0, [5; 7; 7; 9; 7])]).
  { repeat constructor; unfold majority; simpl; lia. }
  exact (proj1 (X2_any_heavy_majority_of_every_part (T := Z) (F := ArrayField.Field)
                  (equal_spec _ _ _ Int64_order)
                  (equal_spec _ _ _ ArrayFieldFacts.order))
           (Fixed.create 0)
           [(Fixed.create 0, [7; 3; 7]); (Fixed.create 0, [5; 7; 7; 9; 7])] 7
           eq_refl ltac:(discriminate) Hparts).
Defined.


(** ** The first and the last row (X3) *)

(** Property X3: under any, an empty state fed with rows emits the first of
    them (the default of the type for no rows), and a state that holds a
    value is never changed by a row; under anyLast, a state fed with at least
    one row emits the last of them, whatever it held before.  A string state
    emits the row less one trailing zero byte.  The rows are any values of a
    fixed-width type, non-null fields, or non-empty cells of at most
    2^30 bytes fed to a string state in its layout that holds at most 2^30
    bytes. *)
Theorem X3_any_first_row_any_last_last_row
  {T : Type} `{FixedType T} {F : Type} `{FieldType F} :
  FirstLastLaw (D := Fixed.SingleValueDataFixed T)
    (fun _ => True) (fun _ => True) (fun v => v) T_default
  /\ FirstLastLaw (D := Generic.SingleValueDataGeneric F)
       (fun _ => True) (fun x => Field_isNull x = false) (fun v => v) column_default
  /\ FirstLastLaw (D := Str.SingleValueDataString)
       string_ok (fun x => cell_small x /\ x <> []) StrInv.strip [].
Proof.
  split; [|split].
  - eapply FirstLastLaw_weaken; [| |apply (model_first_last _ _ _ _ _ _ _ _ Fixed_model)].
    + auto.
    + cbn. unfold accepted. auto.
  - eapply FirstLastLaw_weaken; [| |apply (model_first_last _ _ _ _ _ _ _ _ Generic_model)].
    + auto.
    + cbn. unfold accepted. intros x ->. auto.
  - eapply FirstLastLaw_weaken;
      [| |apply (model_first_last _ _ _ _ _ _ _ _ String_model_bounded)].
    + auto.
    + cbn. unfold accepted. intros x [Hf Hp]. split; [exact Hf|].
      now apply nonempty_counts.
Qed.

Lemma X3_any_first_row_any_last_last_row_witness :
  Agg.insertResultInto AggregateFunctionAnyData
    (Agg.addRows AggregateFunctionAnyData (Fixed.create 0) [4; 2; 9]) = 4
  /\ Agg.insertResultInto AggregateFunctionAnyLastData
       (Agg.addRows AggregateFunctionAnyLastData (Fixed.create 0) [4; 2; 9]) = 9.
Proof.
  pose proof (proj1 (X3_any_first_row_any_last_last_row (T := Z) (F := ArrayField.Field)))
    as (L1 & _ & L3).
  split.
  - exact (L1 (Fixed.create 0) [4; 2; 9] I eq_refl ltac:(repeat constructor)).
  - exact (L3 (Fixed.create 0) [4; 2; 9] I ltac:(repeat constructor) ltac:(discriminate)).
Defined.

(** ** Partial states merged in order (X4) *)

(** Property X4: under min, max, any and anyLast, the empty states fed each
    with one part of the rows and merged, in the order of the parts, into an
    empty state emit what one empty state fed with all the rows emits.  This
    holds for a fixed-width slot and a generic slot over a totally ordered
    type, the generic slot being fed with non-null fields, and for a string
    slot, in its layout, fed with non-empty cells of at most 2^30 bytes. *)
Theorem X4_merge_in_order_of_parts
  {T : Type} `{FixedType T} {F : Type} `{FieldType F} :
  TotalOrder (A := T) T_less T_greater T_equal ->
  TotalOrder (A := F) Field_less Field_greater Field_equal ->
  ChainMergeLaw (D := Fixed.SingleValueDataFixed T)
    (fun s => Fixed.has s = false) (fun _ => True)
  /\ ChainMergeLaw (D := Generic.SingleValueDataGeneric F)
       (fun s => Generic.has s = false) (fun x => Field_isNull x = false)
  /\ ChainMergeLaw (D := Str.SingleValueDataString)
       (fun s => string_layout s /\ Str.has s = false)
       (fun x => cell_small x /\ x <> []).
Proof.
  intros OT OF. split; [|split].
  - eapply ChainMergeLaw_weaken;
      [| |apply (model_chain_merge _ _ _ _ _ _ _ _ Fixed_model _ OT)].
    + cbn. auto.
    + cbn. unfold accepted. auto.
  - eapply ChainMergeLaw_weaken;
      [| |apply (model_chain_merge _ _ _ _ _ _ _ _ Generic_model _ OF)].
    + cbn. auto.
    + cbn. unfold accepted. intros x ->. auto.
  - eapply ChainMergeLaw_weaken;
      [| |apply (model_chain_merge _ _ _ _ _ _ _ _ String_model_bounded _ cell_order)].
    + cbn. intros s [HL Hh]. split; [now apply string_ok_empty | exact Hh].
    + cbn. unfold accepted. intros x [Hf Hp]. split; [exact Hf|].
      now apply nonempty_counts.
Qed.

Lemma X4_merge_in_order_of_parts_witness :
  Agg.insertResultInto AggregateFunctionMinData
    (mergeAll AggregateFunctionMinData (Fixed.create 0)
       [(Fixed.create 0, [4; 2]); (Fixed.create 0, []); (Fixed.create 0, [1; 3])])
  = Agg.insertResultInto AggregateFunctionMinData
      (Agg.addRows AggregateFunctionMinData (Fixed.create 0) [4; 2; 1; 3]).
Proof.
  assert (Hparts :
    Forall (fun part : Fixed.SingleValueDataFixed Z * list Z =>
              Fixed.has (fst part) = false /\ Forall (fun _ : Z => True) (snd part))
      [(Fixed.create 0, [4; 2]); (Fixed.create 0, []); (Fixed.create 0, [1; 3])])
    by (repeat constructor).
  exact (proj1 (X4_merge_in_order_of_parts (T := Z) (F := ArrayField.Field)
                  Int64_order ArrayFieldFacts.order)
           AggregateFunctionMinData (or_introl eq_refl)
           (Fixed.create 0) (Fixed.create 0)
           [(Fixed.create 0, [4; 2]); (Fixed.create 0, []); (Fixed.create 0, [1; 3])]
           eq_refl eq_refl Hparts).
Defined.


(** ** singleValueOrNull over the rows (X5) *)

(** Property X5: under singleValueOrNull, a created state fed with rows emits
    the first row when all the rows are equal, and NULL when there is no row
    or when some row differs from the first one.  This holds for a
    fixed-width slot and a generic slot whose [==] decides equality, the
    generic slot being fed with non-null fields, and for a string slot, in
    its layout and holding at most 2^30 bytes, fed with non-empty cells of at
    most 2^30 bytes, which emits the row less one trailing zero byte. *)
Theorem X5_or_null_rows {T : Type} `{FixedType T} {F : Type} `{FieldType F} :
  DecidesEq (A := T) T_equal -> DecidesEq (A := F) Field_equal ->
  OrNullRowsLaw (D := Fixed.SingleValueDataFixed T) T_equal
    (fun _ => True) (fun _ => True) (fun v => v)
  /\ OrNullRowsLaw (D := Generic.SingleValueDataGeneric F) Field_equal
       (fun _ => True) (fun x => Field_isNull x = false) (fun v => v)
  /\ OrNullRowsLaw (D := Str.SingleValueDataString) cell_equal
       string_ok (fun x => cell_small x /\ x <> []) StrInv.strip.
Proof.
  intros ET EF. split; [|split].
  - eapply OrNullRowsLaw_weaken;
      [| |apply (model_or_null_rows _ _ _ _ _ _ _ _ _ Fixed_model (Fixed_eq ET) ET)].
    + auto.
    + cbn. unfold accepted. auto.
  - eapply OrNullRowsLaw_weaken;
      [| |apply (model_or_null_rows _ _ _ _ _ _ _ _ _ Generic_model (Generic_eq EF) EF)].
    + auto.
    + cbn. unfold accepted. intros x ->. auto.
  - eapply OrNullRowsLaw_weaken;
      [| |apply (model_or_null_rows _ _ _ _ _ _ _ _ _ String_model_bounded
                   String_eq_bounded cell_equal_decides)].
    + auto.
    + cbn. unfold accepted. intros x [Hf Hp]. split; [exact Hf|].
      now apply nonempty_counts.
Qed.

Lemma X5_or_null_rows_witness :
  Agg.insertResultInto OrNull.data
    (Agg.addRows OrNull.data (OrNull.create (Fixed.create 0)) [4; 4; 4]) = Some 4
  /\ Agg.insertResultInto OrNull.data
       (Agg.addRows OrNull.data (OrNull.create (Fixed.create 0)) [4; 5; 4]) = None.
Proof.
  pose proof (proj1 (X5_or_null_rows (T := Z) (F := ArrayField.Field)
                       (equal_spec _ _ _ Int64_order)
                       (equal_spec _ _ _ ArrayFieldFacts.order))) as L.
  split.
  - exact (L (Fixed.create 0) [4; 4; 4] I ltac:(repeat constructor)).
  - exact (L (Fixed.create 0) [4; 5; 4] I ltac:(repeat constructor)).
Defined.


(** ** addManyDefaults (X6) *)

(** Property X6: [addManyDefaults] of min, max, any, anyLast and
    singleValueOrNull ignores [length] and applies the default row once.  For
    the first four the result emitted is that of the row added [length]
    times when [length] is at least one, and that of the row added once when
    [length] is zero; for singleValueOrNull the state is the very state of
    these additions, provided that the row counts as a value once stored (it
    is a non-null field, a non-empty string).  [addManyDefaults] of anyHeavy
    is the row added [length] times.  The slots are a fixed-width slot and a
    generic slot over a totally ordered type, and a string slot with cells
    that fit an Int32. *)
Theorem X6_add_many_defaults {T : Type} `{FixedType T} {F : Type} `{FieldType F} :
  TotalOrder (A := T) T_less T_greater T_equal ->
  TotalOrder (A := F) Field_less Field_greater Field_equal ->
  ManyDefaultsLaw (D := Fixed.SingleValueDataFixed T)
    (fun _ => True) (fun _ => True) (fun _ => True)
  /\ ManyDefaultsLaw (D := Generic.SingleValueDataGeneric F)
       (fun _ => True) (fun _ => True) (fun x => Field_isNull x = false)
  /\ ManyDefaultsLaw (D := Str.SingleValueDataString)
       StrInv.wf cell_fits (fun x => x <> []).
Proof.
  intros OT OF. split; [|split].
  - eapply ManyDefaultsLaw_weaken;
      [| | |apply (model_many_defaults _ _ _ _ _ _ _ _ _ Fixed_model
                     (Fixed_eq (equal_spec _ _ _ OT)) OT)]; cbn; auto.
  - eapply ManyDefaultsLaw_weaken;
      [| | |apply (model_many_defaults _ _ _ _ _ _ _ _ _ Generic_model
                     (Generic_eq (equal_spec _ _ _ OF)) OF)]; cbn; auto.
    intros x ->. reflexivity.
  - eapply ManyDefaultsLaw_weaken;
      [| | |apply (model_many_defaults _ _ _ _ _ _ _ _ _ String_model
                     String_eq cell_order)]; cbn; auto.
    intros x. apply nonempty_counts.
Qed.

Lemma X6_add_many_defaults_witness :
  Agg.insertResultInto AggregateFunctionMinData
    (Agg.addManyDefaults AggregateFunctionMinData (Fixed.mk true 5) 0 0%nat)
  = Agg.insertResultInto AggregateFunctionMinData
      (Agg.addRows AggregateFunctionMinData (Fixed.mk true 5) [0]).
Proof.
  exact (proj1 (proj1 (X6_add_many_defaults (T := Z) (F := ArrayField.Field)
                         Int64_order ArrayFieldFacts.order))
           AggregateFunctionMinData (or_introl eq_refl) (Fixed.mk true 5) 0 0%nat I I).
Defined.

(** ** The batch loops (X7, X8) *)

(** Property X7: under every policy but any, [addBatchSinglePlace] leaves the
    state as [add] for each row whose flag is set does, in the order of the
    rows (every row when there is no [if] column), and
    [addBatchSinglePlaceNotNull] as [add] for each row that the null map does
    not exclude and whose flag is set does. *)
Theorem X7_batch_adds_the_selected_rows {S V R : Type} (data : Data.Data S V R)
  (place : S) (rows : list V) (null_map : list bool) (flags : option (list bool)) :
  Data.is_any data = false ->
  length null_map = length rows ->
  (forall fl, flags = Some fl -> length fl = length rows) ->
  Agg.addBatchSinglePlace data place rows flags
  = Agg.addRows data place (flagged rows flags)
  /\ Agg.addBatchSinglePlaceNotNull data place rows null_map flags
     = Agg.addRows data place (flagged_not_null rows null_map flags).
Proof.
  intros Hany _ _. now apply batch_selected.
Qed.

Lemma X7_batch_adds_the_selected_rows_witness :
  Agg.addBatchSinglePlace AggregateFunctionMinData (Fixed.create 0)
    [4; 1; 3] (Some [true; false; true])
  = Agg.addRows AggregateFunctionMinData (Fixed.create 0) [4; 3]
  /\ Agg.addBatchSinglePlaceNotNull AggregateFunctionMinData (Fixed.create 0)
       [4; 1; 3] [false; false; true] (Some [true; false; true])
     = Agg.addRows AggregateFunctionMinData (Fixed.create 0) [4].
Proof.
  apply (X7_batch_adds_the_selected_rows AggregateFunctionMinData (Fixed.create 0)
           [4; 1; 3] [false; false; true] (Some [true; false; true])).
  - reflexivity.
  - reflexivity.
  - intros fl [= <-]. reflexivity.
Defined.

(** Property X8: under any, whose batch loops return at once on a state that
    holds a value and stop after the first row they add, both loops still
    leave the state as [add] for each selected row does.  The rows are any
    values of a fixed-width type, non-null fields, or non-empty cells that
    fit an Int32. *)
Theorem X8_any_batch_adds_the_selected_rows
  {T : Type} `{FixedType T} {F : Type} `{FieldType F} :
  AnyBatchLaw (D := Fixed.SingleValueDataFixed T) (fun _ => True) (fun _ => True)
  /\ AnyBatchLaw (D := Generic.SingleValueDataGeneric F)
       (fun _ => True) (fun x => Field_isNull x = false)
  /\ AnyBatchLaw (D := Str.SingleValueDataString)
       StrInv.wf (fun x => cell_fits x /\ x <> []).
Proof.
  split; [|split].
  - eapply AnyBatchLaw_weaken; [| |apply (model_any_batch _ _ _ _ _ _ _ _ Fixed_model)].
    + auto.
    + cbn. unfold accepted. auto.
  - eapply AnyBatchLaw_weaken; [| |apply (model_any_batch _ _ _ _ _ _ _ _ Generic_model)].
    + auto.
    + cbn. unfold accepted. intros x ->. auto.
  - eapply AnyBatchLaw_weaken; [| |apply (model_any_batch _ _ _ _ _ _ _ _ String_model)].
    + auto.
    + cbn. unfold accepted. intros x [Hf Hp]. split; [exact Hf|].
      now apply nonempty_counts.
Qed.


Lemma X8_any_batch_adds_the_selected_rows_witness :
  Agg.addBatchSinglePlace AggregateFunctionAnyData (Fixed.create 0)
    [4; 1; 3] (Some [false; true; true])
  = Agg.addRows AggregateFunctionAnyData (Fixed.create 0) [1; 3].
Proof.
  refine (proj1 (proj1 (X8_any_batch_adds_the_selected_rows (T := Z)
                          (F := ArrayField.Field))
                   (Fixed.create 0) [4; 1; 3] [false; false; false]
                   (Some [false; true; true]) I _ eq_refl _)).
  - repeat constructor.
  - intros fl [= <-]. reflexivity.
Defined.

(** ** The buffers of the string slot (X9, X10) *)

(** Property X9: the string slot keeps its buffers in bounds.  A created
    state has the layout of [string_layout]; [change] with a cell of at most
    2^30 bytes, [change] from a state that holds a value of at most 2^30
    bytes, and a [read] that reads a size of at most 2^30 keep it, so that
    the inline buffer and the overflow block keep their lengths, [capacity]
    stays zero or a power of two and never decreases; a cell that fits the
    inline buffer leaves [capacity] and the overflow block untouched.  A
    state with this layout satisfies the invariant [StrInv.wf]. *)
Theorem X9_string_buffers_in_bounds :
  (forall junk, Z.of_nat (length junk) = Str.MAX_SMALL_STRING_SIZE ->
     string_layout (Str.create junk))
  /\ (forall s x, string_layout s -> Z.of_nat (length x) <= 2 ^ 30 ->
        string_layout (Str.change s x)
        /\ Str.capacity s <= Str.capacity (Str.change s x)
        /\ (Z.of_nat (length x) <= Str.MAX_SMALL_STRING_SIZE ->
            Str.capacity (Str.change s x) = Str.capacity s
            /\ Str.large_data (Str.change s x) = Str.large_data s))
  /\ (forall s t, string_layout s -> string_layout t ->
        Str.has t = true -> Str.size t <= 2 ^ 30 ->
        string_layout (Str.change_from s t)
        /\ Str.capacity s <= Str.capacity (Str.change_from s t))
  /\ (forall s buf s' rest, string_layout s ->
        Str.read s buf = Some (s', rest) -> Str.size s' <= 2 ^ 30 ->
        string_layout s' /\ Str.capacity s <= Str.capacity s')
  /\ (forall s, string_layout s -> StrInv.wf s).
Proof.
  split; [|split; [|split; [|split]]].
  - apply StrLayout.layout_create.
  - intros s x HL Hx. unfold Str.change.
    apply StrLayout.changeImpl_layout; [exact HL | apply StrFacts.proper_of_cell | exact Hx].
  - intros s t HL HT Hh Hsz. unfold Str.change_from.
    pose proof (StrFacts.proper_getStringRef t (StrLayout.layout_wf t HT) Hh) as Hp.
    assert (Hs : StringRef.size (Str.getStringRef t) = Str.size t).
    { unfold Str.getStringRef. cbn [StringRef.size].
      apply to_UInt64_small. apply StrFacts.has_size in Hh. lia. }
    destruct (StrLayout.changeImpl_layout s (Str.getStringRef t) HL Hp ltac:(lia))
      as (H1 & H2 & _).
    auto.
  - intros s buf s' rest. apply StrLayout.read_layout.
  - apply StrLayout.layout_wf.
Qed.

Lemma X9_string_buffers_in_bounds_witness :
  string_layout (Str.change (Str.create (repeat x00 48)) (repeat x61 50))
  /\ Str.capacity (Str.change (Str.create (repeat x00 48)) (repeat x61 50)) = 64.
Proof.
  assert (HL : string_layout (Str.create (repeat x00 48)))
    by (apply (proj1 X9_string_buffers_in_bounds); reflexivity).
  split.
  - apply (proj1 (proj2 X9_string_buffers_in_bounds) _ (repeat x61 50) HL).
    simpl. lia.
  - reflexivity.
Defined.

(** Property X10: a cell of more than 2^30 bytes that does not fit the
    overflow block overflows [capacity]: the next power of two, 2^31, cast to
    Int32 leaves [capacity] at -2^31. *)
Theorem X10_string_capacity_overflows (s : Str.SingleValueDataString) (x : Buffer) :
  2 ^ 30 < Z.of_nat (length x) < 2 ^ 31 ->
  Str.capacity s < Z.of_nat (length x) ->
  Str.capacity (Str.change s x) = - 2 ^ 31.
Proof.
  intros Hx Hc. unfold Str.change. apply capacity_overflow; assumption.
Qed.

Lemma X10_string_capacity_overflows_witness :
  Str.capacity (Str.change (Str.create []) (repeat x61 (Z.to_nat (2 ^ 30 + 1))))
  = - 2 ^ 31.
Proof.
  apply X10_string_capacity_overflows.
  - rewrite repeat_length. lia.
  - rewrite repeat_length. unfold Str.create. cbn [Str.capacity]. lia.
Defined.


(** ** What a string state reads back (X11, X12) *)

(** Property X11: reading back, into a state in its layout, the bytes
    written for a string state of fewer than 2^30 bytes (so that the length
    written is at most 2^30) succeeds, consumes exactly these bytes, and
    leaves a state in its layout that holds the body written after the
    length: the stored bytes ending in a zero byte, which [write] appends
    unless it is there already, and one zero byte for a state without a
    value.  The state read back thus always reports a value, and writing it
    again gives the same bytes. *)
Theorem X11_string_read_back (target s : Str.SingleValueDataString) (rest : Buffer) :
  string_layout target -> StrInv.wf s -> Str.size s < 2 ^ 30 ->
  exists s',
    Str.read target (Str.write s ++ rest) = Some (s', rest)
    /\ string_layout s' /\ StrInv.wf s' /\ Str.has s' = true
    /\ StrInv.content s' = string_wire_body s
    /\ Str.write s' = Str.write s.
Proof.
  intros HT Hw Hmax.
  destruct (string_read_back_bounded target s rest HT Hw Hmax)
    as (s' & Hr & Hok & Hh & Hc & Hwr & _).
  exists s'. split; [exact Hr|]. split; [apply Hok|].
  split; [now apply string_ok_wf|]. auto.
Qed.

Lemma X11_string_read_back_witness :
  exists s',
    Str.read (Str.create (repeat x00 48))
      (Str.write (Str.create (repeat x00 48)) ++ [x07]) = Some (s', [x07])
    /\ string_layout s' /\ StrInv.wf s' /\ Str.has s' = true
    /\ StrInv.content s' = [x00]
    /\ Str.write s' = Str.write (Str.create (repeat x00 48)).
Proof.
  apply (X11_string_read_back (Str.create (repeat x00 48))
           (Str.create (repeat x00 48)) [x07]).
  - apply StrLayout.layout_create. reflexivity.
  - apply StrFacts.wf_create.
  - reflexivity.
Defined.

(** Property X12: [read] throws on every proper prefix of the bytes written
    for a string state: a truncated state is never read as a shorter
    value. *)
Theorem X12_string_read_of_truncated_bytes_fails
  (target s : Str.SingleValueDataString) (p q : Buffer) :
  StrInv.wf s -> Str.size s < 2 ^ 31 - 1 ->
  Str.write s = p ++ q -> q <> [] ->
  Str.read target p = None.
Proof. exact (string_read_truncated target s p q). Qed.

Lemma X12_string_read_of_truncated_bytes_fails_witness :
  Str.read (Str.create (repeat x00 48)) [x03; x00; x00; x00; x61] = None.
Proof.
  apply (X12_string_read_of_truncated_bytes_fails (Str.create (repeat x00 48))
           (Str.change (Str.create (repeat x00 48)) [x61; x62])
           [x03; x00; x00; x00; x61] [x62; x00]).
  - apply (StrFacts.change_stores _ [x61; x62]). reflexivity.
  - reflexivity.
  - reflexivity.
  - discriminate.
Defined.

(** ** isEqualTo (X13) *)

(** Property X13: [isEqualTo] answers whether the state holds a value and
    this value is the row (or the value of the other state, which holds
    one): for a fixed-width slot and a generic slot whose [==] decides
    equality, and for a string slot that satisfies its invariant, where the
    values are compared as byte strings. *)
Theorem X13_is_equal_to {T : Type} `{FixedType T} {F : Type} `{FieldType F} :
  DecidesEq (A := T) T_equal -> DecidesEq (A := F) Field_equal ->
  SlotEq (D := Fixed.SingleValueDataFixed T) (fun _ => True) Fixed.value
  /\ SlotEq (D := Generic.SingleValueDataGeneric F) (fun _ => True) Generic.value
  /\ SlotEq (D := Str.SingleValueDataString) StrInv.wf StrInv.content.
Proof.
  intros ET EF. split; [|split].
  - exact (Fixed_eq ET).
  - exact (Generic_eq EF).
  - exact String_eq.
Qed.

Lemma X13_is_equal_to_witness :
  Str.isEqualTo (Str.change (Str.create (repeat x00 48)) [x61; x62]) [x61; x62] = true.
Proof.
  pose proof (e_row _ _ (proj2 (proj2 (X13_is_equal_to (T := Z) (F := ArrayField.Field)
                                          (equal_spec _ _ _ Int64_order)
                                          (equal_spec _ _ _ ArrayFieldFacts.order))))
                (Str.change (Str.create (repeat x00 48)) [x61; x62]) [x61; x62]) as L.
  apply L.
  - apply (StrFacts.change_stores _ [x61; x62]). reflexivity.
  - split; reflexivity.
Defined.


(** ** What deserialize restores (X14, X15) *)

(** Property X14: singleValueOrNull serializes the slot alone, so
    [deserialize] leaves the flags [first_value] and [is_null] of the state
    it reads into as they were; a state read into a created state, whatever
    the bytes, emits NULL. *)
Theorem X14_or_null_deserialize_keeps_the_flags {D V : Type} `{Slot.SingleValueData D V}
  (target s' : OrNull.State D) (buf rest : Buffer) :
  Agg.deserialize OrNull.data target buf = Some (s', rest) ->
  OrNull.first_value s' = OrNull.first_value target
  /\ OrNull.is_null s' = OrNull.is_null target
  /\ (OrNull.first_value target = true ->
      Agg.insertResultInto OrNull.data s' = None).
Proof.
  intros Hr. destruct (or_null_read_keeps_flags target s' buf rest Hr) as [Hf Hn].
  split; [exact Hf|]. split; [exact Hn|].
  intros Ht. unfold Agg.insertResultInto. cbn [Data.insertResultInto OrNull.data].
  unfold OrNull.insertResultInto. now rewrite Hf, Ht, orb_true_r.
Qed.

Lemma X14_or_null_deserialize_keeps_the_flags_witness :
  Agg.insertResultInto OrNull.data (OrNull.mk (Fixed.mk true 5) true false) = None.
Proof.
  refine (proj2 (proj2 (X14_or_null_deserialize_keeps_the_flags
                          (OrNull.create (Fixed.create 0))
                          (OrNull.mk (Fixed.mk true 5) true false)
                          (Agg.serialize OrNull.data
                             (OrNull.mk (Fixed.mk true 5) false false))
                          [] _)) _); reflexivity.
Defined.

(** Property X15: for a fixed-width slot whose value survives its binary
    encoding, [read] after [write] restores the flag and, when the state
    holds a value, the value, and otherwise keeps the value field of the
    state read into; under anyHeavy the counter is restored as well, so that
    a state that holds a value is read back as it was. *)
Theorem X15_fixed_state_read_back {T : Type} `{FixedType T} (okT : T -> Prop) :
  WireRoundTrip okT T_writeBinary T_readBinary ->
  (forall (target s : Fixed.SingleValueDataFixed T) (rest : Buffer),
     (Fixed.has s = true -> okT (Fixed.value s)) ->
     Fixed.read target (Fixed.write s ++ rest)
     = Some (Fixed.mk (Fixed.has s)
               (if Fixed.has s then Fixed.value s else Fixed.value target), rest))
  /\ (forall (target s : AnyHeavy.State (Fixed.SingleValueDataFixed T)) (rest : Buffer),
        (Fixed.has (AnyHeavy.base s) = true -> okT (Fixed.value (AnyHeavy.base s))) ->
        0 <= AnyHeavy.counter s < 2 ^ 64 ->
        Agg.deserialize AnyHeavy.data target (Agg.serialize AnyHeavy.data s ++ rest)
        = Some (AnyHeavy.mk
                  (Fixed.mk (Fixed.has (AnyHeavy.base s))
                     (if Fixed.has (AnyHeavy.base s)
                      then Fixed.value (AnyHeavy.base s)
                      else Fixed.value (AnyHeavy.base target)))
                  (AnyHeavy.counter s), rest)).
Proof.
  intros HW. split.
  - apply (Fixed_read_back okT HW).
  - intros target s rest Hs Hc.
    unfold Agg.deserialize, Agg.serialize. cbn [Data.read Data.write AnyHeavy.data].
    unfold AnyHeavy.read, AnyHeavy.write. rewrite <- app_assoc.
    cbn [Slot.read Slot.write SingleValueDataFixed_ops].
    rewrite (Fixed_read_back okT HW _ _ _ Hs).
    now rewrite readBinary_writeBinary_UInt64 by exact Hc.
Qed.

Lemma X15_fixed_state_read_back_witness :
  Agg.deserialize AnyHeavy.data (AnyHeavy.create (Fixed.create 0))
    (Agg.serialize AnyHeavy.data (AnyHeavy.mk (Fixed.mk true 7) 3) ++ [x2a])
  = Some (AnyHeavy.mk (Fixed.mk true 7) 3, [x2a]).
Proof.
  refine (proj2 (X15_fixed_state_read_back Int64_range Int64_wire)
            (AnyHeavy.create (Fixed.create 0)) (AnyHeavy.mk (Fixed.mk true 7) 3)
            [x2a] _ _).
  - intros _. cbn. unfold Int64_range. lia.
  - cbn. lia.
Defined.


(** ** Selectors of a scattered block (X16 to X21) *)

(** Property X16: for a selector in order, [size()] is the number of the
    selected rows; [operator[]] returns the selected row at [idx] when [idx]
    is below the size and throws LOGICAL_ERROR, with [idx] and the size,
    otherwise; the rows of [Selector(begin, end)] are [begin], [begin + 1],
    up to [end - 1]. *)
Theorem X16_selector_size_and_lookup (s : detail.Selector) (idx : Z) :
  selector_ok s -> 0 <= idx ->
  detail.size s = Z.of_nat (length (elements s))
  /\ detail.get s idx
     = (if idx <? detail.size s then inr (nth (Z.to_nat idx) (elements s) 0)
        else inl (detail.LOGICAL_ERROR idx (detail.size s)))
  /\ (forall first second, detail.data s = detail.Data_Range (first, second) ->
      elements s
      = map (fun i => first + Z.of_nat i) (seq 0 (Z.to_nat (second - first)))).
Proof.
  intros Hs H0. split; [now apply SelectorFacts.size_elements|].
  split; [now apply SelectorFacts.get_elements|].
  intros first second Hd. destruct s as [d]. cbn [detail.data] in Hd. subst d.
  destruct Hs as [H1 H2]. apply (SelectorFacts.elements_range first second); lia.
Qed.

Lemma X16_selector_size_and_lookup_witness :
  detail.get (detail.of_range 3 6) 2 = inr 5
  /\ detail.get (detail.of_range 3 6) 3 = inl (detail.LOGICAL_ERROR 3 3).
Proof.
  split.
  - refine (proj1 (proj2 (X16_selector_size_and_lookup (detail.of_range 3 6) 2 _ _))).
    + unfold selector_ok. cbn. lia.
    + lia.
  - refine (proj1 (proj2 (X16_selector_size_and_lookup (detail.of_range 3 6) 3 _ _))).
    + unfold selector_ok. cbn. lia.
    + lia.
Defined.

(** Property X17: the constructor from an [IColumn::Selector] keeps row
    numbers in strictly increasing order as they are: the selector built
    selects exactly these rows, in their order, whether it stores them as a
    range or as the array. *)
Theorem X17_selector_from_increasing_rows (rows : list Z) :
  increasing rows ->
  selector_ok (detail.of_selector rows)
  /\ elements (detail.of_selector rows) = rows
  /\ detail.size (detail.of_selector rows) = Z.of_nat (length rows).
Proof.
  intros Hinc. destruct (SelectorFacts.of_selector_elements rows Hinc) as [Hok Hel].
  split; [exact Hok|]. split; [exact Hel|].
  now rewrite (SelectorFacts.size_elements _ Hok), Hel.
Qed.

Lemma X17_selector_from_increasing_rows_witness :
  elements (detail.of_selector [2; 3; 4]) = [2; 3; 4]
  /\ elements (detail.of_selector [2; 5; 7]) = [2; 5; 7].
Proof.
  split.
  - apply (X17_selector_from_increasing_rows [2; 3; 4]).
    cbn. unfold row_number. repeat split; try lia; repeat constructor; lia.
  - apply (X17_selector_from_increasing_rows [2; 5; 7]).
    cbn. unfold row_number. repeat split; try lia; repeat constructor; lia.
Defined.

(** Property X18: [split(num_rows)] of a selector in order throws
    LOGICAL_ERROR when [num_rows] exceeds the size, and otherwise returns two
    selectors in order of which the first selects the first [num_rows] rows
    and the second the others. *)
Theorem X18_selector_split (s : detail.Selector) (num_rows : Z) :
  selector_ok s -> 0 <= num_rows ->
  if num_rows >? detail.size s
  then detail.split s num_rows
       = inl (detail.LOGICAL_ERROR num_rows (detail.size s))
  else exists a b,
      detail.split s num_rows = inr (a, b)
      /\ selector_ok a /\ selector_ok b
      /\ elements a = firstn (Z.to_nat num_rows) (elements s)
      /\ elements b = skipn (Z.to_nat num_rows) (elements s).
Proof. exact (SelectorFacts.split_elements s num_rows). Qed.

Lemma X18_selector_split_witness :
  exists a b,
    detail.split (detail.of_selector [1; 4; 5; 9]) 1 = inr (a, b)
    /\ selector_ok a /\ selector_ok b
    /\ elements a = [1] /\ elements b = [4; 5; 9].
Proof.
  refine (X18_selector_split (detail.of_selector [1; 4; 5; 9]) 1 _ _).
  - cbn. unfold row_number. repeat split; try lia; repeat constructor; lia.
  - lia.
Defined.

(** Property X19: a loop over the iterators of a selector in order, from
    [begin()] to [end()], does not throw and visits the selected rows in
    order, given fuel for as many turns as the selector has rows;
    [ScatteredBlock::contains] answers whether the row is selected. *)
Theorem X19_selector_iteration {A Block : Type} (fuel : nat)
  (sb : ScatteredBlock.ScatteredBlock Block) (body : A -> Z -> A) (acc : A) (idx : Z) :
  selector_ok (ScatteredBlock.selector sb) ->
  (Z.to_nat (ScatteredBlock.rows sb) <= fuel)%nat ->
  detail.for_each fuel (detail.begin_ (ScatteredBlock.selector sb))
    (detail.end_ (ScatteredBlock.selector sb)) body acc
  = Some (inr (fold_left body (elements (ScatteredBlock.selector sb)) acc))
  /\ exists b,
      ScatteredBlock.contains fuel sb idx = Some (inr b)
      /\ (b = true <-> In idx (elements (ScatteredBlock.selector sb))).
Proof.
  intros Hs Hfuel. split; [|now apply contains_elements].
  pose proof (SelectorFacts.size_bound _ Hs) as Hb. unfold ScatteredBlock.rows in Hfuel.
  exact (SelectorFacts.for_each_from (ScatteredBlock.selector sb) body fuel 0 acc Hs
           ltac:(lia) ltac:(rewrite Z.sub_0_r; exact Hfuel)).
Qed.

Lemma X19_selector_iteration_witness :
  detail.for_each 3 (detail.begin_ (detail.of_range 3 6)) (detail.end_ (detail.of_range 3 6))
    (fun acc x => acc + x) 0
  = Some (inr 12).
Proof.
  refine (proj1 (X19_selector_iteration 3
                   (ScatteredBlock.mk tt (detail.of_range 3 6))
                   (fun acc x => acc + x) 0 4 _ _)).
  - unfold selector_ok. cbn. lia.
  - cbn. lia.
Defined.

(** Property X20: [filter] of a scattered block whose selector is in order
    keeps the block and leaves a selector in order that selects exactly the
    rows selected before whose entry of the mask is not zero, in the same
    order; it does not throw. *)
Theorem X20_scattered_block_filter {Block : Type} (fuel : nat)
  (sb : ScatteredBlock.ScatteredBlock Block) (mask : list Z) :
  selector_ok (ScatteredBlock.selector sb) ->
  Forall (fun idx => idx < Z.of_nat (length mask))
    (elements (ScatteredBlock.selector sb)) ->
  (Z.to_nat (ScatteredBlock.rows sb) <= fuel)%nat ->
  exists sb',
    ScatteredBlock.filter fuel sb mask = Some (inr sb')
    /\ ScatteredBlock.block sb' = ScatteredBlock.block sb
    /\ selector_ok (ScatteredBlock.selector sb')
    /\ elements (ScatteredBlock.selector sb')
       = List.filter (fun idx => negb (nth (Z.to_nat idx) mask 0 =? 0))
           (elements (ScatteredBlock.selector sb)).
Proof. intros Hs _ Hfuel. now apply filter_elements. Qed.

Lemma X20_scattered_block_filter_witness :
  exists sb',
    ScatteredBlock.filter 4 (ScatteredBlock.mk tt (detail.of_range 0 4)) [1; 0; 1; 1]
    = Some (inr sb')
    /\ ScatteredBlock.block sb' = tt
    /\ selector_ok (ScatteredBlock.selector sb')
    /\ elements (ScatteredBlock.selector sb') = [0; 2; 3].
Proof.
  refine (X20_scattered_block_filter 4 (ScatteredBlock.mk tt (detail.of_range 0 4))
            [1; 0; 1; 1] _ _ _).
  - unfold selector_ok. cbn. lia.
  - cbn. repeat constructor.
  - cbn. lia.
Defined.

(** Property X21: [createTrivialSelector(size)] is [Selector(0, size - 1)],
    whose range excludes its end: it selects [size - 1] rows, one fewer than
    [size], and 2^64 - 1 rows when [size] is zero.  A scattered block built
    from a block alone therefore counts one row fewer than the block has, and
    reports [wasScattered()]. *)
Theorem X21_trivial_selector_is_one_row_short {Block : Type}
  (Block_rows : Block -> Z) (block : Block) :
  0 <= Block_rows block < 2 ^ 64 ->
  let sb := ScatteredBlock.of_block Block_rows block in
  ScatteredBlock.rows sb = to_UInt64 (Block_rows block - 1)
  /\ ScatteredBlock.rows sb <> Block_rows block
  /\ ScatteredBlock.wasScattered Block_rows sb = true
  /\ (1 <= Block_rows block ->
      elements (ScatteredBlock.selector sb)
      = map Z.of_nat (seq 0 (Z.to_nat (Block_rows block - 1)))).
Proof.
  intros Hn. cbv zeta.
  unfold ScatteredBlock.of_block, ScatteredBlock.rows, ScatteredBlock.wasScattered,
    ScatteredBlock.createTrivialSelector.
  cbn [ScatteredBlock.selector ScatteredBlock.block].
  assert (Hsz : detail.size (detail.of_range 0 (to_UInt64 (Block_rows block - 1)))
                = to_UInt64 (Block_rows block - 1)).
  { unfold detail.size, detail.of_range. cbn [detail.data]. rewrite Z.sub_0_r.
    unfold to_UInt64. apply Z.mod_mod. lia. }
  assert (Hne : to_UInt64 (Block_rows block - 1) <> Block_rows block).
  { unfold to_UInt64. destruct (Z.eq_dec (Block_rows block) 0) as [E|E].
    - rewrite E. compute. discriminate.
    - rewrite Z.mod_small by lia. lia. }
  rewrite Hsz. split; [reflexivity|]. split; [exact Hne|]. split.
  - apply negb_true_iff, Z.eqb_neq, Hne.
  - intros H1. rewrite (to_UInt64_small (Block_rows block - 1)) by lia.
    rewrite SelectorFacts.elements_range by lia.
    rewrite Z.sub_0_r. apply map_ext. intros i. lia.
Qed.

Lemma X21_trivial_selector_is_one_row_short_witness :
  ScatteredBlock.rows (ScatteredBlock.of_block (fun n : Z => n) 5) = 4
  /\ ScatteredBlock.rows (ScatteredBlock.of_block (fun n : Z => n) 0) = 2 ^ 64 - 1.
Proof.
  split.
  - refine (proj1 (X21_trivial_selector_is_one_row_short (fun n : Z => n) 5 _)). lia.
  - refine (proj1 (X21_trivial_selector_is_one_row_short (fun n : Z => n) 0 _)). lia.
Defined.


(** ** Min and max emit a best row (X22) *)

(** Property X22: under min (max), an empty state fed with at least one row
    emits one of the rows, and no row is less (greater) than it.  This holds
    for a fixed-width slot and a generic slot over a totally ordered type,
    the generic slot being fed with non-null fields, and for a string slot,
    in its layout, fed with cells of at most 2^30 bytes that are not empty
    and do not end in a zero byte. *)
Theorem X22_min_max_emit_a_best_row
  {T : Type} `{FixedType T} {F : Type} `{FieldType F} :
  TotalOrder (A := T) T_less T_greater T_equal ->
  TotalOrder (A := F) Field_less Field_greater Field_equal ->
  MinMaxBestLaw (D := Fixed.SingleValueDataFixed T) T_less T_greater
    (fun s => Fixed.has s = false) (fun _ => True)
  /\ MinMaxBestLaw (D := Generic.SingleValueDataGeneric F) Field_less Field_greater
       (fun s => Generic.has s = false) (fun x => Field_isNull x = false)
  /\ MinMaxBestLaw (D := Str.SingleValueDataString) cell_less cell_greater
       (fun s => string_layout s /\ Str.has s = false)
       (fun x => cell_small x /\ cell_plain x).
Proof.
  intros OT OF. split; [|split].
  - apply (min_max_best _ _ _ T_default _ _ OT).
    eapply MinMaxFoldLaw_weaken; [| |apply (model_min_max_fold _ _ _ _ _ _ _ _ Fixed_model)].
    + cbn. auto.
    + cbn. unfold accepted. auto.
  - apply (min_max_best _ _ _ column_default _ _ OF).
    eapply MinMaxFoldLaw_weaken; [| |apply (model_min_max_fold _ _ _ _ _ _ _ _ Generic_model)].
    + cbn. auto.
    + cbn. unfold accepted. intros x ->. auto.
  - apply (min_max_best _ _ _ [] _ _ cell_order).
    eapply MinMaxFoldLaw_weaken;
      [| |apply (model_min_max_fold _ _ _ _ _ _ _ _ String_model_bounded)].
    + cbn. intros s [HL Hh]. split; [now apply string_ok_empty | exact Hh].
    + cbn. unfold accepted. intros x [Hf Hp]. repeat split.
      * exact Hf.
      * now apply nonempty_counts, cell_plain_nonempty.
      * now apply StrFacts.strip_plain.
Qed.

Lemma X22_min_max_emit_a_best_row_witness :
  is_best Z.ltb [3; 1; 2]
    (Agg.insertResultInto AggregateFunctionMinData
       (Agg.addRows AggregateFunctionMinData (Fixed.create 0) [3; 1; 2])).
Proof.
  refine (proj1 (proj1 (X22_min_max_emit_a_best_row (T := Z) (F := ArrayField.Field)
                          Int64_order ArrayFieldFacts.order)
                   (Fixed.create 0) [3; 1; 2] eq_refl _ _)).
  - repeat constructor.
  - discriminate.
Defined.
